(** * vcf2db: a shallow embedding of the loader and its verified properties

    The development follows [src/vcf2db.py].  Python values are modelled by
    an inductive type, dictionaries by [gmap string _], sets of keys by
    [gset string], exceptions by a [result] type, and the objects that the
    program mutates in place (SQL type objects, column lists, the engine's
    statement history) by an explicit world that is threaded through the
    loader. *)

From Stdlib Require Import ZArith List Ascii String DecimalString Lia Bool Floats.
From stdpp Require Import base option list gmap strings.

Local Open Scope Z_scope.

(** ** Python byte strings ([str] of Python 2) *)

Module PyStr.

Definition chars (s : string) : list ascii := list_ascii_of_string s.
Definition of_chars (l : list ascii) : string := string_of_list_ascii l.

Definition len (s : string) : Z := Z.of_nat (String.length s).

Definition mem (c : ascii) (cs : string) : bool :=
  existsb (Ascii.eqb c) (chars cs).

(** [s.replace(a, b)] for one-character [a] and [b]. *)
Fixpoint replace (a b : ascii) (s : string) : string :=
  match s with
  | EmptyString => EmptyString
  | String c s' => String (if Ascii.eqb c a then b else c) (replace a b s')
  end.

Fixpoint lstrip (cs : string) (s : string) : string :=
  match s with
  | EmptyString => EmptyString
  | String c s' => if mem c cs then lstrip cs s' else s
  end.

Definition rstrip (cs : string) (s : string) : string :=
  String.rev (lstrip cs (String.rev s)).

(** [s.strip(cs)]: characters of [cs] are removed from both ends. *)
Definition strip (cs : string) (s : string) : string :=
  rstrip cs (lstrip cs s).

Definition is_upper (c : ascii) : bool :=
  (65 <=? nat_of_ascii c)%nat && (nat_of_ascii c <=? 90)%nat.
Definition is_lower (c : ascii) : bool :=
  (97 <=? nat_of_ascii c)%nat && (nat_of_ascii c <=? 122)%nat.

Definition lower_char (c : ascii) : ascii :=
  if is_upper c then ascii_of_nat (nat_of_ascii c + 32) else c.

Fixpoint lower (s : string) : string :=
  match s with
  | EmptyString => EmptyString
  | String c s' => String (lower_char c) (lower s')
  end.

(** [s.islower()]: at least one cased character and no upper-case one. *)
Definition islower (s : string) : bool :=
  existsb is_lower (chars s) && negb (existsb is_upper (chars s)).

Definition startswith (p s : string) : bool := String.prefix p s.
Definition endswith (p s : string) : bool :=
  String.prefix (String.rev p) (String.rev s).

(** Splitting on the characters satisfying [sep]; like Python's [split] and
    [re.split] on a one-character pattern, empty pieces are kept and the
    result is never empty. *)
Fixpoint split_go (sep : ascii -> bool) (cur : string) (s : string)
  : list string :=
  match s with
  | EmptyString => [String.rev cur]
  | String c s' =>
      if sep c then String.rev cur :: split_go sep EmptyString s'
      else split_go sep (String c cur) s'
  end.

Definition split_on (sep : ascii -> bool) (s : string) : list string :=
  split_go sep EmptyString s.

(** [s.split(c)] for a one-character separator. *)
Definition split (c : ascii) (s : string) : list string :=
  split_on (Ascii.eqb c) s.

(** [s.split(c, 1)]: at most one cut, at the first occurrence of [c]. *)
Fixpoint split1_go (c : ascii) (cur : string) (s : string) : list string :=
  match s with
  | EmptyString => [String.rev cur]
  | String a s' =>
      if Ascii.eqb a c then [String.rev cur; s']
      else split1_go c (String a cur) s'
  end.

Definition split1 (c : ascii) (s : string) : list string :=
  split1_go c EmptyString s.

(** [sep.join(l)] *)
Fixpoint join (sep : string) (l : list string) : string :=
  match l with
  | [] => EmptyString
  | [x] => x
  | x :: l' => x +:+ sep +:+ join sep l'
  end.

(** The whitespace class [\s] of [re] on byte strings. *)
Definition is_space (c : ascii) : bool :=
  match nat_of_ascii c with
  | 9 | 10 | 11 | 12 | 13 | 32 => true
  | _ => false
  end%nat.

Definition whitespace : string :=
  of_chars (map ascii_of_nat [9; 10; 11; 12; 13; 32]%nat).

(** [str(n)] for an integer. *)
Definition of_Z (z : Z) : string :=
  DecimalString.NilZero.string_of_int (Z.to_int z).

End PyStr.

Example replace_ex : PyStr.replace "-" "_" "a-b-c" = "a_b_c".
Proof. reflexivity. Qed.
Example strip_ex : PyStr.strip "'" "'abc''" = "abc".
Proof. reflexivity. Qed.
Example split_ex : PyStr.split "," "a,,b" = ["a"; EmptyString; "b"].
Proof. reflexivity. Qed.
Example split1_ex : PyStr.split1 ":" "Format: a:b" = ["Format"; " a:b"].
Proof. reflexivity. Qed.
Example of_Z_ex : PyStr.of_Z (-12) = "-12".
Proof. reflexivity. Qed.
Example islower_ex : PyStr.islower "ab_1" = true /\ PyStr.islower "123" = false /\ PyStr.islower "Ab" = false.
Proof. repeat split. Qed.

(** ** Python values, dictionaries and exceptions *)

Set Warnings "-register-all,-inexact-float".

(** [VArr] is a numpy array: the dtype character and the elements
    ([tolist()]). *)
Inductive pyval : Type :=
  | VNone
  | VBool (b : bool)
  | VInt (z : Z)
  | VFloat (f : PrimFloat.float)
  | VStr (s : string)                      (* [str] and [buffer]: bytes *)
  | VArr (dtype_char : ascii) (items : list pyval).

(** A row or any other [dict] with string keys. *)
Abbreviation dict := (gmap string pyval).

Inductive exn : Type :=
  | KeyError (k : string)
  | IndexError
  | TypeError
  | ValueError
  | AttributeError
  | AnnotationError (id : string)    (* Exception("don't know how to use %s as annotation") *)
  | BulkError (table : string) (rows : list dict)
  | RowError (table : string) (row : dict).

Inductive result (A : Type) : Type :=
  | Ok (a : A)
  | Raise (e : exn).
Arguments Ok {A} a.
Arguments Raise {A} e.

Definition is_ok {A} (r : result A) : bool :=
  match r with Ok _ => true | Raise _ => false end.

Definition rbind {A B} (r : result A) (k : A -> result B) : result B :=
  match r with
  | Ok a => k a
  | Raise e => Raise e
  end.

Notation "'try!' x := e 'in' k" := (rbind e (fun x => k))
  (at level 10, x pattern, e at level 100, k at level 200).

(** [d[k]] *)
Definition getitem {V} (d : gmap string V) (k : string) : result V :=
  match d !! k with
  | Some v => Ok v
  | None => Raise (KeyError k)
  end.

(** What the interpreter and numpy print for floats and arrays is not part
    of the program; the two printers are taken as given. *)
Class Printers := {
  float_str : PrimFloat.float -> string;
  array_str : ascii -> list pyval -> string
}.

Section PyVal.
Context `{Printers}.

(** [str(v)] *)
Definition py_str (v : pyval) : string :=
  match v with
  | VNone => "None"
  | VBool true => "True"
  | VBool false => "False"
  | VInt z => PyStr.of_Z z
  | VFloat f => float_str f
  | VStr s => s
  | VArr c l => array_str c l
  end.

(** [len(v)]: defined on strings and arrays only. *)
Definition py_len (v : pyval) : result Z :=
  match v with
  | VStr s => Ok (PyStr.len s)
  | VArr _ l => Ok (Z.of_nat (length l))
  | _ => Raise TypeError
  end.

(** Truth value of [v], as used by [v or ...]; numpy refuses to give one
    to an array of several elements. *)
Definition truthy (v : pyval) : result bool :=
  match v with
  | VNone => Ok false
  | VBool b => Ok b
  | VInt z => Ok (negb (z =? 0))
  | VFloat f => Ok (negb (PrimFloat.eqb f PrimFloat.zero))
  | VStr s => Ok (negb (String.eqb s EmptyString))
  | VArr _ [] => Ok false
  | VArr _ [VBool b] => Ok b
  | VArr _ [VInt z] => Ok (negb (z =? 0))
  | VArr _ [VFloat f] => Ok (negb (PrimFloat.eqb f PrimFloat.zero))
  | VArr _ [VStr s] => Ok (negb (String.eqb s EmptyString))
  | VArr _ _ => Raise ValueError
  end.

End PyVal.

(** ** The annotation header registry ([VCFDB.impacts_headers]) *)

Module Registry.

Definition dquote : string := String "034" EmptyString.

(** [re.split("\s*\|\s*", s)]: cut at every bar, together with the white
    space on both sides of it. *)
Fixpoint trim_around (first : bool) (pieces : list string) : list string :=
  match pieces with
  | [] => []
  | [x] => [if first then x else PyStr.lstrip PyStr.whitespace x]
  | x :: rest =>
      (if first then PyStr.rstrip PyStr.whitespace x
       else PyStr.strip PyStr.whitespace x) :: trim_around false rest
  end.

Definition re_split_bar_ws (s : string) : list string :=
  trim_around true (PyStr.split "|" s).

(** [re.split("\||\(", s)] *)
Definition re_split_bar_paren (s : string) : list string :=
  PyStr.split_on (fun c => Ascii.eqb c "|" || Ascii.eqb c "(") s.

(** [desc.split(":", 1)[1]] *)
Definition after_colon (desc : string) : result string :=
  match PyStr.split1 ":" desc with
  | _ :: clause :: _ => Ok clause
  | _ => Raise IndexError
  end.

Definition ann_parts (clause : string) : list string :=
  map (PyStr.strip (dquote +:+ "'"))
      (re_split_bar_ws (PyStr.strip (dquote +:+ " ") clause)).

Definition eff_parts (clause : string) : list string :=
  map (PyStr.strip (" [])'(" +:+ dquote))
      (re_split_bar_paren (PyStr.strip PyStr.whitespace clause)).

Definition effect_list : list string := ["CSQ"; "ANN"; "EFF"].

(** The entry computed for a header line; the assignment into the registry
    is the last statement of [update_impacts_headers]. *)
Definition parse_parts (hdr_dict : gmap string string)
  : result (string * list string) :=
  try! desc := getitem hdr_dict "Description" in
  try! id := getitem hdr_dict "ID" in
  if String.eqb id "ANN" then
    try! clause := after_colon desc in Ok (id, ann_parts clause)
  else if String.eqb id "EFF" then
    try! clause := after_colon desc in Ok (id, eff_parts clause)
  else if String.eqb id "CSQ" then
    try! clause := after_colon desc in Ok (id, eff_parts clause)
  else Raise (AnnotationError id).

(** [update_impacts_headers]: the outcome of the call and the registry
    after it. *)
Definition update_impacts_headers
    (hdr_dict : gmap string string) (impacts_headers : gmap string (list string))
  : result unit * gmap string (list string) :=
  match parse_parts hdr_dict with
  | Ok (id, parts) => (Ok tt, <[id := parts]> impacts_headers)
  | Raise e => (Raise e, impacts_headers)
  end.

Definition hdr (id desc : string) : gmap string string :=
  <["ID" := id]> (<["Description" := desc]> ∅).

End Registry.

Example ann_header_ex :
  Registry.ann_parts (" 'Allele | Annotation | Gene_Name ' " +:+ Registry.dquote)
  = ["Allele"; "Annotation"; "Gene_Name "].
Proof. vm_compute. reflexivity. Qed.

Example csq_header_ex :
  Registry.parse_parts
    (Registry.hdr "CSQ" (Registry.dquote +:+ "Consequence type. Format: Allele|Gene|Feature" +:+ Registry.dquote))
  = Ok ("CSQ", ["Allele"; "Gene"; "Feature"]).
Proof. vm_compute. reflexivity. Qed.

Example eff_header_ex :
  Registry.parse_parts
    (Registry.hdr "EFF" "Predicted effects. Format: 'Effect ( Effect_Impact | Functional_Class [ | ERRORS ] )' ")
  = Ok ("EFF", ["Effect"; "Effect_Impact"; "Functional_Class"; "ERRORS"]).
Proof. vm_compute. reflexivity. Qed.

(** ** Column declarations and the SQL type objects they point to *)

(** A [sql.String(n)] object is mutable and may be shared by several
    columns ([type_lookups] hands the same object to every INFO column of
    that type), so [String_] holds a reference into a heap of lengths. *)
Inductive sqltype : Type :=
  | Integer | SmallInteger | Float | Boolean | LargeBinary | TEXT
  | String_ (ref : nat).

Record Column := mkColumn { name : string; type : sqltype }.

(** [c.type.__class__.__name__ == "String"] *)
Definition string_ref (c : Column) : option nat :=
  match type c with String_ r => Some r | _ => None end.

Module Schema.

(** [int(1.2 * n + 0.5)]: the product [1.2 * n] never has fractional part
    one half, so the double computation agrees with this integer one on
    every length a string can have (see [grow_float_agrees]). *)
Definition grow (n : Z) : Z := (12 * n + 5) / 10.

(** The same expression evaluated in IEEE double precision. *)
Definition int_of_float (f : PrimFloat.float) : Z :=
  match Prim2SF f with
  | SpecFloat.S754_finite sgn m e =>
      let mag := if (0 <=? e) then Z.pos m * 2 ^ e else Z.pos m / 2 ^ (- e) in
      if sgn then - mag else mag
  | _ => 0
  end.

Definition grow_float (n : Z) : Z :=
  int_of_float (PrimFloat.add (PrimFloat.mul 1.2%float (PrimFloat.of_uint63 (Uint63.of_Z n))) 0.5%float).

(** The heap of [String] lengths, by reference; a new object takes the
    next unused reference. *)
Definition new_String (n : Z) (heap : gmap nat Z) : sqltype * gmap nat Z :=
  (String_ (size heap), <[size heap := n]> heap).

(** [type_lookups]: the two [String] objects are created once, when the
    module is loaded, at references 0 and 1. *)
Definition initial_heap : gmap nat Z := {[ 0%nat := 1; 1%nat := 5 ]}.

Definition type_lookups (ty : string) : result sqltype :=
  if String.eqb ty "Integer" then Ok Integer
  else if String.eqb ty "Float" then Ok Float
  else if String.eqb ty "Flag" then Ok Boolean
  else if String.eqb ty "Character" then Ok (String_ 0)
  else if String.eqb ty "String" then Ok (String_ 1)
  else Raise (KeyError ty).

(** A list of [sql.Column(name, sql.String(n))] and other declarations,
    each [String] allocating a fresh type object. *)
Inductive decl : Type :=
  | DString (n : Z)
  | DType (t : sqltype).

Fixpoint declare (ds : list (string * decl)) (heap : gmap nat Z)
  : list Column * gmap nat Z :=
  match ds with
  | [] => ([], heap)
  | (nm, DString n) :: ds' =>
      let '(t, heap1) := new_String n heap in
      let '(cs, heap2) := declare ds' heap1 in
      (mkColumn nm t :: cs, heap2)
  | (nm, DType t) :: ds' =>
      let '(cs, heap1) := declare ds' heap in
      (mkColumn nm t :: cs, heap1)
  end.

Definition variants_default_columns : list (string * decl) :=
  [ ("variant_id", DType Integer); ("chrom", DString 10);
    ("start", DType Integer); ("end", DType Integer);
    ("vcf_id", DString 12); ("ref", DType TEXT); ("alt", DType TEXT);
    ("qual", DType Float); ("filter", DString 10) ].

Definition variants_gene_columns : list (string * decl) :=
  [ ("gene", DString 20); ("transcript", DString 20);
    ("is_exonic", DType Boolean); ("is_coding", DType Boolean);
    ("is_lof", DType Boolean); ("is_splicing", DType Boolean);
    ("exon", DString 8); ("codon_change", DType TEXT);
    ("aa_change", DType TEXT); ("aa_length", DString 8);
    ("biotype", DString 50); ("impact", DString 20);
    ("impact_so", DString 20); ("impact_severity", DString 4);
    ("polyphen_pred", DString 20); ("polyphen_score", DType Float);
    ("sift_pred", DString 20); ("sift_score", DType Float) ].

Definition variants_calculated_columns : list (string * decl) :=
  [ ("type", DString 8); ("sub_type", DString 20);
    ("call_rate", DType Float); ("num_hom_ref", DType Integer);
    ("num_het", DType Integer); ("num_hom_alt", DType Integer);
    ("aaf", DType Float); ("hwe", DType Float);
    ("inbreeding_coef", DType Float); ("pi", DType Float) ].

Definition variants_sv_columns : list (string * decl) := [].

Definition gt_cols : list string :=
  ["gts"; "gt_types"; "gt_phases"; "gt_depths"; "gt_ref_depths";
   "gt_alt_depths"; "gt_quals"].

Definition variants_genotype_columns : list (string * decl) :=
  map (fun nm => (nm, DType LargeBinary)) gt_cols.

(** [clean]: turn a vcf id into a db name. *)
Definition clean (nm : string) : string :=
  PyStr.lower
    (PyStr.strip "'"
       (PyStr.strip Registry.dquote
          (PyStr.replace " " "_" (PyStr.replace "-" "_" nm)))).

Definition in_list (x : string) (l : list string) : bool :=
  existsb (String.eqb x) l.

Definition is_af_name (id : string) : bool :=
  PyStr.endswith "_af" id || PyStr.endswith "_aaf" id
  || PyStr.startswith "af_" id || PyStr.startswith "aaf_" id
  || PyStr.startswith "an_" id.

(** One turn of the loop of [variants_info_columns] for the parsed line
    [d]: an annotation header is registered, a black-listed id is skipped,
    any other id yields a column. *)
Definition info_column (black_list : list string) (d : gmap string string)
    (impacts_headers : gmap string (list string))
  : result (option Column) * gmap string (list string) :=
  match getitem d "ID" with
  | Raise e => (Raise e, impacts_headers)
  | Ok raw_id =>
      if in_list raw_id Registry.effect_list then
        match Registry.update_impacts_headers d impacts_headers with
        | (Ok _, reg) => (Ok None, reg)
        | (Raise e, reg) => (Raise e, reg)
        end
      else
        let id := clean raw_id in
        if in_list raw_id black_list || in_list id black_list then
          (Ok None, impacts_headers)
        else
          let id := if String.eqb id "id" then "idx" else id in
          if is_af_name id then (Ok (Some (mkColumn id Float)), impacts_headers)
          else
            (try! ty := getitem d "Type" in
             try! t := type_lookups ty in
             Ok (Some (mkColumn id t)), impacts_headers)
  end.

(** [variants_info_columns], over the dictionaries that [info_parse]
    returns for the [##INFO] lines of the header, in order. *)
Fixpoint variants_info_columns (black_list : list string)
    (infos : list (gmap string string))
    (impacts_headers : gmap string (list string))
  : result (list Column) * gmap string (list string) :=
  match infos with
  | [] => (Ok [], impacts_headers)
  | d :: rest =>
      match info_column black_list d impacts_headers with
      | (Raise e, reg) => (Raise e, reg)
      | (Ok oc, reg) =>
          match variants_info_columns black_list rest reg with
          | (Raise e, reg') => (Raise e, reg')
          | (Ok cs, reg') => (Ok (from_option (fun c => c :: cs) cs oc), reg')
          end
      end
  end.

Section Widths.
Context `{Printers}.

(** The body of [for d in dicts] in [_create] for the column [name] whose
    type object is [r]: the outcome is [true] when the column has to become
    [TEXT] (the [break]), and the heap after the turn. *)
Definition scan_row (name : string) (r : nat) (d : dict) (heap : gmap nat Z)
  : result bool * gmap nat Z :=
  let grown :=
    if heap !!! r <? PyStr.len (py_str (default (VStr EmptyString) (d !! name)))
    then
      try! v := getitem d name in
      try! n := py_len v in
      Ok (<[r := grow n]> heap)
    else Ok heap in
  match grown with
  | Raise e => (Raise e, heap)
  | Ok heap1 => (Ok (48 <? heap1 !!! r), heap1)
  end.

Fixpoint scan_col (name : string) (r : nat) (dicts : list dict) (heap : gmap nat Z)
  : result bool * gmap nat Z :=
  match dicts with
  | [] => (Ok false, heap)
  | d :: rest =>
      match scan_row name r d heap with
      | (Raise e, heap1) => (Raise e, heap1)
      | (Ok true, heap1) => (Ok true, heap1)
      | (Ok false, heap1) => scan_col name r rest heap1
      end
  end.

(** [_create(dicts, cols)]: [cols] lists the items of the dictionary
    [{c.name: c ...}] in the order the loop visits them, each column object
    given by its position in the column list. *)
Fixpoint _create_go (dicts : list dict) (cols : list (string * nat))
    (exclude_cols : gset string) (heap : gmap nat Z) (columns : list Column)
  : result unit * (gmap nat Z * list Column) :=
  match cols with
  | [] => (Ok tt, (heap, columns))
  | (nm, i) :: rest =>
      if decide (nm ∈ exclude_cols) then
        _create_go dicts rest exclude_cols heap columns
      else
        match columns !! i ≫= string_ref with
        | None => (Raise AttributeError, (heap, columns))
        | Some r =>
            match scan_col nm r dicts heap with
            | (Raise e, heap1) => (Raise e, (heap1, columns))
            | (Ok true, heap1) =>
                _create_go dicts rest ({[nm]} ∪ exclude_cols) heap1
                  (alter (fun c => mkColumn (name c) TEXT) i columns)
            | (Ok false, heap1) =>
                _create_go dicts rest exclude_cols heap1 columns
            end
        end
  end.

Definition _create (dicts : list dict) (cols : list (string * nat))
    (heap : gmap nat Z) (columns : list Column)
  : result unit * (gmap nat Z * list Column) :=
  _create_go dicts cols ∅ heap columns.

(** [{c.name: c for c in columns if c.type.__class__.__name__ == "String"}]:
    a later column replaces an earlier one of the same name. *)
Fixpoint string_cols_from (i : nat) (columns : list Column) : gmap string nat :=
  match columns with
  | [] => ∅
  | c :: rest =>
      let m := string_cols_from (S i) rest in
      match string_ref c, m !! name c with
      | Some _, None => <[name c := i]> m
      | _, _ => m
      end
  end.

Definition string_cols (columns : list Column) : gmap string nat :=
  string_cols_from 0 columns.

(** One column of [check_column_lengths]: the longest value that does not
    fit the current length [l], if any. *)
Fixpoint longest_over (name : string) (l : Z) (dicts : list dict) (acc : option Z)
  : result (option Z) :=
  match dicts with
  | [] => Ok acc
  | d :: rest =>
      let v := default VNone (d !! name) in
      try! t := truthy v in
      try! n := py_len (if t then v else VStr EmptyString) in
      if l <? n then
        try! m := py_len v in
        longest_over name l rest (Some (Z.max (default 0 acc) m))
      else longest_over name l rest acc
  end.

Fixpoint check_column_lengths_go (dicts : list dict) (cols : list (string * nat))
    (heap : gmap nat Z) (columns : list Column) (change_cols : gmap string Z)
  : result (gmap string Z) :=
  match cols with
  | [] => Ok change_cols
  | (nm, i) :: rest =>
      match columns !! i ≫= string_ref with
      | None => Raise AttributeError
      | Some r =>
          try! o := longest_over nm (heap !!! r) dicts (change_cols !! nm) in
          check_column_lengths_go dicts rest heap columns
            (from_option (fun n => <[nm := n]> change_cols) change_cols o)
      end
  end.

Definition check_column_lengths (dicts : list dict) (cols : list (string * nat))
    (heap : gmap nat Z) (columns : list Column) : result (gmap string Z) :=
  check_column_lengths_go dicts cols heap columns ∅.

End Widths.

End Schema.

Example clean_ex : Schema.clean "'My-Field Name'" = "my_field_name".
Proof. reflexivity. Qed.

Example grow_float_ex : Schema.grow_float 6 = 7 /\ Schema.grow 6 = 7 /\ Schema.grow_float 10 = 12.
Proof. vm_compute. auto. Qed.

(** ** The genotype blob encoders *)

(** The compression and serialisation primitives are external.  Of zlib
    only the fixed framing of RFC 1950 is spelled out (the two header bytes
    that [zlib.compress] writes for its 32K window); the deflate stream and
    the checksum that follow are [deflate_body]. *)
Class Primitives := {
  deflate_body : Z -> string -> string;
  pickle_dumps : pyval -> string;
  snappy_compress : string -> string;
  tobytes : ascii -> list pyval -> string
}.

Module Codec.

(** The calls of external primitives that one call of an encoder makes. *)
Inductive call : Type :=
  | CallPickle (obj : pyval)
  | CallZlib (data : string) (level : Z)
  | CallSnappy (data : string).

Definition zlib_header (level : Z) : string :=
  let level_flags :=
    if level <? 2 then 0 else if level <? 6 then 1
    else if level =? 6 then 2 else 3 in
  let h := Z.lor (Z.shiftl 120 8) (Z.shiftl level_flags 6) in
  let h := h + (31 - h mod 31) in
  String (ascii_of_N (Z.to_N (Z.shiftr h 8)))
    (String (ascii_of_N (Z.to_N (Z.land h 255))) EmptyString).

Section Encoders.
Context `{Primitives}.

Definition zlib_compress (data : string) (level : Z) : string :=
  zlib_header level +:+ deflate_body level data.

(** [zlib.compress(pickle.dumps(None, pickle.HIGHEST_PROTOCOL))], the
    default value of the parameter [_none]: evaluated when [pack_blob] is
    defined, at the default level 6. *)
Definition _none : string := zlib_compress (pickle_dumps VNone) 6.

Definition pack_blob_with (obj : pyval) (_none : string) : list call * string :=
  match obj with
  | VNone => ([], _none)
  | _ =>
      let p := pickle_dumps obj in
      ([CallPickle obj; CallZlib p 1], zlib_compress p 1)
  end.

Definition pack_blob (obj : pyval) : list call * string :=
  pack_blob_with obj _none.

Definition SEP : string := String "000" EmptyString.

(** [sep.join(obj)] for an array of strings. *)
Fixpoint str_items (items : list pyval) : result (list string) :=
  match items with
  | [] => Ok []
  | VStr s :: rest => try! l := str_items rest in Ok (s :: l)
  | _ :: _ => Raise TypeError
  end.

Definition snappy_pack_blob_with (obj : pyval) (sep : string)
  : result (list call * string) :=
  match obj with
  | VNone => Ok ([], EmptyString)
  | VArr c items =>
      if Ascii.eqb c "S" then
        try! l := str_items items in
        let data := PyStr.join sep l in
        Ok ([CallSnappy data], String "S" (snappy_compress data))
      else
        let data := tobytes c items in
        Ok ([CallSnappy data], String c (snappy_compress data))
  | _ => Raise AttributeError
  end.

Definition snappy_pack_blob (obj : pyval) : result (list call * string) :=
  snappy_pack_blob_with obj SEP.

End Encoders.

End Codec.

Example zlib_header_ex :
  Codec.zlib_header 1 = String "120" (String "001" EmptyString)
  /\ Codec.zlib_header 6 = String "120" (String "156" EmptyString).
Proof. split; reflexivity. Qed.

(** ** The per-variant transform ([gene_info]) *)

(** An impact candidate as decoded by the annotation library: the
    attributes that [gene_info] reads. *)
Record Effect := mkEffect {
  gene : pyval; transcript : pyval; is_exonic : pyval; is_coding : pyval;
  is_splicing : pyval; is_lof : pyval; exon : pyval; codon_change : pyval;
  aa_change : pyval; aa_length : pyval; biotype : pyval;
  top_consequence : pyval; so : pyval; effect_severity : pyval;
  polyphen_pred : pyval; polyphen_score : pyval; sift_pred : pyval;
  sift_score : pyval
}.

(** The decoders of the annotation library and the severity rank by which it
    compares candidates are external. *)
Class Annotations := {
  VEP : string -> list string -> Effect;
  SnpEff : string -> list string -> Effect;
  OldSnpEff : string -> list string -> Effect;
  severity : Effect -> nat
}.

Module Transform.

(** The representative of a record: a real candidate, or the object
    [noner] whose every attribute is [None]. *)
Inductive representative : Type :=
  | Real (e : Effect)
  | noner.

Definition keys : list string :=
  ["gene"; "transcript"; "is_exonic"; "is_coding"; "is_splicing";
   "is_lof"; "exon"; "codon_change"; "aa_change"; "aa_length";
   "biotype"; "top_consequence"; "so"; "effect_severity";
   "polyphen_pred"; "polyphen_score"; "sift_pred"; "sift_score"].

Definition effect_items (e : Effect) : list (string * pyval) :=
  [("gene", gene e); ("transcript", transcript e);
   ("is_exonic", is_exonic e); ("is_coding", is_coding e);
   ("is_splicing", is_splicing e); ("is_lof", is_lof e);
   ("exon", exon e); ("codon_change", codon_change e);
   ("aa_change", aa_change e); ("aa_length", aa_length e);
   ("biotype", biotype e); ("top_consequence", top_consequence e);
   ("so", so e); ("effect_severity", effect_severity e);
   ("polyphen_pred", polyphen_pred e); ("polyphen_score", polyphen_score e);
   ("sift_pred", sift_pred e); ("sift_score", sift_score e)].

(** [getattr(top, k)] for the attribute names of [keys]. *)
Definition getattr (top : representative) (k : string) : pyval :=
  match top with
  | noner => VNone
  | Real e => default VNone (snd <$> find (fun p => String.eqb (fst p) k) (effect_items e))
  end.

(** What [top_severity] hands back: nothing, one candidate, or a list. *)
Inductive top_result : Type :=
  | TopNone
  | TopOne (e : Effect)
  | TopList (l : list Effect).

Section GeneInfo.
Context `{Annotations}.

Definition max_severity (impacts : list Effect) : nat :=
  foldr (fun e m => Nat.max (severity e) m) 0%nat impacts.

(** Modelled from the spec: [geneimpacts.Effect.top_severity] is not among
    the sources.  Following section 4.4, step 2: the highest-severity
    candidate wins, candidates of equal severity keep their decoding order
    (so that the first encountered is first), and no candidate gives no
    representative. *)
Definition top_severity (impacts : list Effect) : top_result :=
  match impacts with
  | [] => TopNone
  | _ =>
      match filter (fun e => severity e = max_severity impacts) impacts with
      | [e] => TopOne e
      | l => TopList l
      end
  end.

(** Lines 589-593 of [gene_info]. *)
Definition select_top (impacts : list Effect) : result representative :=
  match top_severity impacts with
  | TopList l =>
      match l with
      | e :: _ => Ok (Real e)
      | [] => Raise IndexError
      end
  | TopNone => Ok noner
  | TopOne e => Ok (Real e)
  end.

(** The decoder for an annotation key. *)
Definition decoder (k : string) : string -> list string -> Effect :=
  if String.eqb k "CSQ" then VEP
  else if String.eqb k "ANN" then SnpEff
  else OldSnpEff.

(** The loop over the annotation keys present in [d]: the candidates are
    appended in the order CSQ, ANN, EFF and the raw text is deleted. *)
Fixpoint decode_all (effs : list string) (impacts_headers : gmap string (list string))
    (d : dict) (impacts : list Effect) : result (dict * list Effect) :=
  match effs with
  | [] => Ok (d, impacts)
  | k :: rest =>
      match d !! k with
      | None => decode_all rest impacts_headers d impacts
      | Some v =>
          try! entries :=
            (match v with
             | VStr s => Ok (PyStr.split "," s)
             | _ => Raise AttributeError
             end) in
          try! hdr := getitem impacts_headers k in
          decode_all rest impacts_headers (delete k d)
            (impacts ++ map (fun e => decoder k e hdr) entries)
      end
  end.

(** [for c in gt_cols: d[c] = blobber(d[c])] *)
Fixpoint blob_all (blobber : pyval -> result pyval) (cols : list string) (d : dict)
  : result dict :=
  match cols with
  | [] => Ok d
  | c :: rest =>
      try! v := getitem d c in
      try! b := blobber v in
      blob_all blobber rest (<[c := b]> d)
  end.

(** [u = dict.fromkeys(req_cols); u.update(d)] and the loop that gives
    every key that is not lower case a lower-case twin. *)
Definition add_required (req_cols : gset string) (d : dict) : dict :=
  foldl (fun u k => <[PyStr.lower k := default VNone (d !! k)]> u)
        (d ∪ gset_to_gmap VNone req_cols)
        (filter (fun k => PyStr.islower k = false) (elements req_cols)).

Definition impact_row (variant_id : pyval) (impact : Effect) : dict :=
  list_to_map (("variant_id", variant_id) :: effect_items impact).

(** The projection of the representative onto the row: [d[k] = getattr(top,
    k)] for every key, then the three [impact] columns. *)
Definition project (top : representative) (d : dict) : dict :=
  let d := foldl (fun d k => <[k := getattr top k]> d) d keys in
  let d := <["impact" := getattr top "top_consequence"]> d in
  let d := <["impact_so" := getattr top "so"]> d in
  <["impact_severity" := getattr top "effect_severity"]> d.

Definition gene_info (d : dict) (impacts_headers : gmap string (list string))
    (blobber : pyval -> result pyval) (gt_cols : list string)
    (req_cols : gset string) : result (dict * list dict) :=
  try! (d, impacts) := decode_all ["CSQ"; "ANN"; "EFF"] impacts_headers d [] in
  try! top := select_top impacts in
  let d := project top d in
  try! d := blob_all blobber gt_cols d in
  let d := add_required req_cols d in
  match impacts with
  | [] => Ok (d, [])
  | _ =>
      try! variant_id := getitem d "variant_id" in
      Ok (d, map (impact_row variant_id) impacts)
  end.

End GeneInfo.

End Transform.

(** ** The batch loader *)

(** What the program sends to the storage engine, in order.  An insert
    carries, besides its rows, the lengths that the [String] columns of its
    table have at that moment. *)
Inductive event : Type :=
  | EDrop (table : string)
  | ECreate (table : string) (widths : gmap string Z)
  | EAlter (table column : string) (length : Z)
  | EExecute (table : string) (widths : gmap string Z) (rows : list dict) (ok : bool)
  | EBegin
  | ERow (table : string) (widths : gmap string Z) (row : dict) (ok : bool)
  | ECommit
  | EAbort.

(** The rows that the engine holds after a sequence of events, in the order
    they were committed: a bulk insert outside a transaction commits at
    once, the rows executed inside a transaction are committed by its
    [ECommit] and dropped by its [EAbort].  An insert without rows counts
    for no row: the statement that is sent for it asks for a row of default
    values, which has no [variant_id], and [variant_impacts], the one table
    for which [__insert] can be given no rows, declares that column
    [nullable=False]. *)
Fixpoint committed_go (pending : option (list (string * dict))) (evs : list event)
  : list (string * dict) :=
  match evs with
  | [] => []
  | EExecute t _ rows true :: rest =>
      match pending with
      | None => map (pair t) rows ++ committed_go None rest
      | Some p => committed_go (Some (p ++ map (pair t) rows)) rest
      end
  | ERow t _ row true :: rest =>
      match pending with
      | None => (t, row) :: committed_go None rest
      | Some p => committed_go (Some (p ++ [(t, row)])) rest
      end
  | EBegin :: rest => committed_go (Some []) rest
  | ECommit :: rest => default [] pending ++ committed_go None rest
  | EAbort :: rest => committed_go None rest
  | _ :: rest => committed_go pending rest
  end.

Definition committed (evs : list event) : list (string * dict) :=
  committed_go None evs.

(** The storage engine: its dialect, and which statements it accepts given
    everything it has been sent before. *)
Class Engine := {
  dialect_name : string;
  accepts : list event -> string -> list dict -> bool;
  accepts_row : list event -> string -> dict -> bool
}.

(** The attributes of a [VCFDB] that the loader changes. *)
Record world := mkWorld {
  impacts_headers : gmap string (list string);
  heap : gmap nat Z;
  unsized : gmap (string * string) Z;
  variants_columns : list Column;
  variant_impacts_columns : list Column;
  log : list event
}.

Definition M (A : Type) : Type := world -> result A * world.

Definition ret {A} (a : A) : M A := fun w => (Ok a, w).
Definition raise {A} (e : exn) : M A := fun w => (Raise e, w).
Definition bind {A B} (m : M A) (k : A -> M B) : M B :=
  fun w => match m w with
           | (Ok a, w1) => k a w1
           | (Raise e, w1) => (Raise e, w1)
           end.
Definition lift {A} (r : result A) : M A := fun w => (r, w).

Notation "'do' x <- m ; k" := (bind m (fun x => k))
  (at level 10, x pattern, m at level 100, k at level 200).
Notation "m ;; k" := (bind m (fun _ => k))
  (at level 100, k at level 200, right associativity).

(** [try: m except: handler] with the caught exception passed on. *)
Definition try_except {A} (m : M A) (handler : exn -> M A) : M A :=
  fun w => match m w with
           | (Ok a, w1) => (Ok a, w1)
           | (Raise e, w1) => handler e w1
           end.

Fixpoint for_each {A} (l : list A) (body : A -> M unit) : M unit :=
  match l with
  | [] => ret tt
  | x :: rest => body x ;; for_each rest body
  end.

Definition emit (ev : event) : M unit :=
  fun w => (Ok tt, mkWorld (impacts_headers w) (heap w) (unsized w) (variants_columns w)
                           (variant_impacts_columns w) (log w ++ [ev])).

Definition set_heap (h : gmap nat Z) : M unit :=
  fun w => (Ok tt, mkWorld (impacts_headers w) h (unsized w) (variants_columns w)
                           (variant_impacts_columns w) (log w)).

Definition set_unsized (u : gmap (string * string) Z) : M unit :=
  fun w => (Ok tt, mkWorld (impacts_headers w) (heap w) u (variants_columns w)
                           (variant_impacts_columns w) (log w)).

Definition columns_of (table : string) (w : world) : list Column :=
  if String.eqb table "variants" then variants_columns w
  else if String.eqb table "variant_impacts" then variant_impacts_columns w
  else [].

Definition set_columns (table : string) (cs : list Column) : M unit :=
  fun w =>
    if String.eqb table "variants" then
      (Ok tt, mkWorld (impacts_headers w) (heap w) (unsized w) cs
                      (variant_impacts_columns w) (log w))
    else if String.eqb table "variant_impacts" then
      (Ok tt, mkWorld (impacts_headers w) (heap w) (unsized w) (variants_columns w) cs
                      (log w))
    else (Ok tt, w).

(** [Table.columns]: the columns by name, a later column of the same name
    replacing an earlier one; each name is given with the position of its
    column in the column list. *)
Fixpoint table_index_from (i : nat) (columns : list Column) : gmap string nat :=
  match columns with
  | [] => ∅
  | c :: rest =>
      let m := table_index_from (S i) rest in
      match m !! name c with
      | None => <[name c := i]> m
      | Some _ => m
      end
  end.

Definition table_index (columns : list Column) : gmap string nat :=
  table_index_from 0 columns.

(** [table.columns[nm]] *)
Definition table_column (columns : list Column) (nm : string) : option Column :=
  table_index columns !! nm ≫= (columns !!.).

(** The lengths of the [String] columns of a table. *)
Definition widths (h : gmap nat Z) (columns : list Column) : gmap string Z :=
  omap (fun i => (fun r => h !!! r) <$> (columns !! i ≫= string_ref))
       (table_index columns).

Definition widths_of (table : string) (w : world) : gmap string Z :=
  widths (heap w) (columns_of table w).

Module Loader.

(** [grouper(n, iterable)]: pieces of [n] elements, the last one shorter. *)
Fixpoint grouper_go {A} (n : nat) (k : nat) (piece : list A) (l : list A)
  : list (list A) :=
  match l with
  | [] => match piece with [] => [] | _ => [reverse piece] end
  | x :: rest =>
      match k with
      | O => []
      | S O => reverse (x :: piece) :: grouper_go n n [] rest
      | S k' => grouper_go n k' (x :: piece) rest
      end
  end.

Definition grouper {A} (n : nat) (l : list A) : list (list A) :=
  grouper_go n n [] l.

Section Engine.
Context `{Engine}.

(** [self.engine.execute(stmt, rows)] *)
Definition execute (table : string) (rows : list dict) : M unit :=
  fun w =>
    if accepts (log w) table rows
    then emit (EExecute table (widths_of table w) rows true) w
    else (emit (EExecute table (widths_of table w) rows false) ;;
          raise (BulkError table rows)) w.

(** [trans.execute(stmt, o)] *)
Definition execute_row (table : string) (o : dict) : M unit :=
  fun w =>
    if accepts_row (log w) table o
    then emit (ERow table (widths_of table w) o true) w
    else (emit (ERow table (widths_of table w) o false) ;;
          raise (RowError table o)) w.

(** [with self.engine.begin() as trans: body]: committed when the body
    ends, rolled back when an exception leaves it. *)
Definition transaction (body : M unit) : M unit :=
  emit EBegin ;;
  try_except body (fun e => emit EAbort ;; raise e) ;;
  emit ECommit.

(** [self.engine.rollback()]: [self.engine] is the [Engine] that
    [sqlalchemy.create_engine] returned in [__init__], and an [Engine] has
    no attribute [rollback] (only a connection or a transaction has one).
    The attribute lookup raises [AttributeError]; nothing reaches the
    database. *)
Definition engine_rollback : M unit := raise AttributeError.

(** The [try: ... except: ... raise] block around one bulk insert: when
    the engine refuses the chunk [g], its rows are executed one at a time in
    one transaction and the exception is raised again.  The block is written
    out twice in [__insert]; in the loop over groups its handler first calls
    [self.engine.rollback()], so that there the handler is left by the
    [AttributeError] of that call before any row is retried. *)
Definition bulk_or_rows (rollback_first : bool) (table : string) (g : list dict)
  : M unit :=
  try_except (execute table g) (fun e =>
    (if rollback_first then engine_rollback else ret tt) ;;
    transaction (for_each g (execute_row table)) ;;
    raise e).

Definition __insert (objs : list dict) (table : string) : M unit :=
  if 6000 <? Z.of_nat (length objs) then
    for_each (grouper (Z.to_nat 5000) objs) (bulk_or_rows true table)
  else
    bulk_or_rows false table objs.

(** The statement that [set_column_length] sends after it has stored the
    new length. *)
Definition alter_column (table : string) (column : Column) (length : Z) : M unit :=
  if PyStr.startswith "postgres" dialect_name then
    emit (EAlter table (name column) length)
  else if String.eqb dialect_name "mysql" then
    emit (EAlter table (name column) length)
  else ret tt.

(** [set_column_length(e, column, length)]; the message on standard error
    and the dictionary [saved] that only serves it are left out.  A [String]
    type holds its length.  The types [TEXT] and [LargeBinary] have a length
    too, which is [None] until this function stores one: the program runs
    on Python 2, where [None >= length] is false, so that the first call
    for such a column stores the length and sends the statement.  The other
    types have no attribute [length]. *)
Definition set_column_length (table : string) (column : Column) (length : Z)
  : M unit :=
  fun w =>
    match type column with
    | String_ r =>
        if length <=? heap w !!! r then (Ok tt, w)
        else
          (set_heap (<[r := length]> (heap w)) ;;
           alter_column table column length) w
    | TEXT | LargeBinary =>
        match unsized w !! (table, name column) with
        | Some l =>
            if length <=? l then (Ok tt, w)
            else
              (set_unsized (<[(table, name column) := length]> (unsized w)) ;;
               alter_column table column length) w
        | None =>
            (set_unsized (<[(table, name column) := length]> (unsized w)) ;;
             alter_column table column length) w
        end
    | _ => (Raise AttributeError, w)
    end.

(** The two loops of [_insert] that widen columns. *)
Definition grow_columns (table : string) (lengths : list (string * Z)) : M unit :=
  for_each lengths (fun '(nm, clen) =>
    fun w =>
      match table_column (columns_of table w) nm with
      | None => (Raise (KeyError nm), w)
      | Some col => set_column_length table col clen w
      end).

Definition _insert (vlengths : gmap string Z) (v_objs : list dict)
    (vilengths : gmap string Z) (vi_objs : list dict) : M unit :=
  grow_columns "variants" (map_to_list vlengths) ;;
  __insert v_objs "variants" ;;
  grow_columns "variant_impacts" (map_to_list vilengths) ;;
  __insert vi_objs "variant_impacts".

End Engine.

(** The attributes of a [VCFDB] that stay fixed during the load. *)
Inductive blobber_choice : Type := PackBlob | SnappyPackBlob.

Record settings := mkSettings {
  blobber : blobber_choice;
  expand : list string;
  samples : list string;
  sample_idxs : list nat;
  raw_header : string
}.

(** A record of the variant source: the attributes that [_load] reads. *)
Record RawRecord := mkRawRecord {
  INFO : dict;
  genotypes : gmap string pyval;   (* gt_bases, gt_types, ... by attribute name *)
  CHROM : pyval; start : pyval; end_ : pyval; REF : pyval; ALT : list string;
  QUAL : pyval; FILTER : pyval; ID : pyval;
  var_type : pyval; var_subtype : pyval; call_rate : pyval;
  num_hom_ref : pyval; num_het : pyval; num_hom_alt : pyval; aaf : pyval
}.

Section Load.
Context `{Printers} `{Primitives} `{Annotations} `{Engine}.
Variable self : settings.

Definition run_blobber (obj : pyval) : result pyval :=
  match blobber self with
  | PackBlob => Ok (VStr (snd (Codec.pack_blob obj)))
  | SnappyPackBlob =>
      try! b := Codec.snappy_pack_blob obj in Ok (VStr (snd b))
  end.

Definition GT_TYPE_LOOKUP (field : string) : result sqltype :=
  if String.eqb field "gt_depths" then Ok Integer
  else if String.eqb field "gt_ref_depths" then Ok Integer
  else if String.eqb field "gt_alt_depths" then Ok Integer
  else if String.eqb field "gt_quals" then Ok Float
  else if String.eqb field "gt_types" then Ok SmallInteger
  else Raise (KeyError field).

Definition create_expanded : M unit :=
  for_each (expand self) (fun field =>
    do _ <- lift (GT_TYPE_LOOKUP field) ;
    emit (EDrop ("sample_" +:+ field)) ;;
    emit (ECreate ("sample_" +:+ field) ∅)).

Definition create_vcf_header_table : M unit :=
  emit (EDrop "vcf_header") ;;
  emit (ECreate "vcf_header" ∅) ;;
  execute "vcf_header"
    [ {[ "vcf_header" := VStr (PyStr.rstrip PyStr.whitespace (raw_header self)) ]} ].

Definition _create_tables : M unit :=
  emit (EDrop "variant_impacts") ;;
  emit (EDrop "variants") ;;
  (match blobber self with
   | SnappyPackBlob =>
       emit (EDrop "features") ;;
       emit (ECreate "features" ∅) ;;
       execute "features" [ {[ "feature" := VStr "snappy_compression" ]} ]
   | PackBlob => ret tt
   end) ;;
  (fun w => emit (ECreate "variants" (widths_of "variants" w)) w) ;;
  (fun w => emit (ECreate "variant_impacts" (widths_of "variant_impacts" w)) w) ;;
  create_vcf_header_table ;;
  create_expanded.

(** [self._create(dicts, cols)] on the columns of one table. *)
Definition create_for (table : string) (dicts : list dict) : M unit :=
  fun w =>
    let cols := map_to_list (Schema.string_cols (columns_of table w)) in
    match Schema._create dicts cols (heap w) (columns_of table w) with
    | (r, (h, cs)) => (set_heap h ;; set_columns table cs ;; lift r) w
    end.

Definition create (dvariants dvariant_impacts : list dict) : M unit :=
  create_for "variants" dvariants ;;
  create_for "variant_impacts" dvariant_impacts ;;
  _create_tables.

Definition check_for (table : string) (dicts : list dict) : M (gmap string Z) :=
  fun w =>
    let cols := map_to_list (Schema.string_cols (columns_of table w)) in
    (Schema.check_column_lengths dicts cols (heap w) (columns_of table w), w).

Fixpoint map_result {A B} (f : A -> result B) (l : list A) : result (list B) :=
  match l with
  | [] => Ok []
  | x :: rest =>
      try! y := f x in
      try! ys := map_result f rest in
      Ok (y :: ys)
  end.

(** [insert]; the timing and the progress line are left out. *)
Definition insert (variants : list dict) (expanded : gmap string (list dict))
    (keys : gset string) (i : Z) (create_ : bool) : M unit :=
  do results <- (fun w =>
    (map_result (fun v => Transform.gene_info v (impacts_headers w) run_blobber
                            Schema.gt_cols keys) variants, w)) ;
  let variants := map fst results in
  let variant_impacts := concat (map snd results) in
  do lengths <-
    (if create_ then create variants variant_impacts ;; ret (∅, ∅)
     else if negb (String.eqb dialect_name "sqlite") then
       do vlengths <- check_for "variants" variants ;
       do vilengths <- check_for "variant_impacts" variant_impacts ;
       ret (vlengths, vilengths)
     else ret (∅, ∅)) ;
  _insert (fst lengths) variants (snd lengths) variant_impacts ;;
  for_each (map_to_list expanded) (fun '(k, rows) =>
    __insert rows ("sample_" +:+ k)).

(** [arr[self.sample_idxs]] *)
Definition reorder (arr : pyval) : result pyval :=
  match arr with
  | VArr c items =>
      try! l := map_result (fun i => match items !! i with
                                     | Some x => Ok x
                                     | None => Raise IndexError
                                     end) (sample_idxs self) in
      Ok (VArr c l)
  | _ => Raise TypeError
  end.

Fixpoint set_gt_cols (v : RawRecord) (cols : list string) (d : dict) : result dict :=
  match cols with
  | [] => Ok d
  | c :: rest =>
      let arr := default VNone
        (genotypes v !! (if String.eqb c "gts" then "gt_bases" else c)) in
      try! arr := (match arr with VNone => Ok VNone | _ => reorder arr end) in
      set_gt_cols v rest (<[c := arr]> d)
  end.

Definition _set_variant_properties (v : RawRecord) (d : dict) : dict :=
  <["aaf" := aaf v]> (<["num_hom_alt" := num_hom_alt v]>
  (<["num_het" := num_het v]> (<["num_hom_ref" := num_hom_ref v]>
  (<["call_rate" := call_rate v]> (<["sub_type" := var_subtype v]>
  (<["type" := var_type v]> d)))))).

(** The dictionary that [_load] builds for the record [v] at position [i]. *)
Definition build_d (v : RawRecord) (i : Z) : result dict :=
  try! d := set_gt_cols v Schema.gt_cols (INFO v) in
  let d := <["end" := end_ v]> (<["start" := start v]> (<["chrom" := CHROM v]> d)) in
  let d := <["alt" := VStr (PyStr.join "," (ALT v))]> (<["ref" := REF v]> d) in
  let d := <["vcf_id" := ID v]> (<["filter" := FILTER v]> (<["qual" := QUAL v]> d)) in
  let d := <["variant_id" := VInt i]> d in
  Ok (_set_variant_properties v d).

(** The row of an expansion table: one column per sample. *)
Fixpoint sample_columns (arr : list pyval) (k : nat) (names : list string) (e : dict)
  : result dict :=
  match names with
  | [] => Ok e
  | s :: rest =>
      match arr !! k with
      | None => Raise IndexError
      | Some x => sample_columns arr (S k) rest (<["sample_" +:+ s := x]> e)
      end
  end.

Fixpoint expand_all (fields : list string) (d : dict) (expanded : gmap string (list dict))
  : result (gmap string (list dict)) :=
  match fields with
  | [] => Ok expanded
  | k :: rest =>
      try! arr := getitem d k in
      try! items := (match arr with VArr _ l => Ok l | _ => Raise AttributeError end) in
      try! e := sample_columns items 0 (samples self) ∅ in
      try! vid := getitem d "variant_id" in
      expand_all rest d
        (<[k := default [] (expanded !! k) ++ [<["variant_id" := vid]> e]]> expanded)
  end.

Fixpoint _load_go (records : list RawRecord) (create_ : bool) (i : Z) (last : option Z)
    (variants : list dict) (expanded : gmap string (list dict)) (keys : gset string)
  : M (option Z) :=
  match records with
  | [] =>
      match variants, last with
      | _ :: _, Some j => insert variants expanded keys j create_ ;; ret last
      | _, _ => ret last
      end
  | v :: rest =>
      do d <- lift (build_d v i) ;
      do expanded <- lift (expand_all (expand self) d expanded) ;
      let keys := keys ∪ dom d in
      let variants := variants ++ [d] in
      if negb create_ && (i mod 10000 =? 0) then
        insert variants expanded keys i create_ ;;
        _load_go rest create_ (i + 1) (Some i) [] ((fun _ => []) <$> expanded) keys
      else
        _load_go rest create_ (i + 1) (Some i) variants expanded keys
  end.

Definition _load (iterable : list RawRecord) (create_ : bool) (start_ : Z)
  : M (option Z) :=
  _load_go iterable create_ start_ None []
    (list_to_map (map (fun k => (k, [])) (expand self))) ∅.

(** [load]: the first 10000 records are replayed with [create=True], the
    rest of the stream follows. *)
Definition load (stream : list RawRecord) : M unit :=
  do i <- _load (take (Z.to_nat 10000) stream) true 1 ;
  match i with
  | None => raise TypeError
  | Some i => _load (drop (Z.to_nat 10000) stream) false (i + 1) ;; ret tt
  end.

(** [create_columns]: the column lists and the registry that [__init__]
    sets up from the parsed [##INFO] lines of the header. *)
Definition create_columns (black_list : list string)
    (infos : list (gmap string string)) : result world :=
  let '(c1, h1) := Schema.declare Schema.variants_default_columns Schema.initial_heap in
  let '(c2, h2) := Schema.declare Schema.variants_calculated_columns h1 in
  let '(c3, h3) := Schema.declare Schema.variants_gene_columns h2 in
  let '(c4, h4) := Schema.declare Schema.variants_sv_columns h3 in
  match Schema.variants_info_columns
          (Registry.effect_list ++ black_list) infos ∅ with
  | (Raise e, _) => Raise e
  | (Ok c5, reg) =>
      let '(c6, h6) := Schema.declare Schema.variants_genotype_columns h4 in
      let '(g, h7) := Schema.declare Schema.variants_gene_columns h6 in
      Ok (mkWorld reg h7 ∅ (c1 ++ c2 ++ c3 ++ c4 ++ c5 ++ c6)
            (mkColumn "variant_id" Integer :: g) [])
  end.

End Load.

End Loader.

Example grouper_ex : Loader.grouper 2 [1; 2; 3; 4; 5] = [[1; 2]; [3; 4]; [5]].
Proof. reflexivity. Qed.

(** * Properties *)

(** ** Strings *)

Section StringFacts.

Lemma chars_rev_app s t :
  PyStr.chars (String.rev_app s t) = rev (PyStr.chars s) ++ PyStr.chars t.
Proof.
  revert t. induction s as [|c s IH]; intros t; simpl; [done|].
  rewrite IH. simpl. by rewrite <- app_assoc.
Qed.

Lemma chars_rev s : PyStr.chars (String.rev s) = rev (PyStr.chars s).
Proof. unfold String.rev. rewrite chars_rev_app. simpl. by rewrite app_nil_r. Qed.

Lemma chars_inj a b : PyStr.chars a = PyStr.chars b -> a = b.
Proof.
  unfold PyStr.chars. intros Hab.
  rewrite <- (string_of_list_ascii_of_string a), <- (string_of_list_ascii_of_string b).
  by rewrite Hab.
Qed.

(** [s.split(c, 1)] when [s] holds no [c], and when it holds one. *)
Lemma split1_go_without c s : forall cur,
  Forall (fun a => a <> c) (PyStr.chars s) ->
  exists x, PyStr.split1_go c cur s = [x]
            /\ PyStr.chars x = rev (PyStr.chars cur) ++ PyStr.chars s.
Proof.
  induction s as [|a s IH]; intros cur Hs; simpl.
  { exists (String.rev cur). split; [done|]. by rewrite chars_rev, app_nil_r. }
  apply Forall_cons in Hs as [Ha Hs].
  destruct (Ascii.eqb_spec a c) as [->|_]; [done|].
  destruct (IH (String a cur) Hs) as (x & -> & Hx). exists x. split; [done|].
  rewrite Hx. simpl. by rewrite <- app_assoc.
Qed.

Lemma split1_without c s :
  Forall (fun a => a <> c) (PyStr.chars s) -> PyStr.split1 c s = [s].
Proof.
  intros Hs. unfold PyStr.split1.
  destruct (split1_go_without c s EmptyString Hs) as (x & -> & Hx).
  f_equal. by apply chars_inj.
Qed.

Lemma split1_go_with c s : forall cur,
  c ∈ PyStr.chars s -> exists pre clause, PyStr.split1_go c cur s = [pre; clause].
Proof.
  induction s as [|a s IH]; intros cur Hs; simpl.
  { by apply elem_of_nil in Hs. }
  destruct (Ascii.eqb_spec a c) as [->|Hne]; [by eexists _, _|].
  apply IH. apply elem_of_cons in Hs as [->|Hs]; done.
Qed.





Lemma lower_char_not_upper c : PyStr.is_upper (PyStr.lower_char c) = false.
Proof. by destruct c as [[] [] [] [] [] [] [] []]. Qed.



End StringFacts.

(** ** Column names inferred from the header *)








(** ** The annotation header registry *)

Lemma in_effect_list id :
  Schema.in_list id Registry.effect_list = true <-> id = "CSQ" \/ id = "ANN" \/ id = "EFF".
Proof.
  unfold Schema.in_list, Registry.effect_list. simpl.
  rewrite orb_false_r, !orb_true_iff, !String.eqb_eq. tauto.
Qed.

(** The sub-field names stored for a supported id. *)
Definition parts_for (id clause : string) : list string :=
  if String.eqb id "ANN" then Registry.ann_parts clause
  else Registry.eff_parts clause.

(** C8 (amended): registering a header entry whose id is not CSQ, ANN or
    EFF raises and leaves the registry as it was.  For one of the three ids
    the outcome depends on the description: when it holds a colon, the call
    succeeds and stores under the id the ordered names parsed from the text
    after the first colon; when it holds none, the call raises [IndexError]
    and leaves the registry as it was. *)
Theorem register_annotation_header hdr_dict reg id :
  hdr_dict !! "ID" = Some id ->
  (Schema.in_list id Registry.effect_list = false ->
     exists e, Registry.update_impacts_headers hdr_dict reg = (Raise e, reg)
       /\ (is_Some (hdr_dict !! "Description") -> e = AnnotationError id))
  /\ (forall desc pre clause,
        Schema.in_list id Registry.effect_list = true ->
        hdr_dict !! "Description" = Some desc ->
        PyStr.split1 ":" desc = [pre; clause] ->
        Registry.update_impacts_headers hdr_dict reg
          = (Ok tt, <[id := parts_for id clause]> reg))
  /\ (forall desc,
        Schema.in_list id Registry.effect_list = true ->
        hdr_dict !! "Description" = Some desc ->
        ":"%char ∈ PyStr.chars desc ->
        exists pre clause,
          PyStr.split1 ":" desc = [pre; clause]
          /\ Registry.update_impacts_headers hdr_dict reg
             = (Ok tt, <[id := parts_for id clause]> reg))
  /\ (forall desc,
        Schema.in_list id Registry.effect_list = true ->
        hdr_dict !! "Description" = Some desc ->
        Forall (fun a : ascii => a <> ":"%char) (PyStr.chars desc) ->
        Registry.update_impacts_headers hdr_dict reg = (Raise IndexError, reg)).
Proof.
  intros Hid.
  assert (Hgood : forall desc pre clause,
            Schema.in_list id Registry.effect_list = true ->
            hdr_dict !! "Description" = Some desc ->
            PyStr.split1 ":" desc = [pre; clause] ->
            Registry.update_impacts_headers hdr_dict reg
              = (Ok tt, <[id := parts_for id clause]> reg)).
  { intros desc pre clause Hin Hdesc Hsplit.
    unfold Registry.update_impacts_headers, Registry.parse_parts, getitem.
    rewrite Hid, Hdesc. simpl.
    unfold Registry.after_colon, parts_for. rewrite Hsplit.
    apply in_effect_list in Hin as [-> | [-> | ->]]; done. }
  split; [|split; [exact Hgood|split]].
  - intros Hno. unfold Registry.update_impacts_headers, Registry.parse_parts, getitem.
    rewrite Hid.
    destruct (hdr_dict !! "Description") as [desc|]; simpl.
    + assert (Hne : id <> "CSQ" /\ id <> "ANN" /\ id <> "EFF").
      { repeat split; intros ->; by vm_compute in Hno. }
      destruct Hne as (H1 & H2 & H3).
      destruct (String.eqb_spec id "ANN"); [done|].
      destruct (String.eqb_spec id "EFF"); [done|].
      destruct (String.eqb_spec id "CSQ"); [done|].
      eexists. split; [done|]. done.
    + eexists. split; [done|]. by intros [? ?].
  - intros desc Hin Hdesc Hcolon.
    destruct (split1_go_with ":" desc EmptyString Hcolon) as (pre & clause & Hsplit).
    exists pre, clause. split; [done|]. by apply (Hgood desc pre clause).
  - intros desc Hin Hdesc Hnone.
    unfold Registry.update_impacts_headers, Registry.parse_parts, getitem.
    rewrite Hid, Hdesc. simpl.
    unfold Registry.after_colon. rewrite (split1_without _ _ Hnone).
    apply in_effect_list in Hin as [-> | [-> | ->]]; done.
Qed.

Lemma register_annotation_header_witness :
  Registry.update_impacts_headers (Registry.hdr "SVANN" "Format: A|B") {[ "CSQ" := ["X"] ]}
    = (Raise (AnnotationError "SVANN"), {[ "CSQ" := ["X"] ]})
  /\ Registry.update_impacts_headers
       (Registry.hdr "ANN" "Functional annotations: 'Allele | Annotation | Gene_Name'")
       {[ "CSQ" := ["X"] ]}
     = (Ok tt, <["ANN" := (["Allele"; "Annotation"; "Gene_Name"])]> {[ "CSQ" := ["X"] ]})
  /\ Registry.update_impacts_headers (Registry.hdr "EFF" "Gene_Name | Effect")
       {[ "CSQ" := ["X"] ]}
     = (Raise IndexError, {[ "CSQ" := ["X"] ]}).
Proof.
  split; [|split].
  - destruct (register_annotation_header (Registry.hdr "SVANN" "Format: A|B")
                {[ "CSQ" := ["X"] ]} "SVANN" eq_refl) as [Hbad _].
    destruct (Hbad eq_refl) as (e & Heq & He).
    rewrite Heq. f_equal. f_equal. apply He. by eexists.
  - destruct (register_annotation_header
                (Registry.hdr "ANN" "Functional annotations: 'Allele | Annotation | Gene_Name'")
                {[ "CSQ" := ["X"] ]} "ANN" eq_refl) as (_ & Hgood & _).
    exact (Hgood _ "Functional annotations" " 'Allele | Annotation | Gene_Name'"
             eq_refl eq_refl eq_refl).
  - destruct (register_annotation_header (Registry.hdr "EFF" "Gene_Name | Effect")
                {[ "CSQ" := ["X"] ]} "EFF" eq_refl) as (_ & _ & _ & Hnone).
    apply (Hnone "Gene_Name | Effect" eq_refl eq_refl).
    repeat (constructor; [discriminate|]). constructor.
Defined.

(** C8, as stated, fails: a [CSQ] entry whose description lists the
    sub-fields between bars without a colon before them is not registered;
    the call raises [IndexError] and the registry stays empty. *)
Lemma colonless_description_not_registered :
  Schema.in_list "CSQ" Registry.effect_list = true
  /\ Registry.update_impacts_headers (Registry.hdr "CSQ" "Allele|Gene|Feature") ∅
     = (Raise IndexError, ∅).
Proof. split; vm_compute; reflexivity. Qed.

(** ** The genotype blob encoders *)

Lemma pack_blob_head `{Primitives} (obj : pyval) :
  obj <> VNone ->
  exists rest, snd (Codec.pack_blob obj) = String "120" (String "001" rest).
Proof.
  intros Hobj. exists (deflate_body 1 (pickle_dumps obj)).
  destruct obj; done.
Qed.

(** C7 (amended): for both encoders [encode(None)] calls no compression or
    serialisation primitive and returns a fixed blob (the value [_none]
    computed when the legacy encoder is defined, the empty string for the
    compact one).  The compact encoder puts the dtype character of a
    non-null array first.  The legacy encoder does not: its blob is the zlib
    stream of the pickled array, and starts with the same two zlib header
    bytes whatever the element kind. *)
Theorem encode_null_and_tag `{Primitives} :
  Codec.pack_blob VNone = ([], Codec._none)
  /\ Codec.snappy_pack_blob VNone = Ok ([], EmptyString)
  /\ (forall c items, c <> "S"%char ->
        exists calls payload,
          Codec.snappy_pack_blob (VArr c items) = Ok (calls, String c payload))
  /\ (forall strs,
        exists calls payload,
          Codec.snappy_pack_blob (VArr "S" (map VStr strs))
            = Ok (calls, String "S" payload))
  /\ (forall c items,
        exists rest,
          snd (Codec.pack_blob (VArr c items)) = String "120" (String "001" rest)).
Proof.
  repeat split.
  - intros c items Hc. unfold Codec.snappy_pack_blob, Codec.snappy_pack_blob_with.
    destruct (Ascii.eqb_spec c "S"); [done|]. by eexists _, _.
  - intros strs. unfold Codec.snappy_pack_blob, Codec.snappy_pack_blob_with. simpl.
    assert (Hs : Codec.str_items (map VStr strs) = Ok strs).
    { induction strs as [|s l IH]; simpl; [done|]. by rewrite IH. }
    rewrite Hs. simpl. by eexists _, _.
  - intros c items. by apply pack_blob_head.
Qed.

(** Stand-ins for the external primitives, for evaluating the encoders on
    concrete arrays; the leading bytes of a blob do not depend on them. *)
Definition plain_primitives : Primitives :=
  {| deflate_body := fun _ data => data;
     pickle_dumps := fun _ => "pickled";
     snappy_compress := fun data => data;
     tobytes := fun _ items => PyStr.join EmptyString (map (fun _ => "0") items) |}.

Lemma encode_null_and_tag_witness :
  (exists calls payload,
     @Codec.snappy_pack_blob plain_primitives (VArr "l" [VInt 1; VInt 2])
       = Ok (calls, String "l" payload))
  /\ (exists calls payload,
        @Codec.snappy_pack_blob plain_primitives (VArr "S" (map VStr ["A/T"; "A/A"]))
          = Ok (calls, String "S" payload)).
Proof.
  destruct (@encode_null_and_tag plain_primitives) as (_ & _ & Hnum & Hstr & _).
  split; [apply Hnum; discriminate | apply Hstr].
Defined.

(** C7, as stated, fails for the legacy encoder: an integer array (dtype
    character [l]) and a float array (dtype character [d]) both give a blob
    whose first byte is the zlib header byte 120 ([x]), not their type
    tag. *)
Lemma legacy_blob_starts_with_zlib_header :
  (exists rest, snd (@Codec.pack_blob plain_primitives (VArr "l" [VInt 1; VInt 2]))
                = String "x" rest)
  /\ (exists rest, snd (@Codec.pack_blob plain_primitives (VArr "d" [VFloat 0.5%float]))
                   = String "x" rest)
  /\ Ascii.eqb "x" "l" = false /\ Ascii.eqb "x" "d" = false.
Proof.
  repeat split; eexists; vm_compute; reflexivity.
Qed.

(** ** Dictionaries *)

(** A decidable proposition about concrete data, settled by evaluation. *)
Ltac by_decide :=
  match goal with
  | |- ?P => apply (@bool_decide_unpack P _); vm_compute; exact I
  end.

(** Membership in a concrete list of strings, decided by evaluation. *)
Ltac not_in_list :=
  let E := fresh "E" in
  match goal with
  | |- ?x ∈ ?l -> False =>
      destruct (decide (x ∈ l)) as [?|?] eqn:E; [by vm_compute in E | done]
  | |- ?x ∉ ?l =>
      destruct (decide (x ∈ l)) as [?|?] eqn:E; [by vm_compute in E | done]
  end.

(** [x ∈ l] for a literal list [l] that holds [x]. *)
Ltac in_list := repeat first [apply list_elem_of_here | apply list_elem_of_further].

Lemma foldl_insert_lookup {V} (f : string -> V) (ks : list string) (d : gmap string V) k :
  foldl (fun d k => <[k := f k]> d) d ks !! k
  = if decide (k ∈ ks) then Some (f k) else d !! k.
Proof.
  revert d. induction ks as [|x ks IH]; intros d; simpl; [done|].
  rewrite IH. destruct (decide (k ∈ ks)) as [Hin|Hnin].
  - rewrite decide_True; [done | by right].
  - destruct (decide (k = x)) as [->|Hne].
    + rewrite decide_True; [|by left]. by rewrite lookup_insert_eq.
    + rewrite decide_False; [by rewrite lookup_insert_ne|].
      intros Hin. apply elem_of_cons in Hin as [?|?]; done.
Qed.

Lemma add_required_lookup (req_cols : gset string) (d : dict) k :
  (forall K, K ∈ req_cols -> PyStr.islower K = false -> PyStr.lower K <> k) ->
  Transform.add_required req_cols d !! k = (d ∪ gset_to_gmap VNone req_cols) !! k.
Proof.
  intros Hk. unfold Transform.add_required.
  assert (Hl : forall K, K ∈ filter (fun k => PyStr.islower k = false) (elements req_cols)
                         -> PyStr.lower K <> k).
  { intros K HK. apply list_elem_of_filter in HK as [Hlow HK].
    apply Hk; [by apply elem_of_elements | done]. }
  revert Hl. generalize (d ∪ gset_to_gmap VNone req_cols).
  induction (filter _ (elements req_cols)) as [|x l IH]; intros u Hl; simpl; [done|].
  rewrite IH.
  - rewrite lookup_insert_ne; [done|]. apply Hl. by left.
  - intros K HK. apply Hl. by right.
Qed.




Lemma blob_all_lookup blobber cols (d d' : dict) k :
  Transform.blob_all blobber cols d = Ok d' -> k ∉ cols -> d' !! k = d !! k.
Proof.
  revert d. induction cols as [|c cols IH]; intros d; simpl.
  { by intros [= ->]. }
  unfold getitem. destruct (d !! c) as [v|]; simpl; [|done].
  destruct (blobber v) as [b|]; simpl; [|done].
  intros Hd Hk. apply not_elem_of_cons in Hk as [Hne Hk].
  rewrite (IH _ Hd Hk). by rewrite lookup_insert_ne.
Qed.


(** ** The representative candidate and the impact rows *)

Section Representative.
Context `{Annotations}.





Lemma gene_info_inv d reg blobber gt_cols req_cols row gimpacts :
  Transform.gene_info d reg blobber gt_cols req_cols = Ok (row, gimpacts) ->
  exists d1 impacts top d2,
    Transform.decode_all ["CSQ"; "ANN"; "EFF"] reg d [] = Ok (d1, impacts)
    /\ Transform.select_top impacts = Ok top
    /\ Transform.blob_all blobber gt_cols (Transform.project top d1) = Ok d2
    /\ row = Transform.add_required req_cols d2
    /\ (impacts = [] /\ gimpacts = []
        \/ exists vid, row !! "variant_id" = Some vid
                       /\ gimpacts = map (Transform.impact_row vid) impacts).
Proof.
  unfold Transform.gene_info.
  destruct (Transform.decode_all _ reg d []) as [[d1 impacts]|] eqn:Hdec; simpl; [|done].
  destruct (Transform.select_top impacts) as [top|] eqn:Htop; simpl; [|done].
  destruct (Transform.blob_all blobber gt_cols (Transform.project top d1)) as [d2|] eqn:Hb;
    simpl; [|done].
  intros Hres. exists d1, impacts, top, d2. repeat split; try done.
  - destruct impacts; [by injection Hres|].
    unfold getitem in Hres.
    destruct (Transform.add_required req_cols d2 !! "variant_id"); simpl in Hres; [|done].
    by injection Hres.
  - destruct impacts as [|e l]; [left; by injection Hres|]. right.
    unfold getitem in Hres.
    destruct (Transform.add_required req_cols d2 !! "variant_id") as [vid|] eqn:Hvid;
      simpl in Hres; [|done].
    exists vid. injection Hres as <- <-. by rewrite Hvid.
Qed.


End Representative.

Section Selection.
Context `{Annotations}.

(** No required column that is not lower case turns into [k] when it is
    lower-cased (such a column would overwrite the value stored under [k]). *)
Definition unshadowed (req_cols : gset string) (k : string) : Prop :=
  forall K, K ∈ req_cols -> PyStr.islower K = false -> PyStr.lower K <> k.









End Selection.

(** A decoder for entries of the form [SEVERITY|gene], for evaluating the
    transform on concrete records. *)
Definition plain_effect (entry : string) (hdr : list string) : Effect :=
  let fields := PyStr.split "|" entry in
  mkEffect (VStr (default EmptyString (fields !! 1%nat)))
    VNone VNone VNone VNone VNone VNone VNone VNone VNone VNone VNone VNone
    (VStr (default EmptyString (fields !! 0%nat)))
    VNone VNone VNone VNone.

Definition plain_annotations : Annotations :=
  {| VEP := plain_effect; SnpEff := plain_effect; OldSnpEff := plain_effect;
     severity := fun e =>
       match effect_severity e with
       | VStr s => if String.eqb s "HIGH" then 3%nat
                   else if String.eqb s "MED" then 2%nat
                   else if String.eqb s "LOW" then 1%nat else 0%nat
       | _ => 0%nat
       end |}.

Definition no_blob (obj : pyval) : result pyval := Ok (VStr EmptyString).

(** A record with three candidates of severities HIGH, MED, HIGH. *)
Definition three_candidates : dict :=
  list_to_map
    ([("CSQ", VStr "HIGH|g1,MED|g2,HIGH|g3"); ("variant_id", VInt 1);
      ("chrom", VStr "chr1")]
     ++ map (fun c => (c, VNone)) Schema.gt_cols).




Example first_high_wins :
  @Transform.select_top plain_annotations
    (map (fun e => plain_effect e []) ["HIGH|g1"; "MED|g2"; "HIGH|g3"])
  = Ok (Transform.Real (plain_effect "HIGH|g1" [])).
Proof. vm_compute. reflexivity. Qed.

(** ** The keys of a transformed row *)

Lemma lower_no_upper s : existsb PyStr.is_upper (PyStr.chars (PyStr.lower s)) = false.
Proof.
  induction s as [|c s IH]; simpl; [done|].
  by rewrite lower_char_not_upper, IH.
Qed.





Section LowerFold.
Variable d : dict.




End LowerFold.


(** The keys that [gene_info] writes for the representative. *)
Definition summary_keys : list string :=
  Transform.keys ++ ["impact"; "impact_so"; "impact_severity"].

Section RowKeys.
Context `{Annotations}.




End RowKeys.


(** Concrete collaborators for evaluating the loader. *)
Definition plain_printers : Printers :=
  {| float_str := fun _ => "0.0"; array_str := fun _ _ => "[]" |}.

Definition accept_all (dialect : string) : Engine :=
  {| dialect_name := dialect;
     accepts := fun _ _ _ => true;
     accepts_row := fun _ _ _ => true |}.

Definition plain_settings : Loader.settings :=
  Loader.mkSettings Loader.PackBlob [] ["s1"] [0%nat] "##fileformat=VCFv4.2".

(** A record with the INFO attributes [info] and no genotype arrays. *)
Definition record_with (info : dict) : Loader.RawRecord :=
  Loader.mkRawRecord info ∅ (VStr "chr1") (VInt 100) (VInt 101) (VStr "A") ["T"]
    VNone VNone VNone (VStr "snp") (VStr "ts") VNone VNone VNone VNone VNone.




(** ** The loader: what a chunk does to the engine *)

(** The world [w] after the events [evs] have been sent. *)
Definition add_log (w : world) (evs : list event) : world :=
  mkWorld (impacts_headers w) (heap w) (unsized w) (variants_columns w)
          (variant_impacts_columns w) (log w ++ evs).

Lemma add_log_nil w : add_log w [] = w.
Proof. destruct w. unfold add_log. simpl. by rewrite app_nil_r. Qed.

Lemma add_log_app w a b : add_log (add_log w a) b = add_log w (a ++ b).
Proof. unfold add_log. simpl. by rewrite app_assoc. Qed.

Lemma emit_add_log ev w : emit ev w = (Ok tt, add_log w [ev]).
Proof. done. Qed.

Lemma widths_of_add_log table w evs : widths_of table (add_log w evs) = widths_of table w.
Proof. unfold widths_of, columns_of. simpl. done. Qed.

Lemma committed_go_rows t ws (l : list dict) p tail :
  committed_go (Some p) (map (fun o => ERow t ws o true) l ++ tail)
  = committed_go (Some (p ++ map (pair t) l)) tail.
Proof.
  revert p. induction l as [|o l IH]; intros p; simpl.
  { by rewrite app_nil_r. }
  rewrite IH. by rewrite <- app_assoc.
Qed.

Section Chunk.
Context `{Engine}.

Lemma for_each_cons {A} (x : A) l (body : A -> M unit) w :
  for_each (x :: l) body w
  = match body x w with
    | (Ok _, w1) => for_each l body w1
    | (Raise e, w1) => (Raise e, w1)
    end.
Proof. done. Qed.

Lemma execute_row_eq table o w :
  Loader.execute_row table o w
  = if accepts_row (log w) table o
    then (Ok tt, add_log w [ERow table (widths_of table w) o true])
    else (Raise (RowError table o), add_log w [ERow table (widths_of table w) o false]).
Proof. unfold Loader.execute_row. by destruct (accepts_row (log w) table o). Qed.

Lemma execute_eq table g w :
  Loader.execute table g w
  = if accepts (log w) table g
    then (Ok tt, add_log w [EExecute table (widths_of table w) g true])
    else (Raise (BulkError table g), add_log w [EExecute table (widths_of table w) g false]).
Proof. unfold Loader.execute. by destruct (accepts (log w) table g). Qed.

(** The loop [for o in g: trans.execute(stmt, o)]: it stops at the first
    row that the engine refuses. *)
Lemma row_loop table (g : list dict) w :
  exists attempted tail r,
    for_each g (Loader.execute_row table) w
      = (r, add_log w (map (fun o => ERow table (widths_of table w) o true) attempted ++ tail))
    /\ ((attempted = g /\ tail = [] /\ r = Ok tt)
        \/ (exists o rest,
              g = attempted ++ o :: rest
              /\ tail = [ERow table (widths_of table w) o false]
              /\ r = Raise (RowError table o))).
Proof.
  revert w. induction g as [|o g IH]; intros w.
  { exists [], [], (Ok tt). simpl. rewrite add_log_nil. split; [done|]. by left. }
  rewrite for_each_cons, execute_row_eq.
  destruct (accepts_row (log w) table o) eqn:Hacc.
  - destruct (IH (add_log w [ERow table (widths_of table w) o true]))
      as (attempted & tail & r & Hw & Hcase).
    rewrite widths_of_add_log in Hw, Hcase.
    exists (o :: attempted), tail, r. split.
    + rewrite Hw, add_log_app. done.
    + destruct Hcase as [(-> & -> & ->)|(o' & rest & -> & -> & ->)].
      * left. done.
      * right. exists o', rest. done.
  - exists [], [ERow table (widths_of table w) o false], (Raise (RowError table o)).
    split; [done|]. right. exists o, g. done.
Qed.

Lemma transaction_eq (body : M unit) w :
  Loader.transaction body w
  = match body (add_log w [EBegin]) with
    | (Ok _, w1) => (Ok tt, add_log w1 [ECommit])
    | (Raise e, w1) => (Raise e, add_log w1 [EAbort])
    end.
Proof.
  unfold Loader.transaction, bind, try_except. rewrite emit_add_log.
  by destruct (body (add_log w [EBegin])) as [[[]|e] w1].
Qed.

Lemma bulk_or_rows_unfold (rollback_first : bool) table (g : list dict) w :
  Loader.bulk_or_rows rollback_first table g w
  = if accepts (log w) table g then
      (Ok tt, add_log w [EExecute table (widths_of table w) g true])
    else if rollback_first then
      (Raise AttributeError, add_log w [EExecute table (widths_of table w) g false])
    else
      match for_each g (Loader.execute_row table)
              (add_log w [EExecute table (widths_of table w) g false; EBegin])
      with
      | (Ok _, w1) => (Raise (BulkError table g), add_log w1 [ECommit])
      | (Raise e, w1) => (Raise e, add_log w1 [EAbort])
      end.
Proof.
  unfold Loader.bulk_or_rows, try_except. rewrite execute_eq.
  destruct (accepts (log w) table g); [done|].
  destruct rollback_first; [done|].
  unfold bind at 1. unfold ret at 1. unfold bind. rewrite transaction_eq, !add_log_app.
  by destruct (for_each g (Loader.execute_row table) _) as [[[]|e] w1].
Qed.

(** The outcome of the block for one chunk, as an equation. *)
Lemma bulk_or_rows_eq (rollback_first : bool) table (g : list dict) w :
  exists r evs,
    Loader.bulk_or_rows rollback_first table g w = (r, add_log w evs)
    /\ if accepts (log w) table g then
         r = Ok tt /\ evs = [EExecute table (widths_of table w) g true]
       else if rollback_first then
         r = Raise AttributeError /\ evs = [EExecute table (widths_of table w) g false]
       else
         exists attempted tail,
           evs = EExecute table (widths_of table w) g false
                 :: EBegin
                 :: map (fun o => ERow table (widths_of table w) o true) attempted
                 ++ tail
           /\ ((attempted = g /\ tail = [ECommit]
                /\ r = Raise (BulkError table g)
                /\ committed evs = map (pair table) g)
               \/ (exists o rest,
                     g = attempted ++ o :: rest
                     /\ tail = [ERow table (widths_of table w) o false; EAbort]
                     /\ r = Raise (RowError table o)
                     /\ committed evs = [])).
Proof.
  rewrite bulk_or_rows_unfold.
  destruct (accepts (log w) table g) eqn:Hacc.
  { by eexists _, _. }
  destruct rollback_first.
  { by eexists _, _. }
  set (w2 := add_log w _).
  destruct (row_loop table g w2) as (attempted & tail & r & Hw & Hcase).
  assert (Hws : widths_of table w2 = widths_of table w) by done.
  rewrite Hws in Hw, Hcase. rewrite Hw. unfold w2. rewrite !add_log_app.
  destruct Hcase as [(-> & -> & ->)|(o & rest & -> & -> & ->)].
  - eexists _, _. split; [done|]. exists g, [ECommit]. split.
    { simpl. by rewrite app_nil_r. }
    left. repeat split.
    unfold committed. simpl. rewrite <- !app_assoc, committed_go_rows. simpl.
    by rewrite app_nil_r.
  - eexists _, _. split; [done|].
    exists attempted, [ERow table (widths_of table w) o false; EAbort].
    split; [simpl; by rewrite <- ?app_assoc|]. right. exists o, rest.
    repeat split.
    unfold committed. simpl. rewrite <- ?app_assoc, committed_go_rows. simpl. done.
Qed.

(** The loop over the groups of more than 6000 rows: the groups are sent
    one after the other until the engine refuses one. *)
Lemma groups_eq table (gs : list (list dict)) w :
  exists sent last r,
    for_each gs (Loader.bulk_or_rows true table) w
      = (r, add_log w (map (fun g => EExecute table (widths_of table w) g true) sent ++ last))
    /\ ((gs = sent /\ last = [] /\ r = Ok tt)
        \/ (exists g rest,
              gs = sent ++ g :: rest
              /\ last = [EExecute table (widths_of table w) g false]
              /\ r = Raise AttributeError)).
Proof.
  revert w. induction gs as [|g gs IH]; intros w.
  { exists [], [], (Ok tt). simpl. rewrite add_log_nil. split; [done|]. by left. }
  rewrite for_each_cons, bulk_or_rows_unfold.
  destruct (accepts (log w) table g) eqn:Hacc.
  - destruct (IH (add_log w [EExecute table (widths_of table w) g true]))
      as (sent & last & r & Hw & Hcase).
    rewrite widths_of_add_log in Hw, Hcase.
    exists (g :: sent), last, r. split.
    + rewrite Hw, add_log_app. done.
    + destruct Hcase as [(-> & -> & ->)|(g' & rest & -> & -> & ->)].
      * by left.
      * right. by exists g', rest.
  - exists [], [EExecute table (widths_of table w) g false], (Raise AttributeError).
    split; [done|]. right. by exists g, gs.
Qed.

Lemma committed_sent table ws (sent : list (list dict)) (last : list event) :
  last = [] \/ (exists g, last = [EExecute table ws g false]) ->
  committed (map (fun g => EExecute table ws g true) sent ++ last)
  = map (pair table) (concat sent).
Proof.
  intros Hlast. unfold committed. induction sent as [|g sent IH]; simpl.
  - by destruct Hlast as [->|[g ->]].
  - rewrite IH. by rewrite fmap_app.
Qed.

(** C2 (amended): what [__insert] does with a bulk insert that the engine
    refuses.  With at most 6000 rows the rows are sent as one chunk; if the
    engine accepts it, it is sent once and nothing is retried; if not, the
    rows of the chunk are executed one at a time inside one transaction.
    If the engine takes every row, the transaction commits the whole chunk
    and the original failure is raised again.  If it refuses a row, the
    loop stops there: the rows after it are not attempted, the transaction
    is rolled back so that no row of the chunk is committed, and the
    exception raised is that of the refused row.  With more than 6000 rows
    the groups of 5000 are sent one after the other; the first group that
    the engine refuses is not retried at all: the call ends with
    [AttributeError], the groups before it stay committed and neither the
    refused group nor a later one is written. *)
Theorem bulk_failure_retries_rows (objs : list dict) table w :
  let ws := widths_of table w in
  if 6000 <? Z.of_nat (length objs) then
    exists sent last,
      snd (Loader.__insert objs table w)
        = add_log w (map (fun g => EExecute table ws g true) sent ++ last)
      /\ committed (map (fun g => EExecute table ws g true) sent ++ last)
         = map (pair table) (concat sent)
      /\ ((Loader.grouper (Z.to_nat 5000) objs = sent /\ last = []
           /\ fst (Loader.__insert objs table w) = Ok tt)
          \/ (exists g rest,
                Loader.grouper (Z.to_nat 5000) objs = sent ++ g :: rest
                /\ last = [EExecute table ws g false]
                /\ fst (Loader.__insert objs table w) = Raise AttributeError))
  else
    exists evs,
      snd (Loader.__insert objs table w) = add_log w evs
      /\ if accepts (log w) table objs then
           fst (Loader.__insert objs table w) = Ok tt
           /\ evs = [EExecute table ws objs true]
         else
           exists attempted tail,
             evs = EExecute table ws objs false
                   :: EBegin
                   :: map (fun o => ERow table ws o true) attempted
                   ++ tail
             /\ ((attempted = objs /\ tail = [ECommit]
                  /\ fst (Loader.__insert objs table w) = Raise (BulkError table objs)
                  /\ committed evs = map (pair table) objs)
                 \/ (exists o rest,
                       objs = attempted ++ o :: rest
                       /\ tail = [ERow table ws o false; EAbort]
                       /\ fst (Loader.__insert objs table w) = Raise (RowError table o)
                       /\ committed evs = [])).
Proof.
  cbv zeta. unfold Loader.__insert.
  destruct (6000 <? Z.of_nat (length objs)).
  - destruct (groups_eq table (Loader.grouper (Z.to_nat 5000) objs) w)
      as (sent & last & r & Heq & Hcase).
    rewrite Heq. simpl. exists sent, last. split; [done|]. split.
    + apply committed_sent.
      destruct Hcase as [(_ & -> & _)|(g & rest & _ & -> & _)]; [by left|right; by exists g].
    + destruct Hcase as [(-> & -> & ->)|(g & rest & -> & -> & ->)]; [by left|].
      right. by exists g, rest.
  - destruct (bulk_or_rows_eq false table objs w) as (r & evs & Heq & Hcase).
    rewrite Heq. simpl. by exists evs.
Qed.

End Chunk.

(** An engine that refuses a row whose [start] is not an integer, and a
    bulk insert that contains such a row. *)
Definition well_typed (r : dict) : bool :=
  match r !! "start" with Some (VInt _) => true | _ => false end.

Definition typed_engine : Engine :=
  {| dialect_name := "sqlite";
     accepts := fun _ _ rows => forallb well_typed rows;
     accepts_row := fun _ _ r => well_typed r |}.

Definition empty_world : world := mkWorld ∅ ∅ ∅ [] [] [].

Definition row_at (i : Z) (start_ : pyval) : dict :=
  {[ "variant_id" := VInt i; "start" := start_ ]}.

(** The rows that were executed one at a time. *)
Definition rows_attempted (evs : list event) : list dict :=
  omap (fun ev => match ev with ERow _ _ o _ => Some o | _ => None end) evs.

(** C2, as stated, fails: for a chunk of three rows whose second row is
    ill-typed, the retry stops at that row; the first row, valid on its
    own, is not committed, the third is never attempted, and the exception
    that reaches the caller is the one of the second row, not the failure
    of the bulk insert. *)
Lemma valid_rows_of_failed_chunk_not_committed :
  fst (@Loader.__insert typed_engine
         [row_at 1 (VInt 10); row_at 2 (VStr "ten"); row_at 3 (VInt 30)]
         "variants" empty_world)
    = Raise (RowError "variants" (row_at 2 (VStr "ten")))
  /\ committed (log (snd (@Loader.__insert typed_engine
         [row_at 1 (VInt 10); row_at 2 (VStr "ten"); row_at 3 (VInt 30)]
         "variants" empty_world))) = []
  /\ rows_attempted (log (snd (@Loader.__insert typed_engine
         [row_at 1 (VInt 10); row_at 2 (VStr "ten"); row_at 3 (VInt 30)]
         "variants" empty_world)))
     = [row_at 1 (VInt 10); row_at 2 (VStr "ten")].
Proof. repeat split; vm_compute; reflexivity. Qed.

(** ** Column widths *)

(** Every length of the heap is at least what it was. *)
Definition heap_le (h h' : gmap nat Z) : Prop := forall r, h !!! r <= h' !!! r.

Lemma heap_le_refl h : heap_le h h.
Proof. intros r. lia. Qed.

Lemma heap_le_trans h1 h2 h3 : heap_le h1 h2 -> heap_le h2 h3 -> heap_le h1 h3.
Proof. intros H12 H23 r. specialize (H12 r). specialize (H23 r). lia. Qed.

Lemma heap_le_insert (h : gmap nat Z) r n : h !!! r <= n -> heap_le h (<[r := n]> h).
Proof.
  intros Hn l. destruct (decide (r = l)) as [->|Hne].
  - by rewrite lookup_total_insert_eq.
  - rewrite lookup_total_insert_ne by done. lia.
Qed.

(** A column keeps its name, and its type unless it becomes [TEXT]. *)
Definition col_evolves (c c' : Column) : Prop :=
  name c' = name c /\ (type c' = type c \/ type c' = TEXT).

Definition cols_evolve (cs cs' : list Column) : Prop := Forall2 col_evolves cs cs'.

Lemma cols_evolve_refl cs : cols_evolve cs cs.
Proof. apply Forall_Forall2_diag, Forall_forall. intros c _. split; [done | by left]. Qed.

Lemma cols_evolve_trans cs1 cs2 cs3 :
  cols_evolve cs1 cs2 -> cols_evolve cs2 cs3 -> cols_evolve cs1 cs3.
Proof.
  unfold cols_evolve.
  intros H12. revert cs3. induction H12 as [|c1 c2 l1 l2 Hc H12 IH]; intros cs3 H23.
  { inversion H23. constructor. }
  inversion H23 as [|? c3 ? l3 Hc' H23']; subst. constructor; [|by apply IH].
  destruct Hc as [Hn [Ht|Ht]], Hc' as [Hn' [Ht'|Ht']]; split; try congruence.
  - left. congruence.
  - right. done.
  - right. congruence.
  - right. done.
Qed.

Lemma cols_evolve_to_text cs i :
  cols_evolve cs (alter (fun c => mkColumn (name c) TEXT) i cs).
Proof.
  unfold cols_evolve.
  revert i. induction cs as [|c cs IH]; intros i; [constructor|].
  destruct i as [|i]; simpl.
  - constructor; [split; [done | by right] | apply cols_evolve_refl].
  - constructor; [split; [done | by left] | apply IH].
Qed.

Lemma cols_evolve_lookup cs cs' i c' :
  cols_evolve cs cs' -> cs' !! i = Some c' ->
  exists c, cs !! i = Some c /\ col_evolves c c'.
Proof.
  intros Hev Hi. destruct (Forall2_lookup_r _ _ _ _ _ Hev Hi) as (c & Hc & Hcc').
  by exists c.
Qed.

(** A value that [len] accepts although it is not a string. *)
Definition is_array (v : pyval) : bool :=
  match v with VArr _ _ => true | _ => false end.

(** The rows hold no array under the name [nm]. *)
Definition plain_at (nm : string) (dicts : list dict) : Prop :=
  Forall (fun d : dict => forall v, d !! nm = Some v -> is_array v = false) dicts.

Definition no_arrays (dicts : list dict) : Prop :=
  Forall (fun d : dict => forall k v, d !! k = Some v -> is_array v = false) dicts.

Lemma no_arrays_plain_at nm dicts : no_arrays dicts -> plain_at nm dicts.
Proof. intros Hno. eapply Forall_impl; [exact Hno|]. intros d Hd v. apply Hd. Qed.

Lemma grow_ge n : 0 <= n -> n <= Schema.grow n.
Proof. intros Hn. unfold Schema.grow. apply Z.div_le_lower_bound; lia. Qed.

Lemma len_nonneg s : 0 <= PyStr.len s.
Proof. unfold PyStr.len. lia. Qed.

Section ScanFacts.
Context `{Printers}.

(** [len(str(d.get(name, '')))] *)
Definition shown_length (nm : string) (d : dict) : Z :=
  PyStr.len (py_str (default (VStr EmptyString) (d !! nm))).

Lemma scan_row_spec nm r (d : dict) heap b heap' :
  (forall v, d !! nm = Some v -> is_array v = false) ->
  Schema.scan_row nm r d heap = (Ok b, heap') ->
  b = (48 <? heap' !!! r)
  /\ shown_length nm d <= heap' !!! r
  /\ (heap' = heap
      \/ exists s, d !! nm = Some (VStr s) /\ heap !!! r < PyStr.len s
                   /\ heap' = <[r := Schema.grow (PyStr.len s)]> heap).
Proof.
  intros Hplain. unfold Schema.scan_row. fold (shown_length nm d).
  destruct (heap !!! r <? shown_length nm d) eqn:Hlt.
  - unfold getitem. destruct (d !! nm) as [v|] eqn:Hv; simpl; [|done].
    specialize (Hplain v eq_refl).
    destruct v as [| | | |s|]; simpl; try done.
    intros [= <- <-]. rewrite lookup_total_insert_eq.
    apply Z.ltb_lt in Hlt. unfold shown_length in *. rewrite Hv in *. simpl in *.
    split; [done|]. split.
    + apply grow_ge, len_nonneg.
    + right. by exists s.
  - intros [= <- <-]. apply Z.ltb_ge in Hlt. split; [done|]. split; [done | by left].
Qed.

Lemma scan_row_le nm r (d : dict) heap b heap' :
  (forall v, d !! nm = Some v -> is_array v = false) ->
  Schema.scan_row nm r d heap = (Ok b, heap') -> heap_le heap heap'.
Proof.
  intros Hplain Hs.
  destruct (scan_row_spec _ _ _ _ _ _ Hplain Hs) as (_ & _ & [->|(s & _ & Hlt & ->)]).
  - apply heap_le_refl.
  - apply heap_le_insert. pose proof (grow_ge _ (len_nonneg s)). lia.
Qed.

Lemma scan_row_raise nm r (d : dict) heap e heap' :
  Schema.scan_row nm r d heap = (Raise e, heap') -> heap' = heap.
Proof.
  unfold Schema.scan_row.
  destruct (if heap !!! r <? _ then _ else _); [done|]. by intros [= _ <-].
Qed.

(** The scan of one column over the prefix, when it ends normally: the
    length never shrinks; a column that stays a [String] is at least as
    long as every value shown to it and, if any row was scanned, at most
    48; the scan asks for [TEXT] exactly when the length has passed 48. *)
Lemma scan_col_spec nm r (dicts : list dict) heap b heap' :
  plain_at nm dicts ->
  Schema.scan_col nm r dicts heap = (Ok b, heap') ->
  heap_le heap heap'
  /\ (b = true -> 48 < heap' !!! r)
  /\ (b = false ->
        Forall (fun d => shown_length nm d <= heap' !!! r) dicts
        /\ (dicts <> [] -> heap' !!! r <= 48)).
Proof.
  revert heap. induction dicts as [|d rest IH]; intros heap Hplain; simpl.
  { intros [= <- <-]. split; [apply heap_le_refl|]. split; [done|]. by intros _. }
  apply Forall_cons in Hplain as [Hd Hrest].
  destruct (Schema.scan_row nm r d heap) as [[[|]|e] heap1] eqn:Hrow; [| |done].
  - intros [= <- <-].
    destruct (scan_row_spec _ _ _ _ _ _ Hd Hrow) as (Hb & _ & _).
    split; [by eapply scan_row_le|]. split; [|done].
    intros _. symmetry in Hb. by apply Z.ltb_lt in Hb.
  - intros Hscan. destruct (IH _ Hrest Hscan) as (Hle & Htrue & Hfalse).
    destruct (scan_row_spec _ _ _ _ _ _ Hd Hrow) as (Hb & Hfit & _).
    split; [eapply heap_le_trans; [by eapply scan_row_le | done]|].
    split; [done|]. intros ->. destruct (Hfalse eq_refl) as [Hall Hcap].
    split.
    + constructor; [|done]. specialize (Hle r). lia.
    + intros _. destruct rest as [|d2 rest'].
      * simpl in Hscan. injection Hscan as <-.
        symmetry in Hb. apply Z.ltb_ge in Hb. done.
      * by apply Hcap.
Qed.

Lemma scan_col_le nm r (dicts : list dict) heap res heap' :
  plain_at nm dicts ->
  Schema.scan_col nm r dicts heap = (res, heap') -> heap_le heap heap'.
Proof.
  revert heap. induction dicts as [|d rest IH]; intros heap Hplain; simpl.
  { intros [= <- <-]. apply heap_le_refl. }
  apply Forall_cons in Hplain as [Hd Hrest].
  destruct (Schema.scan_row nm r d heap) as [[[|]|e] heap1] eqn:Hrow.
  - intros [= <- <-]. by eapply scan_row_le.
  - intros Hscan. eapply heap_le_trans; [by eapply scan_row_le | by eapply IH].
  - intros [= <- <-]. apply scan_row_raise in Hrow as ->. apply heap_le_refl.
Qed.

End ScanFacts.

Section CreateFacts.
Context `{Printers}.

Lemma create_go_mono dicts cols excl heap columns res heap' columns' :
  no_arrays dicts ->
  Schema._create_go dicts cols excl heap columns = (res, (heap', columns')) ->
  heap_le heap heap' /\ cols_evolve columns columns'.
Proof.
  intros Hno. revert excl heap columns.
  induction cols as [|[nm i] rest IH]; intros excl heap columns; simpl.
  { intros [= <- <- <-]. split; [apply heap_le_refl | apply cols_evolve_refl]. }
  destruct (decide (nm ∈ excl)); [apply IH|].
  destruct (columns !! i ≫= string_ref) as [r|].
  2: { intros [= <- <- <-]. split; [apply heap_le_refl | apply cols_evolve_refl]. }
  destruct (Schema.scan_col nm r dicts heap) as [[[|]|e] heap1] eqn:Hscan.
  - intros Hgo. destruct (IH _ _ _ Hgo) as [Hle Hev]. split.
    + eapply heap_le_trans; [|done].
      eapply scan_col_le; [by apply no_arrays_plain_at | done].
    + eapply cols_evolve_trans; [apply cols_evolve_to_text | done].
  - intros Hgo. destruct (IH _ _ _ Hgo) as [Hle Hev]. split; [|done].
    eapply heap_le_trans; [|done].
    eapply scan_col_le; [by apply no_arrays_plain_at | done].
  - intros [= <- <- <-]. split; [|apply cols_evolve_refl].
    eapply scan_col_le; [by apply no_arrays_plain_at | done].
Qed.

Lemma create_go_fits dicts cols excl heap columns heap' columns' nm i :
  no_arrays dicts -> NoDup cols.*1 -> (nm, i) ∈ cols -> nm ∉ excl ->
  Schema._create_go dicts cols excl heap columns = (Ok tt, (heap', columns')) ->
  forall c' r, columns' !! i = Some c' -> string_ref c' = Some r ->
    Forall (fun d => shown_length nm d <= heap' !!! r) dicts.
Proof.
  intros Hno. revert excl heap columns.
  induction cols as [|[nm0 i0] rest IH]; intros excl heap columns Hnd Hin Hex; simpl.
  { by apply elem_of_nil in Hin. }
  rewrite fmap_cons in Hnd. apply NoDup_cons in Hnd as [Hfresh Hnd]. simpl in Hfresh.
  apply elem_of_cons in Hin as [[= <- <-]|Hin].
  - (* the column just scanned *)
    rewrite decide_False by done.
    destruct (columns !! i ≫= string_ref) as [r0|] eqn:Hr0; [|done].
    apply bind_Some in Hr0 as (c & Hc & Hcr).
    destruct (Schema.scan_col nm r0 dicts heap) as [[[|]|e] heap1] eqn:Hscan; [| |done].
    + intros Hgo c' r Hc' Hr'.
      destruct (create_go_mono _ _ _ _ _ _ _ _ Hno Hgo) as [_ Hev].
      destruct (cols_evolve_lookup _ _ _ _ Hev Hc') as (c1 & Hc1 & _ & Ht).
      rewrite list_lookup_alter, Hc, decide_True in Hc1 by done.
      injection Hc1 as <-. simpl in Ht.
      unfold string_ref in Hr'. destruct Ht as [Ht|Ht]; rewrite Ht in Hr'; done.
    + intros Hgo c' r Hc' Hr'.
      destruct (create_go_mono _ _ _ _ _ _ _ _ Hno Hgo) as [Hle Hev].
      destruct (cols_evolve_lookup _ _ _ _ Hev Hc') as (c1 & Hc1 & _ & Ht).
      rewrite Hc in Hc1. injection Hc1 as <-.
      assert (r = r0) as ->.
      { unfold string_ref in Hr', Hcr. destruct Ht as [Ht|Ht]; rewrite Ht in Hr';
          [congruence | done]. }
      destruct (scan_col_spec nm r0 dicts heap false heap1) as (_ & _ & Hfits);
        [by apply no_arrays_plain_at | done |].
      destruct (Hfits eq_refl) as [Hall _].
      eapply Forall_impl; [exact Hall|]. intros d Hd. specialize (Hle r0). simpl in *. lia.
  - assert (Hne : nm <> nm0).
    { intros ->. apply Hfresh. apply list_elem_of_fmap. by exists (nm0, i). }
    destruct (decide (nm0 ∈ excl)); [by apply IH|].
    destruct (columns !! i0 ≫= string_ref) as [r0|]; [|done].
    destruct (Schema.scan_col nm0 r0 dicts heap) as [[[|]|e] heap1]; [| |done].
    + apply IH; [done | done|].
      intros [Hx%elem_of_singleton|Hx]%elem_of_union; done.
    + by apply IH.
Qed.

End CreateFacts.

(** ** Names, positions and the [String] columns of a table *)

Lemma table_index_ge k cs nm i :
  table_index_from k cs !! nm = Some i -> (k <= i)%nat.
Proof.
  revert k. induction cs as [|c rest IH]; intros k; simpl; [done|].
  destruct (table_index_from (S k) rest !! name c) eqn:Hc.
  - intros Hi. apply IH in Hi. lia.
  - destruct (decide (name c = nm)) as [->|Hne].
    + rewrite lookup_insert_eq. intros [= ->]. lia.
    + rewrite lookup_insert_ne by done. intros Hi. apply IH in Hi. lia.
Qed.

Lemma string_cols_in_table k cs nm i :
  Schema.string_cols_from k cs !! nm = Some i ->
  is_Some (table_index_from k cs !! nm).
Proof.
  revert k i. induction cs as [|c rest IH]; intros k i; simpl; [done|].
  assert (Hpre : forall j, Schema.string_cols_from (S k) rest !! nm = Some j ->
            is_Some (match table_index_from (S k) rest !! name c with
                     | Some _ => table_index_from (S k) rest
                     | None => <[name c := k]> (table_index_from (S k) rest)
                     end !! nm)).
  { intros j Hj. destruct (IH _ _ Hj) as [x Hx].
    destruct (table_index_from (S k) rest !! name c); [by eexists|].
    destruct (decide (name c = nm)) as [->|Hne].
    - rewrite lookup_insert_eq. by eexists.
    - rewrite lookup_insert_ne by done. by eexists. }
  destruct (string_ref c); [|by apply Hpre].
  destruct (Schema.string_cols_from (S k) rest !! name c) eqn:Hc; [by apply Hpre|].
  destruct (decide (name c = nm)) as [->|Hne].
  - intros _. destruct (table_index_from (S k) rest !! nm) as [x|] eqn:Hx.
    + rewrite Hx. by eexists.
    + rewrite lookup_insert_eq. by eexists.
  - rewrite lookup_insert_ne by done. apply Hpre.
Qed.

(** The column that the table holds under a name: if it is a [String], it
    is also the one that the dictionary of [String] columns holds. *)
Lemma string_cols_of_table_index k cs nm i c r :
  table_index_from k cs !! nm = Some i ->
  cs !! (i - k)%nat = Some c -> string_ref c = Some r ->
  Schema.string_cols_from k cs !! nm = Some i.
Proof.
  revert k. induction cs as [|c0 rest IH]; intros k; simpl; [done|].
  set (m := table_index_from (S k) rest).
  set (m' := Schema.string_cols_from (S k) rest).
  assert (Htail : m !! nm = Some i -> (c0 :: rest) !! (i - k)%nat = Some c ->
                  string_ref c = Some r -> m' !! nm = Some i).
  { intros Hi Hc Hr. pose proof (table_index_ge _ _ _ _ Hi) as Hge.
    apply (IH (S k)); [done | | done].
    replace (i - k)%nat with (S (i - S k)) in Hc by lia. done. }
  destruct (m !! name c0) as [j0|] eqn:Hc0.
  - intros Hi Hc Hr. specialize (Htail Hi Hc Hr).
    destruct (string_ref c0); [|done].
    destruct (m' !! name c0) eqn:Hm'; [done|].
    rewrite lookup_insert_ne; [done|]. intros Heq. rewrite Heq in Hm'. congruence.
  - destruct (decide (name c0 = nm)) as [Heq|Hne].
    + rewrite Heq, lookup_insert_eq. intros [= <-]. rewrite Nat.sub_diag. simpl.
      intros [= <-] Hr. rewrite Hr.
      destruct (m' !! nm) as [j|] eqn:Hm'.
      { apply string_cols_in_table in Hm' as [x Hx]. fold m in Hx.
        rewrite <- Heq in Hx. congruence. }
      by rewrite lookup_insert_eq.
    + rewrite lookup_insert_ne by done. intros Hi Hc Hr.
      specialize (Htail Hi Hc Hr).
      destruct (string_ref c0); [|done].
      destruct (m' !! name c0); [done|]. by rewrite lookup_insert_ne.
Qed.

Lemma table_index_evolve k cs cs' :
  cols_evolve cs cs' -> table_index_from k cs' = table_index_from k cs.
Proof.
  unfold cols_evolve. intros Hev. revert k.
  induction Hev as [|c c' l l' [Hn _] Hev IH]; intros k; simpl; [done|].
  by rewrite IH, Hn.
Qed.

(** What a [String] length of a table snapshot stands for. *)
Lemma widths_lookup h columns nm wd :
  widths h columns !! nm = Some wd ->
  exists i c r, table_index columns !! nm = Some i /\ columns !! i = Some c
                /\ string_ref c = Some r /\ wd = h !!! r.
Proof.
  unfold widths. rewrite lookup_omap.
  destruct (table_index columns !! nm) as [i|] eqn:Hi; simpl; [|done].
  destruct (columns !! i) as [c|] eqn:Hc; simpl; [|done].
  destruct (string_ref c) as [r|] eqn:Hr; simpl; [|done].
  intros [= <-]. by exists i, c, r.
Qed.

(** ** Widening at a flush *)

Section CheckFacts.
Context `{Printers}.

Lemma longest_over_spec nm l (dicts : list dict) acc o :
  Schema.longest_over nm l dicts acc = Ok o ->
  (forall m, acc = Some m -> exists m', o = Some m' /\ m <= m')
  /\ Forall (fun d : dict => forall s, d !! nm = Some (VStr s) ->
               PyStr.len s <= l \/ exists m, o = Some m /\ PyStr.len s <= m) dicts.
Proof.
  revert acc. induction dicts as [|d rest IH]; intros acc; simpl.
  { intros [= <-]. split; [|done]. intros m ->. exists m. split; [done | lia]. }
  destruct (truthy (default VNone (d !! nm))) as [t|] eqn:Ht; simpl; [|done].
  destruct (py_len (if t then default VNone (d !! nm) else VStr EmptyString))
    as [n|] eqn:Hn; simpl; [|done].
  destruct (l <? n) eqn:Hln.
  - destruct (py_len (default VNone (d !! nm))) as [m0|] eqn:Hm0; simpl; [|done].
    intros Hrest. destruct (IH _ Hrest) as [Hacc Hall].
    destruct (Hacc _ eq_refl) as (m' & -> & Hm'). split.
    + intros m ->. exists m'. split; [done|]. simpl in Hm'. lia.
    + constructor; [|done]. intros s Hs. right. exists m'. split; [done|].
      rewrite Hs in Hm0. simpl in Hm0. injection Hm0 as <-. lia.
  - intros Hrest. destruct (IH _ Hrest) as [Hacc Hall]. split; [done|].
    constructor; [|done]. intros s Hs. left. apply Z.ltb_ge in Hln.
    rewrite Hs in Ht, Hn. simpl in Ht. injection Ht as <-.
    destruct (String.eqb_spec s EmptyString) as [->|Hne]; simpl in Hn.
    + injection Hn as <-. done.
    + injection Hn as <-. done.
Qed.

Lemma check_go_spec (dicts : list dict) cols heap columns ch0 ch :
  Schema.check_column_lengths_go dicts cols heap columns ch0 = Ok ch ->
  (forall nm m, ch0 !! nm = Some m -> exists m', ch !! nm = Some m' /\ m <= m')
  /\ (forall nm i r, (nm, i) ∈ cols -> columns !! i ≫= string_ref = Some r ->
        Forall (fun d : dict => forall s, d !! nm = Some (VStr s) ->
                  PyStr.len s <= heap !!! r
                  \/ exists m, ch !! nm = Some m /\ PyStr.len s <= m) dicts).
Proof.
  revert ch0. induction cols as [|[nm0 i0] rest IH]; intros ch0; simpl.
  { intros [= <-]. split.
    - intros nm m Hm. exists m. split; [done | lia].
    - intros nm i r Hin. by apply elem_of_nil in Hin. }
  destruct (columns !! i0 ≫= string_ref) as [r0|] eqn:Hr0; [|done].
  destruct (Schema.longest_over nm0 (heap !!! r0) dicts (ch0 !! nm0)) as [o|] eqn:Hlo;
    simpl; [|done].
  intros Hgo. destruct (IH _ Hgo) as [Hkeep Hfit].
  destruct (longest_over_spec _ _ _ _ _ Hlo) as [Hacc Hall].
  assert (Hmid : forall nm m, ch0 !! nm = Some m ->
            exists m', from_option (fun n => <[nm0 := n]> ch0) ch0 o !! nm = Some m' /\ m <= m').
  { intros nm m Hm. destruct o as [n|]; simpl; [|exists m; split; [done | lia]].
    destruct (decide (nm0 = nm)) as [->|Hne].
    - rewrite lookup_insert_eq. destruct (Hacc _ Hm) as (m' & [= ->] & Hle). by exists m'.
    - rewrite lookup_insert_ne by done. exists m. split; [done | lia]. }
  split.
  - intros nm m Hm. destruct (Hmid _ _ Hm) as (m1 & Hm1 & Hle1).
    destruct (Hkeep _ _ Hm1) as (m2 & Hm2 & Hle2). exists m2. split; [done | lia].
  - intros nm i r Hin Hr. apply elem_of_cons in Hin as [[= -> ->]|Hin]; [|by eapply Hfit].
    rewrite Hr0 in Hr. injection Hr as <-.
    eapply Forall_impl; [exact Hall|]. intros d Hd s Hs.
    destruct (Hd s Hs) as [?|(m & -> & Hm)]; [by left|]. right.
    destruct (Hkeep nm0 m) as (m2 & Hm2 & Hle2).
    { simpl. by rewrite lookup_insert_eq. }
    exists m2. split; [done | lia].
Qed.

End CheckFacts.

(** A step of the loader that leaves the column lists and the registry
    alone, lets no length shrink, and sends nothing but [ALTER TABLE]. *)
Definition is_alter (ev : event) : Prop :=
  match ev with EAlter _ _ _ => True | _ => False end.

Definition only_alters (w w' : world) : Prop :=
  variants_columns w' = variants_columns w
  /\ variant_impacts_columns w' = variant_impacts_columns w
  /\ impacts_headers w' = impacts_headers w
  /\ heap_le (heap w) (heap w')
  /\ exists evs, log w' = log w ++ evs /\ Forall is_alter evs.

Lemma only_alters_refl w : only_alters w w.
Proof.
  repeat split; try done. { apply heap_le_refl. }
  exists []. split; [by rewrite app_nil_r | done].
Qed.

Lemma only_alters_trans w1 w2 w3 :
  only_alters w1 w2 -> only_alters w2 w3 -> only_alters w1 w3.
Proof.
  intros (Ha & Hb & Hc & Hd & e1 & He1 & Hf1) (Ha' & Hb' & Hc' & Hd' & e2 & He2 & Hf2).
  repeat split; try congruence. { by eapply heap_le_trans. }
  exists (e1 ++ e2). split; [by rewrite He2, He1, app_assoc | by apply Forall_app].
Qed.

Lemma only_alters_columns_of table w w' :
  only_alters w w' -> columns_of table w' = columns_of table w.
Proof. intros (Ha & Hb & _). unfold columns_of. by rewrite Ha, Hb. Qed.

Section GrowFacts.
Context `{Engine}.

Lemma alter_column_spec table col length w :
  exists evs,
    Loader.alter_column table col length w = (Ok tt, add_log w evs)
    /\ Forall is_alter evs
    /\ (evs = [EAlter table (name col) length]
        \/ (evs = [] /\ PyStr.startswith "postgres" dialect_name = false
                     /\ String.eqb dialect_name "mysql" = false)).
Proof.
  unfold Loader.alter_column.
  destruct (PyStr.startswith "postgres" dialect_name);
    [|destruct (String.eqb dialect_name "mysql")].
  - eexists. split; [done|]. split; [by repeat constructor | by left].
  - eexists. split; [done|]. split; [by repeat constructor | by left].
  - exists []. rewrite add_log_nil. split; [done|]. split; [done | by right].
Qed.

Lemma set_column_length_spec table col length w :
  only_alters w (snd (Loader.set_column_length table col length w))
  /\ (fst (Loader.set_column_length table col length w) = Ok tt ->
        forall r, string_ref col = Some r ->
          length <= heap (snd (Loader.set_column_length table col length w)) !!! r).
Proof.
  assert (Hstore : forall u,
            only_alters w (snd ((set_unsized u ;; Loader.alter_column table col length) w))).
  { intros u. unfold bind, set_unsized.
    destruct (alter_column_spec table col length
                (mkWorld (impacts_headers w) (heap w) u (variants_columns w)
                   (variant_impacts_columns w) (log w))) as (evs & -> & Hal & _).
    simpl. repeat split; try done. { apply heap_le_refl. } by exists evs. }
  unfold Loader.set_column_length, string_ref.
  destruct (type col) as [| | | | | |r]; simpl;
    try (split; [apply only_alters_refl | done]).
  - (* LargeBinary *)
    destruct (unsized w !! (table, name col)) as [l|].
    + destruct (length <=? l); [split; [apply only_alters_refl | done]|].
      split; [apply Hstore | done].
    + split; [apply Hstore | done].
  - (* TEXT *)
    destruct (unsized w !! (table, name col)) as [l|].
    + destruct (length <=? l); [split; [apply only_alters_refl | done]|].
      split; [apply Hstore | done].
    + split; [apply Hstore | done].
  - (* String *)
    destruct (length <=? heap w !!! r) eqn:Hle; simpl.
    { split; [apply only_alters_refl|]. intros _ r' [= <-]. by apply Z.leb_le. }
    apply Z.leb_gt in Hle.
    assert (Hgrow : heap_le (heap w) (<[r := length]> (heap w))) by (apply heap_le_insert; lia).
    unfold bind, set_heap.
    destruct (alter_column_spec table col length
                (mkWorld (impacts_headers w) (<[r := length]> (heap w)) (unsized w)
                   (variants_columns w) (variant_impacts_columns w) (log w)))
      as (evs & -> & Hal & _).
    simpl. split.
    + repeat split; try done. by exists evs.
    + intros _ r' [= <-]. rewrite lookup_total_insert_eq. lia.
Qed.

Lemma grow_columns_spec table lengths w :
  only_alters w (snd (Loader.grow_columns table lengths w))
  /\ (fst (Loader.grow_columns table lengths w) = Ok tt ->
        forall nm m, (nm, m) ∈ lengths ->
          exists col, table_column (columns_of table w) nm = Some col
                      /\ forall r, string_ref col = Some r ->
                           m <= heap (snd (Loader.grow_columns table lengths w)) !!! r).
Proof.
  unfold Loader.grow_columns. revert w.
  induction lengths as [|[nm0 m0] rest IH]; intros w.
  { simpl. split; [apply only_alters_refl|]. intros _ nm m Hin. by apply elem_of_nil in Hin. }
  rewrite for_each_cons.
  destruct (table_column (columns_of table w) nm0) as [col|] eqn:Hcol; simpl;
    [|split; [apply only_alters_refl | done]].
  destruct (set_column_length_spec table col m0 w) as [Halt Hok].
  destruct (Loader.set_column_length table col m0 w) as [[[]|e] w1] eqn:Hset; simpl in *;
    [|split; [done | done]].
  destruct (IH w1) as [Halt1 Hok1].
  split; [by eapply only_alters_trans|].
  intros Hres nm m Hin.
  apply elem_of_cons in Hin as [[= -> ->]|Hin].
  - exists col. split; [done|]. intros r Hr. specialize (Hok eq_refl r Hr).
    destruct Halt1 as (_ & _ & _ & Hheap & _). specialize (Hheap r). lia.
  - destruct (Hok1 Hres nm m Hin) as (col' & Hc & Hle).
    exists col'. rewrite (only_alters_columns_of _ _ _ Halt) in Hc. done.
Qed.

End GrowFacts.

(** ** What one call of [__insert] sends and commits *)

Lemma grouper_go_concat {A} (n k : nat) (piece l : list A) :
  (0 < n)%nat -> (0 < k)%nat ->
  concat (Loader.grouper_go n k piece l) = reverse piece ++ l.
Proof.
  intros Hn. revert k piece. induction l as [|x rest IH]; intros k piece Hk; simpl.
  { destruct piece; simpl; [done|]. by rewrite !app_nil_r. }
  destruct k as [|[|k']]; [lia| |].
  - simpl. rewrite IH by done. rewrite reverse_cons, reverse_nil. simpl.
    by rewrite <- app_assoc.
  - rewrite IH by lia. rewrite reverse_cons. by rewrite <- app_assoc.
Qed.

Lemma grouper_concat {A} (n : nat) (l : list A) :
  (0 < n)%nat -> concat (Loader.grouper n l) = l.
Proof. intros Hn. unfold Loader.grouper. by rewrite grouper_go_concat. Qed.

(** The events of an insert into [table] of rows taken from [objs], all
    carrying the lengths [ws]. *)
Definition written_by (table : string) (ws : gmap string Z) (objs : list dict)
    (ev : event) : Prop :=
  match ev with
  | EExecute t ws' rows _ => t = table /\ ws' = ws /\ rows ⊆ objs
  | ERow t ws' row _ => t = table /\ ws' = ws /\ row ∈ objs
  | EBegin | ECommit | EAbort => True
  | _ => False
  end.

Lemma written_by_mono table ws objs objs' ev :
  objs ⊆ objs' -> written_by table ws objs ev -> written_by table ws objs' ev.
Proof.
  intros Hsub. destruct ev; simpl; try done.
  - intros (? & ? & ?). repeat split; try done. by etrans.
  - intros (? & ? & ?). repeat split; try done. by apply Hsub.
Qed.

(** A run of events that leaves no transaction open. *)
Definition block (evs : list event) : Prop :=
  forall tail, committed (evs ++ tail) = committed evs ++ committed tail.

Lemma block_nil : block [].
Proof. by intros tail. Qed.

Lemma block_app a b : block a -> block b -> block (a ++ b).
Proof.
  intros Ha Hb tail. rewrite <- app_assoc, Ha, Hb, Ha. by rewrite app_assoc.
Qed.

Lemma committed_app a b : block a -> committed (a ++ b) = committed a ++ committed b.
Proof. intros Ha. apply Ha. Qed.

Lemma block_plain (evs : list event) :
  Forall (fun ev => match ev with
                    | EDrop _ | ECreate _ _ | EAlter _ _ _ => True
                    | EExecute _ _ _ _ => True
                    | _ => False
                    end) evs ->
  block evs.
Proof.
  induction 1 as [|ev evs Hev Hall IH]; [apply block_nil|].
  intros tail. unfold block, committed in *. specialize (IH tail).
  destruct ev; simpl in *; try done.
  destruct ok; [|done]. by rewrite IH, app_assoc.
Qed.

Lemma block_retry t ws (attempted : list dict) (last : list event) :
  last = [ECommit] \/ (exists o, last = [ERow t ws o false; EAbort]) ->
  block (EBegin :: map (fun o => ERow t ws o true) attempted ++ last).
Proof.
  intros Hlast tail. unfold committed. simpl.
  rewrite <- !app_assoc, !committed_go_rows.
  destruct Hlast as [->|[o ->]]; simpl; [by rewrite !app_nil_r | done].
Qed.

Section InsertFacts.
Context `{Engine}.

Lemma bulk_or_rows_spec (rollback_first : bool) table (g : list dict) w :
  exists r evs,
    Loader.bulk_or_rows rollback_first table g w = (r, add_log w evs)
    /\ block evs
    /\ Forall (written_by table (widths_of table w) g) evs
    /\ (r = Ok tt -> committed evs = map (pair table) g).
Proof.
  destruct (bulk_or_rows_eq rollback_first table g w) as (r & evs & Heq & Hcase).
  exists r, evs. split; [done|].
  destruct (accepts (log w) table g).
  { destruct Hcase as [-> ->]. split; [|split].
    - apply block_plain. by repeat constructor.
    - by repeat constructor.
    - intros _. unfold committed. simpl. by rewrite app_nil_r. }
  destruct rollback_first.
  { destruct Hcase as [-> ->]. split; [|split].
    - apply block_plain. by repeat constructor.
    - by repeat constructor.
    - done. }
  destruct Hcase as (attempted & tail & -> & Hcase).
  assert (Hsub : attempted ⊆ g /\ Forall (written_by table (widths_of table w) g) tail
                 /\ (tail = [ECommit] \/ exists o, tail = [ERow table (widths_of table w) o false; EAbort])).
  { destruct Hcase as [(-> & -> & _)|(o & rest & -> & -> & _)].
    - split; [done|]. split; [by repeat constructor | by left].
    - split; [intros x Hx; apply elem_of_app; by left|]. split.
      + repeat constructor. apply elem_of_app. right. by left.
      + right. by exists o. }
  destruct Hsub as (Hatt & Htail & Hshape).
  split; [|split].
  - change (EExecute table (widths_of table w) g false :: ?l)
      with ([EExecute table (widths_of table w) g false] ++ l).
    apply block_app; [apply block_plain; by repeat constructor|].
    by apply block_retry.
  - constructor; [done|]. constructor; [done|]. apply Forall_app. split; [|done].
    apply Forall_fmap, Forall_forall. intros o Ho. simpl. repeat split. by apply Hatt.
  - intros ->. by destruct Hcase as [(_ & _ & ? & _)|(o & rest & _ & _ & ? & _)].
Qed.

Lemma groups_spec table (gs : list (list dict)) w :
  exists r evs,
    for_each gs (Loader.bulk_or_rows true table) w = (r, add_log w evs)
    /\ block evs
    /\ Forall (written_by table (widths_of table w) (concat gs)) evs
    /\ (r = Ok tt -> committed evs = map (pair table) (concat gs)).
Proof.
  revert w. induction gs as [|g gs IH]; intros w.
  { exists (Ok tt), []. simpl. rewrite add_log_nil. split; [done|].
    split; [apply block_nil|]. split; [done | done]. }
  rewrite for_each_cons.
  destruct (bulk_or_rows_spec true table g w) as (r1 & evs1 & -> & Hb1 & Hw1 & Hc1).
  assert (Hw1' : Forall (written_by table (widths_of table w) (concat (g :: gs))) evs1).
  { eapply Forall_impl; [exact Hw1|]. intros ev. apply written_by_mono.
    simpl. intros x Hx. apply elem_of_app. by left. }
  destruct r1 as [[]|e].
  - destruct (IH (add_log w evs1)) as (r2 & evs2 & -> & Hb2 & Hw2 & Hc2).
    rewrite widths_of_add_log in Hw2. rewrite add_log_app.
    exists r2, (evs1 ++ evs2). split; [done|]. split; [by apply block_app|]. split.
    + apply Forall_app. split; [done|].
      eapply Forall_impl; [exact Hw2|]. intros ev. apply written_by_mono.
      simpl. intros x Hx. apply elem_of_app. by right.
    + intros ->. rewrite committed_app by done. rewrite Hc1, Hc2 by done.
      simpl. by rewrite fmap_app.
  - exists (Raise e), evs1. split; [done|]. split; [done|]. split; [done | done].
Qed.

(** [__insert] changes nothing but the log; what it appends is a closed
    run of inserts into its table, of rows of [objs], with the lengths the
    table has at that moment; when it returns normally every row of [objs]
    has been committed, in order. *)
Lemma insert_rows_spec (objs : list dict) table w :
  exists r evs,
    Loader.__insert objs table w = (r, add_log w evs)
    /\ block evs
    /\ Forall (written_by table (widths_of table w) objs) evs
    /\ (r = Ok tt -> committed evs = map (pair table) objs).
Proof.
  unfold Loader.__insert. destruct (6000 <? Z.of_nat (length objs)).
  - destruct (groups_spec table (Loader.grouper (Z.to_nat 5000) objs) w)
      as (r & evs & Heq & Hb & Hw & Hc).
    rewrite grouper_concat in Hw, Hc by lia. by exists r, evs.
  - apply bulk_or_rows_spec.
Qed.

End InsertFacts.

(** ** One flush, step by step *)

(** A string value of the row is no longer than the length recorded for
    its column. *)
Definition row_fits (ws : gmap string Z) (row : dict) : Prop :=
  forall nm wd s, ws !! nm = Some wd -> row !! nm = Some (VStr s) -> PyStr.len s <= wd.

(** No row of an insert holds a string longer than its column is at the
    moment of the insert. *)
Definition event_fits (ev : event) : Prop :=
  match ev with
  | EExecute _ ws rows _ => Forall (row_fits ws) rows
  | ERow _ ws row _ => row_fits ws row
  | _ => True
  end.

Lemma written_by_fits table ws objs ev :
  Forall (row_fits ws) objs -> written_by table ws objs ev -> event_fits ev.
Proof.
  intros Hfit. rewrite Forall_forall in Hfit. destruct ev; simpl; try done.
  - intros (_ & -> & Hsub). apply Forall_forall. intros x Hx. by apply Hfit, Hsub.
  - intros (_ & -> & Hin). by apply Hfit.
Qed.


(** Every string of the rows fits its column as it is in [w], or is
    covered by the length that [lengths] asks for the column. *)
Definition covered (table : string) (w : world) (lengths : gmap string Z)
    (rows : list dict) : Prop :=
  forall nm wd, widths_of table w !! nm = Some wd ->
    Forall (fun d : dict => forall s, d !! nm = Some (VStr s) ->
              PyStr.len s <= wd \/ exists m, lengths !! nm = Some m /\ PyStr.len s <= m) rows.

Lemma bind_unfold {A B} (m : M A) (k : A -> M B) w :
  bind m k w = match m w with
               | (Ok a, w1) => k a w1
               | (Raise e, w1) => (Raise e, w1)
               end.
Proof. done. Qed.

Section FlushFacts.
Context `{Engine}.

(** After the loop that widens the columns of [table] has ended normally,
    the rows fit. *)
Lemma grown_rows_fit table lengths rows w :
  covered table w lengths rows ->
  fst (Loader.grow_columns table (map_to_list lengths) w) = Ok tt ->
  Forall (row_fits (widths_of table (snd (Loader.grow_columns table (map_to_list lengths) w))))
         rows.
Proof.
  intros Hcov Hok.
  destruct (grow_columns_spec table (map_to_list lengths) w) as [Halt Hgrown].
  specialize (Hgrown Hok).
  set (w1 := snd (Loader.grow_columns table (map_to_list lengths) w)) in *.
  pose proof (only_alters_columns_of table _ _ Halt) as Hcols.
  destruct Halt as (_ & _ & _ & Hheap & _).
  apply Forall_forall. intros d Hd nm wd1 s Hwd1 Hs.
  unfold widths_of in Hwd1. rewrite Hcols in Hwd1.
  apply widths_lookup in Hwd1 as (i & c & r & Hi & Hc & Hr & ->).
  assert (Hw0 : widths_of table w !! nm = Some (heap w !!! r)).
  { unfold widths_of, widths. rewrite lookup_omap, Hi. simpl. by rewrite Hc; simpl; rewrite Hr. }
  specialize (Hcov _ _ Hw0). rewrite Forall_forall in Hcov.
  destruct (Hcov d Hd s Hs) as [Hle|(m & Hm & Hle)].
  - specialize (Hheap r). lia.
  - destruct (Hgrown nm m) as (col & Hcol & Hm').
    { by apply elem_of_map_to_list. }
    unfold table_column in Hcol. rewrite Hi in Hcol. simpl in Hcol.
    rewrite Hc in Hcol. injection Hcol as <-. specialize (Hm' r Hr). lia.
Qed.

(** The trace of [_insert]: the ALTERs and the insert for the primary
    table, then those for the impact table.  Unless the insert of the
    primary rows returned normally, with all of them committed, nothing is
    sent for the impact table. *)
Lemma _insert_trace vlengths v_objs vilengths vi_objs w :
  exists r w' av iv avi ivi,
    Loader._insert vlengths v_objs vilengths vi_objs w = (r, w')
    /\ variants_columns w' = variants_columns w
    /\ variant_impacts_columns w' = variant_impacts_columns w
    /\ impacts_headers w' = impacts_headers w
    /\ heap_le (heap w) (heap w')
    /\ (vlengths = ∅ -> vilengths = ∅ -> heap w' = heap w)
    /\ log w' = log w ++ av ++ iv ++ avi ++ ivi
    /\ Forall is_alter av /\ Forall is_alter avi
    /\ block iv /\ block ivi
    /\ (exists ws, Forall (written_by "variants" ws v_objs) iv)
    /\ (exists ws, Forall (written_by "variant_impacts" ws vi_objs) ivi)
    /\ (covered "variants" w vlengths v_objs -> Forall event_fits iv)
    /\ (covered "variant_impacts" w vilengths vi_objs -> Forall event_fits ivi)
    /\ (committed iv = map (pair "variants") v_objs \/ (avi = [] /\ ivi = []))
    /\ (r = Ok tt -> committed iv = map (pair "variants") v_objs
                     /\ committed ivi = map (pair "variant_impacts") vi_objs).
Proof.
  unfold Loader._insert. rewrite bind_unfold.
  pose proof (grow_columns_spec "variants" (map_to_list vlengths) w) as [Ha1 _].
  pose proof (grown_rows_fit "variants" vlengths v_objs w) as Hfit1.
  assert (Hnil1 : vlengths = ∅ ->
            Loader.grow_columns "variants" (map_to_list vlengths) w = (Ok tt, w)).
  { intros ->. by rewrite map_to_list_empty. }
  destruct (Loader.grow_columns "variants" (map_to_list vlengths) w) as [[[]|e1] w1] eqn:Hg1;
    simpl in Ha1, Hfit1.
  2: { destruct Ha1 as (Hc1 & Hc2 & Hc3 & Hh & av & Hlog & Hav).
       exists (Raise e1), w1, av, [], [], []. rewrite !app_nil_r.
       split_and!; try done; try apply block_nil; try (by exists ∅).
       - intros Hv _. by specialize (Hnil1 Hv).
       - by right. }
  rewrite bind_unfold.
  destruct (insert_rows_spec v_objs "variants" w1) as (r2 & iv & -> & Hb2 & Hw2 & Hc2).
  destruct Ha1 as (Hc1 & Hc2' & Hc3 & Hh & av & Hlog & Hav).
  assert (Hfit_iv : covered "variants" w vlengths v_objs -> Forall event_fits iv).
  { intros Hcov. eapply Forall_impl; [exact Hw2|].
    intros ev. apply written_by_fits. by apply Hfit1. }
  assert (Hsame1 : vlengths = ∅ -> w1 = w).
  { intros Hv. specialize (Hnil1 Hv). by injection Hnil1. }
  destruct r2 as [[]|e2].
  2: { exists (Raise e2), (add_log w1 iv), av, iv, [], []. rewrite !app_nil_r. simpl.
       split_and!; try done; try apply block_nil; try (by exists ∅); try (by eexists).
       - intros Hv _. by rewrite (Hsame1 Hv).
       - by rewrite Hlog, app_assoc.
       - by right. }
  rewrite bind_unfold.
  set (w2 := add_log w1 iv).
  pose proof (grow_columns_spec "variant_impacts" (map_to_list vilengths) w2) as [Ha3 _].
  pose proof (grown_rows_fit "variant_impacts" vilengths vi_objs w2) as Hfit3.
  assert (Hnil3 : vilengths = ∅ ->
            Loader.grow_columns "variant_impacts" (map_to_list vilengths) w2 = (Ok tt, w2)).
  { intros ->. by rewrite map_to_list_empty. }
  assert (Hcov3 : covered "variant_impacts" w vilengths vi_objs ->
                  covered "variant_impacts" w2 vilengths vi_objs).
  { intros Hcov nm wd Hwd. unfold widths_of, columns_of in Hwd. simpl in Hwd.
    rewrite Hc2' in Hwd.
    apply widths_lookup in Hwd as (i & c & r & Hi & Hc & Hr & ->).
    assert (Hw0 : widths_of "variant_impacts" w !! nm = Some (heap w !!! r)).
    { unfold widths_of, widths, columns_of. simpl. rewrite lookup_omap, Hi. simpl.
      by rewrite Hc; simpl; rewrite Hr. }
    specialize (Hcov _ _ Hw0). eapply Forall_impl; [exact Hcov|].
    intros d Hd s Hs. destruct (Hd s Hs) as [Hle|?]; [left|by right].
    specialize (Hh r). lia. }
  destruct (Loader.grow_columns "variant_impacts" (map_to_list vilengths) w2)
    as [[[]|e3] w3] eqn:Hg3; simpl in Ha3, Hfit3.
  2: { destruct Ha3 as (Hd1 & Hd2 & Hd3 & Hh3 & avi & Hlog3 & Havi).
       exists (Raise e3), w3, av, iv, avi, []. rewrite !app_nil_r.
       split_and!; try done; try apply block_nil; try (by exists ∅); try (by eexists).
       - by rewrite Hd1.
       - by rewrite Hd2.
       - by rewrite Hd3.
       - by eapply heap_le_trans.
       - intros Hv Hvi. by specialize (Hnil3 Hvi).
       - rewrite Hlog3. simpl. rewrite Hlog. by rewrite <- !app_assoc.
       - left. by apply Hc2. }
  destruct (insert_rows_spec vi_objs "variant_impacts" w3) as (r4 & ivi & -> & Hb4 & Hw4 & Hc4).
  destruct Ha3 as (Hd1 & Hd2 & Hd3 & Hh3 & avi & Hlog3 & Havi).
  exists r4, (add_log w3 ivi), av, iv, avi, ivi. simpl.
  split_and!; try done; try (by eexists).
  - by rewrite Hd1.
  - by rewrite Hd2.
  - by rewrite Hd3.
  - by eapply heap_le_trans.
  - intros Hv Hvi. specialize (Hnil3 Hvi). injection Hnil3 as ->.
    unfold w2. simpl. by rewrite (Hsame1 Hv).
  - rewrite Hlog3. simpl. rewrite Hlog. by rewrite <- !app_assoc.
  - intros Hcov. eapply Forall_impl; [exact Hw4|].
    intros ev. apply written_by_fits. apply Hfit3; [by apply Hcov3 | done].
  - left. by apply Hc2.
  - intros Hr. split; [by apply Hc2 | by apply Hc4].
Qed.

End FlushFacts.


(** ** Schema inference at the first flush *)

Lemma widths_mono table w1 w2 nm wd2 :
  columns_of table w2 = columns_of table w1 ->
  heap_le (heap w1) (heap w2) ->
  widths_of table w2 !! nm = Some wd2 ->
  exists wd1, widths_of table w1 !! nm = Some wd1 /\ wd1 <= wd2.
Proof.
  intros Hcols Hheap Hwd. unfold widths_of in *. rewrite Hcols in Hwd.
  apply widths_lookup in Hwd as (i & c & r & Hi & Hc & Hr & ->).
  exists (heap w1 !!! r). split; [|apply Hheap].
  unfold widths. rewrite lookup_omap, Hi. simpl. by rewrite Hc; simpl; rewrite Hr.
Qed.

Lemma covered_mono table w1 w2 lengths rows :
  columns_of table w2 = columns_of table w1 ->
  heap_le (heap w1) (heap w2) ->
  covered table w1 lengths rows -> covered table w2 lengths rows.
Proof.
  intros Hcols Hheap Hcov nm wd2 Hwd2.
  destruct (widths_mono _ _ _ _ _ Hcols Hheap Hwd2) as (wd1 & Hwd1 & Hle).
  eapply Forall_impl; [exact (Hcov _ _ Hwd1)|].
  intros d Hd s Hs. destruct (Hd s Hs) as [?|?]; [left; lia | by right].
Qed.

Lemma widths_of_other table w :
  String.eqb table "variants" = false ->
  String.eqb table "variant_impacts" = false ->
  widths_of table w = ∅.
Proof.
  intros H1 H2. unfold widths_of, columns_of. rewrite H1, H2.
  unfold widths, table_index. simpl. apply omap_empty.
Qed.

(** The events of table creation: DDL, and the two inserts of metadata. *)
Definition is_setup (ev : event) : Prop :=
  match ev with
  | EDrop _ | ECreate _ _ => True
  | EExecute t ws _ _ => (t = "features" \/ t = "vcf_header") /\ ws = ∅
  | _ => False
  end.

(** The events of an insert into an expansion table. *)
Definition is_expansion (ev : event) : Prop :=
  exists k rows, written_by ("sample_" +:+ k) ∅ rows ev.



Lemma setup_block evs : Forall is_setup evs -> block evs.
Proof.
  intros Hs. apply block_plain. eapply Forall_impl; [exact Hs|].
  intros ev. by destruct ev.
Qed.

Section CreateTrace.
Context `{Printers} `{Primitives} `{Annotations} `{Engine}.
Variable self : Loader.settings.

Lemma create_for_spec table (dicts : list dict) w :
  table = "variants" \/ table = "variant_impacts" ->
  no_arrays dicts ->
  heap_le (heap w) (heap (snd (Loader.create_for table dicts w)))
  /\ cols_evolve (variants_columns w)
       (variants_columns (snd (Loader.create_for table dicts w)))
  /\ cols_evolve (variant_impacts_columns w)
       (variant_impacts_columns (snd (Loader.create_for table dicts w)))
  /\ (forall t, t <> table ->
        columns_of t (snd (Loader.create_for table dicts w)) = columns_of t w)
  /\ impacts_headers (snd (Loader.create_for table dicts w)) = impacts_headers w
  /\ log (snd (Loader.create_for table dicts w)) = log w
  /\ (fst (Loader.create_for table dicts w) = Ok tt ->
        covered table (snd (Loader.create_for table dicts w)) ∅ dicts).
Proof.
  intros Htable Hno. unfold Loader.create_for.
  destruct (Schema._create dicts (map_to_list (Schema.string_cols (columns_of table w)))
              (heap w) (columns_of table w)) as [r [h cs]] eqn:Hcreate.
  unfold Schema._create in Hcreate.
  destruct (create_go_mono _ _ _ _ _ _ _ _ Hno Hcreate) as [Hle Hev].
  assert (Hfit : r = Ok tt -> forall nm wd, widths h cs !! nm = Some wd ->
            Forall (fun d : dict => forall s, d !! nm = Some (VStr s) ->
                      PyStr.len s <= wd \/ exists m, (∅ : gmap string Z) !! nm = Some m /\ PyStr.len s <= m)
                   dicts).
  { intros -> nm wd Hwd.
    apply widths_lookup in Hwd as (i & c' & r0 & Hi & Hc' & Hr0 & ->).
    unfold table_index in Hi. rewrite (table_index_evolve _ _ _ Hev) in Hi.
    destruct (cols_evolve_lookup _ _ _ _ Hev Hc') as (c & Hc & _ & Ht).
    assert (Hr : string_ref c = Some r0).
    { unfold string_ref in *. destruct Ht as [Ht|Ht]; rewrite Ht in Hr0; done. }
    assert (Hsc : Schema.string_cols (columns_of table w) !! nm = Some i).
    { eapply string_cols_of_table_index; [exact Hi | by rewrite Nat.sub_0_r | exact Hr]. }
    assert (Hfits : Forall (fun d => shown_length nm d <= h !!! r0) dicts).
    { eapply (create_go_fits dicts _ ∅ _ _ _ _ nm i Hno); [| | |exact Hcreate| exact Hc' | exact Hr0].
      - apply NoDup_fst_map_to_list.
      - by apply elem_of_map_to_list.
      - apply not_elem_of_empty. }
    eapply Forall_impl; [exact Hfits|]. intros d Hd s Hs. left.
    unfold shown_length in Hd. rewrite Hs in Hd. done. }
  unfold bind, set_heap, set_columns, lift. simpl.
  destruct Htable as [-> | ->]; simpl.
  - split_and!; try done; try apply cols_evolve_refl.
    intros t Ht. unfold columns_of. simpl.
    destruct (String.eqb_spec t "variants"); done.
  - split_and!; try done; try apply cols_evolve_refl.
    intros t Ht. unfold columns_of. simpl.
    destruct (String.eqb_spec t "variants"); [done|].
    destruct (String.eqb_spec t "variant_impacts"); done.
Qed.

Lemma execute_setup table rows w :
  table = "features" \/ table = "vcf_header" ->
  exists r ev, Loader.execute table rows w = (r, add_log w [ev]) /\ is_setup ev.
Proof.
  intros Ht. rewrite execute_eq.
  assert (Hws : widths_of table w = ∅).
  { apply widths_of_other; destruct Ht as [-> | ->]; done. }
  rewrite Hws. destruct (accepts (log w) table rows); eexists _, _; split; done.
Qed.

(** [m] only appends events of table creation. *)
Definition sets_up {A} (m : M A) : Prop :=
  forall w, exists r evs, m w = (r, add_log w evs) /\ Forall is_setup evs.

Lemma sets_up_emit ev : is_setup ev -> sets_up (emit ev).
Proof. intros Hev w. exists (Ok tt), [ev]. split; [done | by constructor]. Qed.

Lemma sets_up_ret {A} (a : A) : sets_up (ret a).
Proof. intros w. exists (Ok a), []. split; [by rewrite add_log_nil | done]. Qed.

Lemma sets_up_bind {A B} (m : M A) (k : A -> M B) :
  sets_up m -> (forall a, sets_up (k a)) -> sets_up (bind m k).
Proof.
  intros Hm Hk w. rewrite bind_unfold.
  destruct (Hm w) as (r & evs & -> & Hevs). destruct r as [a|e].
  - destruct (Hk a (add_log w evs)) as (r2 & evs2 & -> & Hevs2).
    rewrite add_log_app. eexists _, _. split; [done | by apply Forall_app].
  - by eexists _, _.
Qed.

Lemma sets_up_execute table rows :
  table = "features" \/ table = "vcf_header" -> sets_up (Loader.execute table rows).
Proof.
  intros Ht w. destruct (execute_setup table rows w Ht) as (r & ev & -> & Hev).
  eexists _, _. split; [done | by constructor].
Qed.

Lemma sets_up_lift {A} (r : result A) : sets_up (lift r).
Proof. intros w. exists r, []. split; [by rewrite add_log_nil | done]. Qed.

Lemma sets_up_for_each {A} (l : list A) (body : A -> M unit) :
  (forall x, sets_up (body x)) -> sets_up (for_each l body).
Proof.
  intros Hbody. induction l as [|x rest IH]; [apply sets_up_ret|].
  simpl. apply sets_up_bind; [apply Hbody | by intros _].
Qed.

Lemma create_expanded_spec : sets_up (Loader.create_expanded self).
Proof.
  unfold Loader.create_expanded. apply sets_up_for_each. intros field.
  apply sets_up_bind; [apply sets_up_lift | intros _].
  apply sets_up_bind; [by apply sets_up_emit | intros _]. by apply sets_up_emit.
Qed.

Lemma _create_tables_spec w :
  exists r evs, Loader._create_tables self w = (r, add_log w evs) /\ Forall is_setup evs.
Proof.
  revert w. change (sets_up (Loader._create_tables self)).
  unfold Loader._create_tables.
  repeat (apply sets_up_bind; [|intros _]); try (by apply sets_up_emit).
  - destruct (Loader.blobber self); [apply sets_up_ret|].
    repeat (apply sets_up_bind; [|intros _]); try (by apply sets_up_emit).
    apply sets_up_execute. by left.
  - intros w. by apply sets_up_emit.
  - intros w. by apply sets_up_emit.
  - unfold Loader.create_vcf_header_table.
    repeat (apply sets_up_bind; [|intros _]); try (by apply sets_up_emit).
    apply sets_up_execute. by right.
  - apply create_expanded_spec.
Qed.

Lemma create_for_frame table (dicts : list dict) w :
  impacts_headers (snd (Loader.create_for table dicts w)) = impacts_headers w
  /\ log (snd (Loader.create_for table dicts w)) = log w.
Proof.
  unfold Loader.create_for.
  destruct (Schema._create dicts _ (heap w) (columns_of table w)) as [r [h cs]].
  unfold bind, set_heap, set_columns, lift. simpl.
  destruct (String.eqb table "variants"); [done|].
  destruct (String.eqb table "variant_impacts"); done.
Qed.

(** [create]: the two scans of the prefix, then the creation of the
    tables. *)
Lemma create_trace (dv dvi : list dict) w :
  exists r w' setup,
    Loader.create self dv dvi w = (r, w')
    /\ log w' = log w ++ setup
    /\ Forall is_setup setup
    /\ impacts_headers w' = impacts_headers w
    /\ (no_arrays dv -> no_arrays dvi ->
          heap_le (heap w) (heap w')
          /\ cols_evolve (variants_columns w) (variants_columns w')
          /\ cols_evolve (variant_impacts_columns w) (variant_impacts_columns w')
          /\ (r = Ok tt -> covered "variants" w' ∅ dv
                           /\ covered "variant_impacts" w' ∅ dvi)).
Proof.
  unfold Loader.create. rewrite bind_unfold.
  pose proof (create_for_frame "variants" dv w) as [Hih1 Hlog1].
  pose proof (create_for_spec "variants" dv w (or_introl eq_refl)) as Hs1.
  destruct (Loader.create_for "variants" dv w) as [[[]|e1] w1]; simpl in *.
  2: { exists (Raise e1), w1, []. rewrite app_nil_r. split_and!; try done.
       intros Hdv _. destruct (Hs1 Hdv) as (? & ? & ? & _). done. }
  rewrite bind_unfold.
  pose proof (create_for_frame "variant_impacts" dvi w1) as [Hih2 Hlog2].
  pose proof (create_for_spec "variant_impacts" dvi w1 (or_intror eq_refl)) as Hs2.
  destruct (Loader.create_for "variant_impacts" dvi w1) as [[[]|e2] w2]; simpl in *.
  2: { exists (Raise e2), w2, []. rewrite app_nil_r. split_and!; try congruence; try done.
       intros Hdv Hdvi. destruct (Hs1 Hdv) as (Ha & Hb & Hc & _).
       destruct (Hs2 Hdvi) as (Ha' & Hb' & Hc' & _).
       split_and!; try done.
       - by eapply heap_le_trans.
       - by eapply cols_evolve_trans.
       - by eapply cols_evolve_trans. }
  destruct (_create_tables_spec w2) as (r & setup & -> & Hsetup).
  exists r, (add_log w2 setup), setup. simpl.
  split_and!; try congruence; try done.
  intros Hdv Hdvi. destruct (Hs1 Hdv) as (Ha & Hb & Hc & _ & _ & _ & Hcov1).
  destruct (Hs2 Hdvi) as (Ha' & Hb' & Hc' & Hother & _ & _ & Hcov2).
  split_and!.
  - by eapply heap_le_trans.
  - by eapply cols_evolve_trans.
  - by eapply cols_evolve_trans.
  - intros _. split.
    + apply (covered_mono "variants" w1); [|done|by apply Hcov1].
      change (columns_of "variants" w2 = columns_of "variants" w1). by apply Hother.
    + apply (covered_mono "variant_impacts" w2); [done | apply heap_le_refl | by apply Hcov2].
Qed.

(** The inserts into the expansion tables. *)
Lemma expansions_trace (l : list (string * list dict)) w :
  exists r evs,
    for_each l (fun '(k, rows) => Loader.__insert rows ("sample_" +:+ k)) w
      = (r, add_log w evs)
    /\ block evs /\ Forall is_expansion evs.
Proof.
  revert w. induction l as [|[k rows] rest IH]; intros w.
  { exists (Ok tt), []. simpl. rewrite add_log_nil. split; [done|]. split; [apply block_nil | done]. }
  rewrite for_each_cons.
  destruct (insert_rows_spec rows ("sample_" +:+ k) w) as (r1 & evs1 & -> & Hb1 & Hw1 & _).
  rewrite widths_of_other in Hw1 by done.
  assert (Hx1 : Forall is_expansion evs1).
  { eapply Forall_impl; [exact Hw1|]. intros ev Hev. by exists k, rows. }
  destruct r1 as [[]|e].
  - destruct (IH (add_log w evs1)) as (r2 & evs2 & -> & Hb2 & Hx2).
    rewrite add_log_app. exists r2, (evs1 ++ evs2). split; [done|].
    split; [by apply block_app | by apply Forall_app].
  - by exists (Raise e), evs1.
Qed.

Lemma check_for_covered table (dicts : list dict) w ch w' :
  Loader.check_for table dicts w = (Ok ch, w') ->
  w' = w /\ covered table w ch dicts.
Proof.
  unfold Loader.check_for, Schema.check_column_lengths. intros [= Hch <-].
  split; [done|]. destruct (check_go_spec _ _ _ _ _ _ Hch) as [_ Hfit].
  intros nm wd Hwd. apply widths_lookup in Hwd as (i & c & r & Hi & Hc & Hr & ->).
  apply (Hfit nm i r).
  - apply elem_of_map_to_list.
    eapply string_cols_of_table_index; [exact Hi | by rewrite Nat.sub_0_r | exact Hr].
  - by rewrite Hc.
Qed.

(** [_insert] followed by the inserts into the expansion tables. *)
Lemma flush_trace vlengths (v : list dict) vilengths (vi : list dict)
    (l : list (string * list dict)) w :
  exists r w' av iv avi ivi ix,
    (Loader._insert vlengths v vilengths vi ;;
     for_each l (fun '(k, rows) => Loader.__insert rows ("sample_" +:+ k))) w = (r, w')
    /\ log w' = log w ++ av ++ iv ++ avi ++ ivi ++ ix
    /\ Forall is_alter av /\ Forall is_alter avi /\ Forall is_expansion ix
    /\ block iv /\ block ivi /\ block ix
    /\ (exists ws, Forall (written_by "variants" ws v) iv)
    /\ (exists ws, Forall (written_by "variant_impacts" ws vi) ivi)
    /\ (committed iv = map (pair "variants") v \/ (avi = [] /\ ivi = [] /\ ix = []))
    /\ variants_columns w' = variants_columns w
    /\ variant_impacts_columns w' = variant_impacts_columns w
    /\ heap_le (heap w) (heap w')
    /\ (vlengths = ∅ -> vilengths = ∅ -> heap w' = heap w)
    /\ (covered "variants" w vlengths v -> Forall event_fits iv)
    /\ (covered "variant_impacts" w vilengths vi -> Forall event_fits ivi).
Proof.
  rewrite bind_unfold.
  destruct (_insert_trace vlengths v vilengths vi w)
    as (r & w1 & av & iv & avi & ivi & -> & Hvc & Hvic & Hih & Hh & Hsame & Hlog & Hav & Havi
        & Hbv & Hbvi & Hwv & Hwvi & Hfv & Hfvi & Hcommit & Hok).
  destruct r as [[]|e].
  - destruct (expansions_trace l w1) as (r2 & ix & -> & Hbx & Hx).
    exists r2, (add_log w1 ix), av, iv, avi, ivi, ix. simpl.
    split_and!; try done.
    + rewrite Hlog. by rewrite <- !app_assoc.
    + left. by apply Hok.
  - exists (Raise e), w1, av, iv, avi, ivi, []. rewrite !app_nil_r.
    split_and!; try done; try apply block_nil.
    destruct Hcommit as [?|[-> ->]]; [by left | by right].
Qed.

(** One call of [insert], from the transform of the pending records to
    the last expansion table. *)
Lemma insert_trace variants expanded keys i create_ w :
  match Loader.map_result (fun d => Transform.gene_info d (impacts_headers w)
                               (Loader.run_blobber self) Schema.gt_cols keys) variants with
  | Raise e => Loader.insert self variants expanded keys i create_ w = (Raise e, w)
  | Ok results =>
      exists r w' setup av iv avi ivi ix,
        Loader.insert self variants expanded keys i create_ w = (r, w')
        /\ log w' = log w ++ setup ++ av ++ iv ++ avi ++ ivi ++ ix
        /\ Forall is_setup setup /\ Forall is_alter av /\ Forall is_alter avi
        /\ Forall is_expansion ix
        /\ block iv /\ block ivi /\ block ix
        /\ (exists ws, Forall (written_by "variants" ws (map fst results)) iv)
        /\ (exists ws, Forall (written_by "variant_impacts" ws (concat (map snd results))) ivi)
        /\ (committed iv = map (pair "variants") (map fst results)
            \/ (avi = [] /\ ivi = [] /\ ix = []))
        /\ ((create_ = true -> no_arrays (map fst results)
                               /\ no_arrays (concat (map snd results))) ->
              heap_le (heap w) (heap w')
              /\ cols_evolve (variants_columns w) (variants_columns w')
              /\ cols_evolve (variant_impacts_columns w) (variant_impacts_columns w')
              /\ (create_ = true \/ String.eqb dialect_name "sqlite" = false ->
                    Forall event_fits iv /\ Forall event_fits ivi)
              /\ (create_ = false -> String.eqb dialect_name "sqlite" = true ->
                    heap w' = heap w
                    /\ variants_columns w' = variants_columns w
                    /\ variant_impacts_columns w' = variant_impacts_columns w))
  end.
Proof.
  unfold Loader.insert. rewrite bind_unfold.
  destruct (Loader.map_result _ variants) as [results|e]; [|done].
  set (v := map fst results). set (vi := concat (map snd results)).
  rewrite bind_unfold.
  destruct create_.
  - (* the first flush: schema inference and table creation *)
    rewrite bind_unfold.
    destruct (create_trace v vi w) as (r1 & w1 & setup & -> & Hlog1 & Hsetup & _ & Hcreate).
    destruct r1 as [[]|e1].
    2: { exists (Raise e1), w1, setup, [], [], [], [], []. rewrite !app_nil_r.
         split_and!; try done; try apply block_nil; try (by exists ∅).
         - by right.
         - intros Hno. destruct (Hno eq_refl) as [Hv Hvi].
           destruct (Hcreate Hv Hvi) as (? & ? & ? & _). split_and!; try done.
           all: intros _; by split. }
    unfold ret at 1. cbv beta iota. unfold fst at 1, snd at 1.
    destruct (flush_trace ∅ v ∅ vi (map_to_list expanded) w1)
      as (r & w' & av & iv & avi & ivi & ix & -> & Hlog & Hav & Havi & Hx & Hbv & Hbvi & Hbx
          & Hwv & Hwvi & Hcommit & Hvc & Hvic & Hh & _ & Hfv & Hfvi).
    exists r, w', setup, av, iv, avi, ivi, ix.
    split_and!; try done.
    + rewrite Hlog, Hlog1. by rewrite <- !app_assoc.
    + intros Hno. destruct (Hno eq_refl) as [Hv Hvi].
      destruct (Hcreate Hv Hvi) as (Hh1 & Hc1 & Hc2 & Hcov).
      destruct (Hcov eq_refl) as [Hcov1 Hcov2].
      split_and!; try done.
      * by eapply heap_le_trans.
      * by rewrite Hvc.
      * by rewrite Hvic.
      * intros _. split; [by apply Hfv | by apply Hfvi].
  - destruct (String.eqb dialect_name "sqlite") eqn:Hdialect; cbn [negb]; cbv iota.
    + (* sqlite: no column is widened *)
      unfold ret at 1. cbv beta iota. unfold fst at 1, snd at 1.
      destruct (flush_trace ∅ v ∅ vi (map_to_list expanded) w)
        as (r & w' & av & iv & avi & ivi & ix & -> & Hlog & Hav & Havi & Hx & Hbv & Hbvi & Hbx
            & Hwv & Hwvi & Hcommit & Hvc & Hvic & Hh & Hsame & _).
      exists r, w', [], av, iv, avi, ivi, ix.
      split_and!; try done.
      intros _. split_and!; try done.
      * rewrite Hvc. apply cols_evolve_refl.
      * rewrite Hvic. apply cols_evolve_refl.
      * by intros [?|?].
      * intros _ _. split_and!; try done. by apply Hsame.
    + (* another engine: the lengths are checked against the pending rows *)
      rewrite bind_unfold.
      destruct (Loader.check_for "variants" v w) as [[vl|e1] w1] eqn:Hck1.
      2: { unfold Loader.check_for in Hck1. injection Hck1 as _ <-.
           exists (Raise e1), w, [], [], [], [], [], []. rewrite !app_nil_r.
           split_and!; try done; try apply block_nil; try (by exists ∅).
           - by right.
           - intros _. split_and!; try done; try apply heap_le_refl; try apply cols_evolve_refl.
             all: intros _; by split. }
      destruct (check_for_covered _ _ _ _ _ Hck1) as [-> Hcov1].
      rewrite bind_unfold.
      destruct (Loader.check_for "variant_impacts" vi w) as [[vil|e2] w2] eqn:Hck2.
      2: { unfold Loader.check_for in Hck2. injection Hck2 as _ <-.
           exists (Raise e2), w, [], [], [], [], [], []. rewrite !app_nil_r.
           split_and!; try done; try apply block_nil; try (by exists ∅).
           - by right.
           - intros _. split_and!; try done; try apply heap_le_refl; try apply cols_evolve_refl.
             all: intros _; by split. }
      destruct (check_for_covered _ _ _ _ _ Hck2) as [-> Hcov2].
      unfold ret at 1. cbv beta iota. unfold fst at 1, snd at 1.
      destruct (flush_trace vl v vil vi (map_to_list expanded) w)
        as (r & w' & av & iv & avi & ivi & ix & -> & Hlog & Hav & Havi & Hx & Hbv & Hbvi & Hbx
            & Hwv & Hwvi & Hcommit & Hvc & Hvic & Hh & _ & Hfv & Hfvi).
      exists r, w', [], av, iv, avi, ivi, ix.
      split_and!; try done.
      intros _. split_and!; try done.
      * rewrite Hvc. apply cols_evolve_refl.
      * rewrite Hvic. apply cols_evolve_refl.
      * intros _. split; [by apply Hfv | by apply Hfvi].
Qed.

End CreateTrace.


(** ** The order of the writes of one flush *)

(** The table an insert writes to, and the rows it carries. *)
Definition target (ev : event) : option string :=
  match ev with
  | EExecute t _ _ _ | ERow t _ _ _ => Some t
  | _ => None
  end.

Definition rows_of (ev : event) : list dict :=
  match ev with
  | EExecute _ _ rows _ => rows
  | ERow _ _ row _ => [row]
  | _ => []
  end.

(** The tables by the place they have in a flush: the tables filled when
    the database is created, the primary table, the impact table, the
    expansion tables. *)
Definition stage (t : string) : nat :=
  if String.eqb t "variants" then 1
  else if String.eqb t "variant_impacts" then 2
  else if String.prefix "sample_" t then 3
  else 0.

(** No insert is followed by an insert into a table of an earlier stage. *)
Definition ordered (evs : list event) : Prop :=
  forall j k ev1 ev2 t1 t2,
    (j < k)%nat -> evs !! j = Some ev1 -> evs !! k = Some ev2 ->
    target ev1 = Some t1 -> target ev2 = Some t2 ->
    (stage t1 <= stage t2)%nat.

Definition within (lo hi : nat) (ev : event) : Prop :=
  forall t, target ev = Some t -> (lo <= stage t <= hi)%nat.

Definition staged (lo hi : nat) (evs : list event) : Prop :=
  ordered evs /\ Forall (within lo hi) evs.

Lemma staged_const n evs : Forall (within n n) evs -> staged n n evs.
Proof.
  intros Hall. split; [|done].
  intros j k ev1 ev2 t1 t2 _ Hj Hk Ht1 Ht2.
  rewrite Forall_forall in Hall.
  pose proof (Hall _ (list_elem_of_lookup_2 _ _ _ Hj) _ Ht1).
  pose proof (Hall _ (list_elem_of_lookup_2 _ _ _ Hk) _ Ht2). lia.
Qed.

Lemma staged_app lo m m' hi a b :
  (lo <= m)%nat -> (m <= m')%nat -> (m' <= hi)%nat ->
  staged lo m a -> staged m' hi b -> staged lo hi (a ++ b).
Proof.
  intros Hlo Hm Hhi [Ha Hba] [Hb Hbb]. split.
  - intros j k ev1 ev2 t1 t2 Hlt Hj Hk Ht1 Ht2.
    rewrite Forall_forall in Hba, Hbb.
    apply lookup_app_Some in Hj as [Hj|[Hja Hj]];
      apply lookup_app_Some in Hk as [Hk|[Hka Hk]].
    + by eapply (Ha j k).
    + pose proof (Hba _ (list_elem_of_lookup_2 _ _ _ Hj) _ Ht1).
      pose proof (Hbb _ (list_elem_of_lookup_2 _ _ _ Hk) _ Ht2). lia.
    + apply lookup_lt_Some in Hk. lia.
    + eapply (Hb (j - length a)%nat (k - length a)%nat); try done. lia.
  - apply Forall_app. split.
    + eapply Forall_impl; [exact Hba|]. intros ev Hw t Ht. specialize (Hw t Ht). lia.
    + eapply Forall_impl; [exact Hbb|]. intros ev Hw t Ht. specialize (Hw t Ht). lia.
Qed.

Lemma setup_within ev : is_setup ev -> within 0 0 ev.
Proof.
  destruct ev; simpl; try done. intros [[-> | ->] _] t [= <-]; by vm_compute.
Qed.

Lemma alter_within n ev : is_alter ev -> within n n ev.
Proof. by destruct ev. Qed.

Lemma written_by_within table ws objs ev :
  written_by table ws objs ev -> within (stage table) (stage table) ev.
Proof.
  destruct ev; simpl; try done.
  - intros (-> & _) t [= <-]. lia.
  - intros (-> & _) t [= <-]. lia.
Qed.

Lemma stage_sample k : stage ("sample_" +:+ k) = 3%nat.
Proof. by destruct k. Qed.

Lemma expansion_within ev : is_expansion ev -> within 3 3 ev.
Proof.
  intros (k & rows & Hw). apply written_by_within in Hw. by rewrite stage_sample in Hw.
Qed.

(** A committed row was carried by one of the inserts. *)
Lemma committed_go_elem evs : forall p t row,
  (t, row) ∈ committed_go p evs ->
  (t, row) ∈ default [] p
  \/ exists ev, ev ∈ evs /\ target ev = Some t /\ row ∈ rows_of ev.
Proof.
  assert (Hlift : forall (ev : event) (rest : list event) (t : string) (row : dict) X,
    (X \/ exists ev', ev' ∈ rest /\ target ev' = Some t /\ row ∈ rows_of ev') ->
    X \/ exists ev', ev' ∈ ev :: rest /\ target ev' = Some t /\ row ∈ rows_of ev').
  { intros ev rest t row X [HX|(ev' & Hin & Ht & Hr)]; [by left|].
    right. exists ev'. split; [by apply list_elem_of_further|done]. }
  induction evs as [|ev rest IH]; intros p t row Hin.
  { simpl in Hin. by apply elem_of_nil in Hin. }
  destruct ev as [tb|tb ws|tb c n|tb ws rows ok| |tb ws r ok| |]; simpl in Hin.
  - by apply Hlift, IH.
  - by apply Hlift, IH.
  - by apply Hlift, IH.
  - destruct ok; [|by apply Hlift, IH].
    destruct p as [p|].
    + apply IH in Hin as [Hin|Hin]; [|by apply Hlift; right].
      simpl in Hin. apply elem_of_app in Hin as [Hin|Hin]; [by left|].
      right. exists (EExecute tb ws rows true). split; [apply list_elem_of_here|].
      apply list_elem_of_fmap in Hin as (row' & [= -> ->] & Hrow). by split.
    + apply elem_of_app in Hin as [Hin|Hin].
      * right. exists (EExecute tb ws rows true). split; [apply list_elem_of_here|].
        apply list_elem_of_fmap in Hin as (row' & [= -> ->] & Hrow). by split.
      * by apply Hlift, IH.
  - apply IH in Hin as [Hin|Hin]; [|by apply Hlift; right].
    simpl in Hin. by apply elem_of_nil in Hin.
  - destruct ok; [|by apply Hlift, IH].
    destruct p as [p|].
    + apply IH in Hin as [Hin|Hin]; [|by apply Hlift; right].
      simpl in Hin. apply elem_of_app in Hin as [Hin|Hin]; [by left|].
      right. exists (ERow tb ws r true). split; [apply list_elem_of_here|].
      apply list_elem_of_singleton in Hin as [= -> ->]. split; [done|]. apply list_elem_of_here.
    + apply elem_of_cons in Hin as [Hin|Hin].
      * right. exists (ERow tb ws r true). split; [apply list_elem_of_here|].
        injection Hin as -> ->. split; [done|]. apply list_elem_of_here.
      * by apply Hlift, IH.
  - apply elem_of_app in Hin as [Hin|Hin]; [by left|].
    apply IH in Hin as [Hin|Hin]; [|by apply Hlift; right].
    simpl in Hin. by apply elem_of_nil in Hin.
  - apply IH in Hin as [Hin|Hin]; [|by apply Hlift; right].
    simpl in Hin. by apply elem_of_nil in Hin.
Qed.

Lemma committed_elem evs t row :
  (t, row) ∈ committed evs ->
  exists ev, ev ∈ evs /\ target ev = Some t /\ row ∈ rows_of ev.
Proof.
  intros Hin. apply committed_go_elem in Hin as [Hin|Hin]; [|done].
  simpl in Hin. by apply elem_of_nil in Hin.
Qed.

Lemma committed_within lo hi evs t row :
  Forall (within lo hi) evs -> (t, row) ∈ committed evs -> (lo <= stage t <= hi)%nat.
Proof.
  intros Hall Hin. apply committed_elem in Hin as (ev & Hev & Ht & _).
  rewrite Forall_forall in Hall. by apply (Hall ev Hev).
Qed.

Lemma committed_written table ws objs evs t row :
  Forall (written_by table ws objs) evs -> (t, row) ∈ committed evs -> row ∈ objs.
Proof.
  intros Hall Hin. apply committed_elem in Hin as (ev & Hev & Ht & Hrow).
  rewrite Forall_forall in Hall. specialize (Hall ev Hev).
  destruct ev; simpl in *; try done.
  - destruct Hall as (_ & _ & Hsub). by apply Hsub.
  - destruct Hall as (_ & _ & Hr). by apply list_elem_of_singleton in Hrow as ->.
Qed.

Lemma map_result_elem {A B} (f : A -> result B) l : forall ys y,
  Loader.map_result f l = Ok ys -> y ∈ ys -> exists x, x ∈ l /\ f x = Ok y.
Proof.
  induction l as [|x rest IH]; intros ys y; simpl.
  - intros [= <-] Hy. by apply elem_of_nil in Hy.
  - destruct (f x) as [y0|] eqn:Hfx; simpl; [|done].
    destruct (Loader.map_result f rest) as [ys0|]; simpl; [|done].
    intros [= <-] Hy. apply elem_of_cons in Hy as [->|Hy].
    + exists x. split; [apply list_elem_of_here|done].
    + destruct (IH ys0 y eq_refl Hy) as (x' & Hx' & Hf).
      exists x'. split; [by apply list_elem_of_further|done].
Qed.

Lemma impact_row_variant_id vid e :
  Transform.impact_row vid e !! "variant_id" = Some vid.
Proof. unfold Transform.impact_row. simpl. by rewrite lookup_insert_eq. Qed.

Section Order.
Context `{Printers} `{Primitives} `{Annotations} `{Engine}.
Variable self : Loader.settings.

(** C3. In every flush the inserts follow the stages: the primary table,
    retries included, then the impact table, then the expansion tables; no
    insert goes back to a table of an earlier stage.  Every impact row that
    the flush commits is preceded, among the rows the flush commits, by a
    primary row with the same [variant_id]. *)
Theorem primary_rows_precede_impact_rows variants expanded keys i create_ w :
  exists evs,
    log (Loader.insert self variants expanded keys i create_ w).2 = log w ++ evs
    /\ ordered evs
    /\ forall before row after,
         committed evs = before ++ ("variant_impacts", row) :: after ->
         exists vid primary,
           row !! "variant_id" = Some vid
           /\ primary !! "variant_id" = Some vid
           /\ ("variants", primary) ∈ before.
Proof.
  pose proof (insert_trace self variants expanded keys i create_ w) as Htrace.
  destruct (Loader.map_result _ variants) as [results|e] eqn:Hres.
  2: { rewrite Htrace. exists []. rewrite app_nil_r. split_and!; try done.
       intros before row after Heq. by destruct before. }
  destruct Htrace as (r & w' & setup & av & iv & avi & ivi & ix & -> & Hlog & Hsetup & Hav
                      & Havi & Hx & Hbv & Hbvi & Hbx & [wsv Hwv] & [wsvi Hwvi] & Hcommit & _).
  exists (setup ++ av ++ iv ++ avi ++ ivi ++ ix). split; [done|].
  assert (Hsv : Forall (within 1 1) iv).
  { eapply Forall_impl; [exact Hwv|]. intros ev Hev. by apply written_by_within in Hev. }
  assert (Hsvi : Forall (within 2 2) ivi).
  { eapply Forall_impl; [exact Hwvi|]. intros ev Hev. by apply written_by_within in Hev. }
  assert (Hsx : Forall (within 3 3) ix).
  { eapply Forall_impl; [exact Hx|]. apply expansion_within. }
  assert (Hs0 : Forall (within 0 0) setup).
  { eapply Forall_impl; [exact Hsetup|]. apply setup_within. }
  split.
  - (* the order of the inserts *)
    assert (Hstaged : staged 0 3 (setup ++ av ++ iv ++ avi ++ ivi ++ ix)); [|by destruct Hstaged].
    apply (staged_app 0 0 1 3); [lia..|by apply staged_const|].
    apply (staged_app 1 1 1 3); [lia..| |].
    { apply staged_const. eapply Forall_impl; [exact Hav|]. apply alter_within. }
    apply (staged_app 1 1 2 3); [lia..|by apply staged_const|].
    apply (staged_app 2 2 2 3); [lia..| |].
    { apply staged_const. eapply Forall_impl; [exact Havi|]. apply alter_within. }
    apply (staged_app 2 2 3 3); [lia..|by apply staged_const|by apply staged_const].
  - (* the primary row of a committed impact row *)
    intros before row after Heq.
    assert (Hbs : block setup) by by apply setup_block.
    assert (Hba : forall l, Forall is_alter l -> block l /\ committed l = []).
    { intros l Hl. split.
      - apply block_plain. eapply Forall_impl; [exact Hl|]. intros ev. by destruct ev.
      - destruct (committed l) as [|[t0 row0] rest] eqn:Hc; [done|].
        assert (Hin : (t0, row0) ∈ committed l) by (rewrite Hc; apply list_elem_of_here).
        apply committed_elem in Hin as (ev & Hev & Ht & _).
        rewrite Forall_forall in Hl. specialize (Hl ev Hev). by destruct ev. }
    destruct (Hba av Hav) as [Hbav Hcav]. destruct (Hba avi Havi) as [Hbavi Hcavi].
    rewrite (committed_app setup) in Heq by done.
    rewrite (committed_app av) in Heq by done.
    rewrite (committed_app iv) in Heq by done.
    rewrite (committed_app avi) in Heq by done.
    rewrite (committed_app ivi) in Heq by done.
    rewrite Hcav, Hcavi in Heq. simpl in Heq.
    rewrite (app_assoc (committed setup)) in Heq.
    (* the impact row is not among the rows of the earlier stages *)
    assert (Hearly : ("variant_impacts", row) ∉ committed setup ++ committed iv).
    { intros Hin. apply elem_of_app in Hin as [Hin|Hin].
      - pose proof (committed_within _ _ _ _ _ Hs0 Hin) as Hst. vm_compute in Hst. lia.
      - pose proof (committed_within _ _ _ _ _ Hsv Hin) as Hst. vm_compute in Hst. lia. }
    assert (Hlate : ("variant_impacts", row) ∉ committed ix).
    { intros Hin.
      pose proof (committed_within _ _ _ _ _ Hsx Hin) as Hst. vm_compute in Hst. lia. }
    (* its primary row is among the committed rows of the primary table *)
    assert (Hfk : ("variant_impacts", row) ∈ committed ivi ++ committed ix ->
                  exists vid primary,
                    row !! "variant_id" = Some vid
                    /\ primary !! "variant_id" = Some vid
                    /\ ("variants", primary) ∈ committed iv).
    { intros Hin. apply elem_of_app in Hin as [Hin|Hin]; [|done].
      destruct Hcommit as [Hcommit|(_ & -> & _)]; [|by apply elem_of_nil in Hin].
      pose proof (committed_written _ _ _ _ _ _ Hwvi Hin) as Hrow.
      apply list_elem_of_In, in_concat in Hrow as (gimps & Hg & Hrow).
      apply list_elem_of_In, list_elem_of_fmap in Hg as ([primary gimps'] & Hsnd & Hpair).
      simpl in Hsnd. subst gimps'. apply list_elem_of_In in Hrow.
      destruct (map_result_elem _ _ _ _ Hres Hpair) as (d & _ & Hgi).
      destruct (gene_info_inv _ _ _ _ _ _ _ Hgi) as (_ & impacts & _ & _ & _ & _ & _ & _ & Himp).
      destruct Himp as [[_ ->]|(vid & Hvid & Hgimps)]; [by apply elem_of_nil in Hrow|].
      rewrite Hgimps in Hrow. apply list_elem_of_fmap in Hrow as (e & -> & _).
      exists vid, primary. split; [apply impact_row_variant_id|]. split; [done|].
      rewrite Hcommit. apply list_elem_of_fmap. exists primary. split; [done|].
      apply list_elem_of_fmap. by exists (primary, gimps). }
    symmetry in Heq. apply app_eq_app in Heq as [l [[Hbefore Hrest]|[Hearlier Hrest]]].
    + (* the row comes after all the rows of the earlier stages *)
      destruct Hfk as (vid & primary & Hv & Hp & Hin).
      { rewrite Hrest. apply elem_of_app. right. apply list_elem_of_here. }
      exists vid, primary. split_and!; try done.
      rewrite Hbefore. apply elem_of_app. left. apply elem_of_app. by right.
    + destruct l as [|x l].
      * simpl in Hrest. rewrite app_nil_r in Hearlier.
        destruct Hfk as (vid & primary & Hv & Hp & Hin).
        { rewrite <- Hrest. apply list_elem_of_here. }
        exists vid, primary. split_and!; try done.
        rewrite <- Hearlier. apply elem_of_app. by right.
      * injection Hrest as <- _. exfalso. apply Hearly. rewrite Hearlier.
        apply elem_of_app. right. apply list_elem_of_here.
Qed.

End Order.


(** ** The widths over a flush *)


(** ** The lengths the database has been told *)

(** What a statement changes in the lengths that the database holds for
    the [String] columns of [table]: [CREATE TABLE] sets them, [ALTER
    TABLE] changes the one of its column, [DROP TABLE] forgets them. *)
Definition told_step (table : string) (ws : gmap string Z) (ev : event) : gmap string Z :=
  match ev with
  | EDrop t => if String.eqb t table then ∅ else ws
  | ECreate t ws' => if String.eqb t table then ws' else ws
  | EAlter t c n => if String.eqb t table then <[c := n]> ws else ws
  | _ => ws
  end.

Definition told (table : string) (ws : gmap string Z) (evs : list event) : gmap string Z :=
  foldl (told_step table) ws evs.

(** Starting with the lengths [ws] for [table], no insert into [table]
    among [evs] carries a string longer than the length the database holds
    for its column when the insert arrives. *)
Fixpoint fits_told (table : string) (ws : gmap string Z) (evs : list event) : Prop :=
  match evs with
  | [] => True
  | ev :: rest =>
      match ev with
      | EExecute t _ rows _ => t = table -> Forall (row_fits ws) rows
      | ERow t _ row _ => t = table -> row_fits ws row
      | _ => True
      end
      /\ fits_told table (told_step table ws ev) rest
  end.

(** Every insert into [table] among [evs] was sent while the program held
    for the columns the lengths that the database had been told. *)
Fixpoint as_told (table : string) (ws : gmap string Z) (evs : list event) : Prop :=
  match evs with
  | [] => True
  | ev :: rest =>
      match ev with
      | EExecute t ws' _ _ | ERow t ws' _ _ => t = table -> ws' = ws
      | _ => True
      end
      /\ as_told table (told_step table ws ev) rest
  end.






(** Inserts that carry the lengths [ws0], and statements on transactions. *)
Lemma written_told table table0 ws0 objs ws evs :
  Forall (written_by table0 ws0 objs) evs ->
  (table0 = table -> ws0 = ws) ->
  as_told table ws evs /\ told table ws evs = ws.
Proof.
  intros Hall Hws. revert Hall. induction evs as [|ev evs IH]; intros Hall; [done|].
  apply Forall_cons in Hall as [Hev Hall]. destruct (IH Hall) as [Ha Ht].
  assert (Hstep : told_step table ws ev = ws) by (by destruct ev).
  simpl. unfold told. simpl. rewrite Hstep. split; [|done]. split; [|done].
  destruct ev; simpl in *; try done.
  - destruct Hev as (-> & -> & _). done.
  - destruct Hev as (-> & -> & _). done.
Qed.

(** ** Length objects and names *)






Section Told.
Context `{Engine}.
Variables vc vic : list Column.
Hypothesis separate : NoDup (omap string_ref (vc ++ vic)).

(** The two tables whose [String] lengths the loader follows. *)
Definition tracked (t : string) : Prop := t = "variants" \/ t = "variant_impacts".

Definition stable (w : world) : Prop :=
  variants_columns w = vc /\ variant_impacts_columns w = vic.



(** From a world with the columns [vc] and [vic], the computation [m]
    keeps the columns, sends every insert into a followed table with the
    lengths that the database has been told, and tells the database every
    length it changes. *)
Definition told_safe {A} (m : M A) : Prop :=
  forall w, stable w ->
    exists evs,
      log (m w).2 = log w ++ evs /\ stable (m w).2
      /\ forall t, tracked t ->
           as_told t (widths_of t w) evs
           /\ told t (widths_of t w) evs = widths_of t (m w).2.

Lemma told_safe_still {A} (m : M A) :
  (forall w, exists r, m w = (r, w)) -> told_safe m.
Proof.
  intros Hm w Hw. destruct (Hm w) as [r ->]. exists []. simpl.
  rewrite app_nil_r. split; [done|]. split; [done|]. by intros t _.
Qed.



Lemma told_safe_lift {A} (r : result A) : told_safe (lift r).
Proof. apply told_safe_still. intros w. by eexists. Qed.






(** A statement about a transaction, or an insert that carries the lengths
    of its table as they are. *)
Lemma told_safe_emit (mk : world -> event) :
  (forall w, match mk w with
             | EBegin | ECommit | EAbort => True
             | EExecute t ws _ _ | ERow t ws _ _ => ws = widths_of t w
             | _ => False
             end) ->
  told_safe (fun w => emit (mk w) w).
Proof.
  intros Hmk w Hw. exists [mk w]. simpl. split; [done|]. split; [done|].
  intros t Ht. specialize (Hmk w). unfold told. simpl.
  change (widths_of t (emit (mk w) w).2) with (widths_of t w).
  destruct (mk w); simpl; try done.
  - split; [|done]. split; [|done]. by intros ->.
  - split; [|done]. split; [|done]. by intros ->.
Qed.















End Told.














Section ToldCreate.
Context `{Printers} `{Primitives} `{Annotations} `{Engine}.
Variable self : Loader.settings.






End ToldCreate.


Lemma evolve_names cs cs' : cols_evolve cs cs' -> map name cs' = map name cs.
Proof.
  unfold cols_evolve. induction 1 as [|c c' l l' [Hn Ht] Hev IH]; simpl; [done|].
  by rewrite Hn, IH.
Qed.


Section FlushTold.
Context `{Printers} `{Primitives} `{Annotations} `{Engine}.
Variable self : Loader.settings.



End FlushTold.

(** *** A run on concrete records *)

Definition no_arraysb (dicts : list dict) : bool :=
  forallb (fun d : dict => forallb (fun kv => negb (is_array kv.2)) (map_to_list d)) dicts.

Lemma no_arraysb_spec dicts : no_arraysb dicts = true -> no_arrays dicts.
Proof.
  unfold no_arraysb, no_arrays. rewrite forallb_forall. intros Hall.
  apply Forall_forall. intros d Hd k v Hkv.
  apply list_elem_of_In, Hall in Hd. rewrite forallb_forall in Hd.
  apply elem_of_map_to_list, list_elem_of_In, Hd in Hkv. simpl in Hkv.
  by apply negb_true_iff in Hkv.
Qed.

(** An insert that carries a string longer than the length of its column. *)
Definition row_exceeds (ws : gmap string Z) (row : dict) : bool :=
  existsb (fun '(nm, wd) => match row !! nm with
                            | Some (VStr s) => wd <? PyStr.len s
                            | _ => false
                            end) (map_to_list ws).

Definition exceeds (ev : event) : bool :=
  match ev with
  | EExecute _ ws rows _ => existsb (row_exceeds ws) rows
  | ERow _ ws row _ => row_exceeds ws row
  | _ => false
  end.

Lemma row_exceeds_spec ws row : row_exceeds ws row = true -> ~ row_fits ws row.
Proof.
  unfold row_exceeds. rewrite existsb_exists. intros ([nm wd] & Hin & Hlt) Hfit.
  apply list_elem_of_In, elem_of_map_to_list in Hin.
  destruct (row !! nm) as [[| | | |s|]|] eqn:Hrow; try done.
  apply Z.ltb_lt in Hlt. specialize (Hfit nm wd s Hin Hrow). lia.
Qed.

Lemma exceeds_spec ev : exceeds ev = true -> ~ event_fits ev.
Proof.
  destruct ev; simpl; try done.
  - rewrite existsb_exists. intros (row & Hin & Hex) Hfit.
    rewrite Forall_forall in Hfit. apply (row_exceeds_spec _ _ Hex).
    by apply Hfit, list_elem_of_In.
  - apply row_exceeds_spec.
Qed.

(** The columns as [__init__] declares them for a header without [##INFO]
    lines. *)
Definition declared_world : world :=
  match Loader.create_columns [] [] with
  | Ok w => w
  | Raise _ => empty_world
  end.

(** A record on the contig [chrom], and the dictionary [_load] builds for
    it at position [i]. *)
Definition record_on (chrom : string) : Loader.RawRecord :=
  Loader.mkRawRecord ∅ ∅ (VStr chrom) (VInt 100) (VInt 101) (VStr "A") ["T"]
    VNone VNone VNone (VStr "snp") (VStr "ts") VNone VNone VNone VNone VNone.

Definition built (chrom : string) (i : Z) : dict :=
  match @Loader.build_d plain_settings (record_on chrom) i with
  | Ok d => d
  | Raise _ => ∅
  end.

(** The flush of a one-record prefix, and a later flush of one record. *)
Definition flush_prefix (E : Engine) (chrom : string) : M unit :=
  @Loader.insert plain_printers plain_primitives plain_annotations E plain_settings
    [built chrom 1] ∅ (dom (built chrom 1)) 1 true.

Definition flush_batch (E : Engine) (chrom : string) : M unit :=
  @Loader.insert plain_printers plain_primitives plain_annotations E plain_settings
    [built chrom 2] ∅ (dom (built chrom 2)) 2 false.



(** The world after the flush of a one-record prefix on [chr1] on
    PostgreSQL. *)
Definition after_prefix_pg : world :=
  (flush_prefix (accept_all "postgresql") "chr1" declared_world).2.




(** In that flush the loader asks for the 22 characters of the contig name
    before it inserts the row. *)
Example pg_batch_alters :
  drop (length (log after_prefix_pg))
       (log (flush_batch (accept_all "postgresql") "chr1_KI270706v1_random"
               after_prefix_pg).2)
  = [EAlter "variants" "chrom" 22;
     EExecute "variants"
       (widths_of "variants"
          (flush_batch (accept_all "postgresql") "chr1_KI270706v1_random" after_prefix_pg).2)
       [match @Transform.gene_info plain_annotations (built "chr1_KI270706v1_random" 2)
                (impacts_headers after_prefix_pg)
                (@Loader.run_blobber plain_primitives plain_settings) Schema.gt_cols
                (dom (built "chr1_KI270706v1_random" 2)) with
        | Ok (row, _) => row
        | Raise _ => ∅
        end] true;
     EExecute "variant_impacts"
       (widths_of "variant_impacts" after_prefix_pg) [] true].
Proof. vm_compute. reflexivity. Qed.

(** The events of a one-record batch on sqlite whose contig name has 22
    characters, after the flush of a one-record prefix on [chr1]. *)
Definition after_prefix : world :=
  (flush_prefix (accept_all "sqlite") "chr1" declared_world).2.

Definition after_batch : world :=
  (flush_batch (accept_all "sqlite") "chr1_KI270706v1_random" after_prefix).2.

Definition batch_events : list event :=
  drop (length (log after_prefix)) (log after_batch).

(** C1, as stated, fails: on sqlite the flush of a later batch inserts a
    22-character [chrom] while the column still has the length 10 that it
    was declared with; the lengths are the same after the flush. *)
Lemma sqlite_batch_exceeds_width :
  (flush_prefix (accept_all "sqlite") "chr1" declared_world).1 = Ok tt
  /\ (flush_batch (accept_all "sqlite") "chr1_KI270706v1_random" after_prefix).1 = Ok tt
  /\ widths_of "variants" after_prefix !! "chrom" = Some 10
  /\ widths_of "variants" after_batch !! "chrom" = Some 10
  /\ exists ws row ok,
       EExecute "variants" ws [row] ok ∈ batch_events
       /\ ws !! "chrom" = Some 10
       /\ row !! "chrom" = Some (VStr "chr1_KI270706v1_random")
       /\ PyStr.len "chr1_KI270706v1_random" = 22
       /\ ~ event_fits (EExecute "variants" ws [row] ok).
Proof.
  split; [vm_compute; reflexivity|].
  split; [vm_compute; reflexivity|].
  split; [vm_compute; reflexivity|].
  split; [vm_compute; reflexivity|].
  assert (Hb : match batch_events with
               | EExecute t ws [row] ok :: _ =>
                   String.eqb t "variants"
                   && match ws !! "chrom" with Some n => n =? 10 | None => false end
                   && match row !! "chrom" with
                      | Some (VStr s) => String.eqb s "chr1_KI270706v1_random"
                      | _ => false
                      end
                   && exceeds (EExecute t ws [row] ok)
               | _ => false
               end = true) by (vm_compute; reflexivity).
  destruct batch_events as [|ev rest]; [discriminate Hb|].
  destruct ev as [| | |t ws rows ok| | | |]; try discriminate Hb.
  destruct rows as [|row rows]; [discriminate Hb|].
  destruct rows; [|discriminate Hb].
  apply andb_prop in Hb as [Hb Hex]. apply andb_prop in Hb as [Hb Hrow].
  apply andb_prop in Hb as [Ht Hws].
  apply String.eqb_eq in Ht. subst t.
  exists ws, row, ok. split; [apply list_elem_of_here|].
  split.
  { destruct (ws !! "chrom") as [n|]; [|discriminate Hws].
    apply Z.eqb_eq in Hws. by rewrite Hws. }
  split.
  { destruct (row !! "chrom") as [[| | | |s|]|]; try discriminate Hrow.
    apply String.eqb_eq in Hrow. by rewrite Hrow. }
  split; [reflexivity|].
  by apply exceeds_spec.
Qed.


(** ** Schema inference: the lengths after the scan of the prefix *)

Section InferenceFacts.
Context `{Printers}.

(** A turn of the scan changes the one length it scans for; the new
    length is [int(1.2 * len + 0.5)] of the value of the row. *)
Lemma scan_row_origin nm r (d : dict) heap res heap' r' :
  (forall v, d !! nm = Some v -> is_array v = false) ->
  Schema.scan_row nm r d heap = (res, heap') ->
  heap' !!! r' = heap !!! r'
  \/ (r' = r /\ exists s, d !! nm = Some (VStr s)
                          /\ heap' !!! r = Schema.grow (PyStr.len s)).
Proof.
  intros Hplain. destruct res as [b|e].
  - intros Hs.
    destruct (scan_row_spec _ _ _ _ _ _ Hplain Hs) as (_ & _ & [->|(s & Hd & _ & ->)]).
    + by left.
    + destruct (decide (r = r')) as [->|Hne].
      * right. split; [done|]. exists s. by rewrite lookup_total_insert_eq.
      * left. by rewrite lookup_total_insert_ne.
  - intros Hs. apply scan_row_raise in Hs as ->. by left.
Qed.

Lemma scan_col_origin nm r (dicts : list dict) heap res heap' r' :
  plain_at nm dicts ->
  Schema.scan_col nm r dicts heap = (res, heap') ->
  heap' !!! r' = heap !!! r'
  \/ (r' = r /\ exists d s, d ∈ dicts /\ d !! nm = Some (VStr s)
                            /\ heap' !!! r = Schema.grow (PyStr.len s)).
Proof.
  revert heap. induction dicts as [|d rest IH]; intros heap Hplain; simpl.
  { intros [= <- <-]. by left. }
  apply Forall_cons in Hplain as [Hd Hrest].
  destruct (Schema.scan_row nm r d heap) as [[[|]|e] heap1] eqn:Hrow.
  - intros [= <- <-].
    destruct (scan_row_origin _ _ _ _ _ _ r' Hd Hrow) as [?|(-> & s & Hs & Hg)]; [by left|].
    right. split; [done|]. exists d, s. split; [apply list_elem_of_here | done].
  - intros Hscan.
    destruct (IH _ Hrest Hscan) as [Hsame|(-> & d' & s & Hin & Hs & Hg)].
    + rewrite Hsame.
      destruct (scan_row_origin _ _ _ _ _ _ r' Hd Hrow) as [?|(-> & s & Hs & Hg)]; [by left|].
      right. split; [done|]. exists d, s. rewrite Hsame.
      split; [apply list_elem_of_here | done].
    + right. split; [done|]. exists d', s. split; [by apply list_elem_of_further | done].
  - intros [= <- <-].
    destruct (scan_row_origin _ _ _ _ _ _ r' Hd Hrow) as [?|(-> & s & Hs & Hg)]; [by left|].
    right. split; [done|]. exists d, s. split; [apply list_elem_of_here | done].
Qed.

Lemma scan_col_frame nm r (dicts : list dict) heap res heap' r' :
  plain_at nm dicts -> r' <> r ->
  Schema.scan_col nm r dicts heap = (res, heap') -> heap' !!! r' = heap !!! r'.
Proof.
  intros Hplain Hne Hscan.
  by destruct (scan_col_origin _ _ _ _ _ _ r' Hplain Hscan) as [?|[? _]].
Qed.

(** A column that has become [TEXT] is no [String] any more. *)
Lemma alter_string_ref (columns : list Column) i0 i r :
  alter (fun c => mkColumn (name c) TEXT) i0 columns !! i ≫= string_ref = Some r ->
  i <> i0 /\ columns !! i ≫= string_ref = Some r.
Proof.
  rewrite list_lookup_alter. destruct (decide (i0 = i)) as [->|Hne].
  - destruct (columns !! i); simpl; done.
  - intros Hr. by split.
Qed.

(** Where the lengths after [_create] come from: a length is the one the
    column was declared with, or [int(1.2 * len + 0.5)] of one value of the
    prefix under a column that shares the length. *)
Lemma create_go_origin dicts cols excl heap columns res heap' columns' r :
  no_arrays dicts ->
  Schema._create_go dicts cols excl heap columns = (res, (heap', columns')) ->
  heap' !!! r = heap !!! r
  \/ exists nm i d s, (nm, i) ∈ cols /\ columns !! i ≫= string_ref = Some r
                      /\ d ∈ dicts /\ d !! nm = Some (VStr s)
                      /\ heap' !!! r = Schema.grow (PyStr.len s).
Proof.
  intros Hno. revert excl heap columns.
  induction cols as [|[nm0 i0] rest IH]; intros excl heap columns; simpl.
  { intros [= <- <- <-]. by left. }
  assert (Hlater : forall excl1 heap1,
    (heap1 !!! r = heap !!! r
     \/ (r = r /\ columns !! i0 ≫= string_ref = Some r
         /\ exists d s, d ∈ dicts /\ d !! nm0 = Some (VStr s)
                        /\ heap1 !!! r = Schema.grow (PyStr.len s))) ->
    forall columns1,
    (forall i, columns1 !! i ≫= string_ref = Some r -> columns !! i ≫= string_ref = Some r) ->
    Schema._create_go dicts rest excl1 heap1 columns1 = (res, (heap', columns')) ->
    heap' !!! r = heap !!! r
    \/ exists nm i d s, (nm, i) ∈ (nm0, i0) :: rest /\ columns !! i ≫= string_ref = Some r
                        /\ d ∈ dicts /\ d !! nm = Some (VStr s)
                        /\ heap' !!! r = Schema.grow (PyStr.len s)).
  { intros excl1 heap1 Hfirst columns1 Hcols Hgo.
    destruct (IH _ _ _ Hgo) as [Hsame|(nm & i & d & s & Hin & Hr & Hd & Hs & Hg)].
    - rewrite Hsame. destruct Hfirst as [?|(_ & Hr0 & d & s & Hd & Hs & Hg)]; [by left|].
      right. exists nm0, i0, d, s. split_and!; try done. apply list_elem_of_here.
    - right. exists nm, i, d, s. split_and!; try done; [by apply list_elem_of_further|].
      by apply Hcols. }
  destruct (decide (nm0 ∈ excl)).
  { apply Hlater; [by left | done]. }
  destruct (columns !! i0 ≫= string_ref) as [r0|] eqn:Hr0.
  2: { intros [= <- <- <-]. by left. }
  destruct (Schema.scan_col nm0 r0 dicts heap) as [[[|]|e] heap1] eqn:Hscan.
  - apply Hlater.
    + destruct (scan_col_origin _ _ _ _ _ _ r (no_arrays_plain_at nm0 _ Hno) Hscan)
        as [?|(-> & Hrest)]; [by left | by right].
    + intros i Hi. by apply alter_string_ref in Hi as [_ Hi].
  - apply Hlater; [|done].
    destruct (scan_col_origin _ _ _ _ _ _ r (no_arrays_plain_at nm0 _ Hno) Hscan)
      as [?|(-> & Hrest)]; [by left | by right].
  - intros [= <- <- <-].
    destruct (scan_col_origin _ _ _ _ _ _ r (no_arrays_plain_at nm0 _ Hno) Hscan)
      as [?|(-> & d & s & Hd & Hs & Hg)]; [by left|].
    right. exists nm0, i0, d, s. split_and!; try done. apply list_elem_of_here.
Qed.

(** The scans of columns that do not share the length [r] leave it. *)
Lemma create_go_frame dicts cols excl heap columns res heap' columns' r :
  no_arrays dicts ->
  (forall nm i, (nm, i) ∈ cols -> columns !! i ≫= string_ref <> Some r) ->
  Schema._create_go dicts cols excl heap columns = (res, (heap', columns')) ->
  heap' !!! r = heap !!! r.
Proof.
  intros Hno Hfree Hgo.
  destruct (create_go_origin _ _ _ _ _ _ _ _ r Hno Hgo)
    as [?|(nm & i & _ & _ & Hin & Hr & _)]; [done|].
  by destruct (Hfree nm i Hin).
Qed.

(** A column that [_create] turns into [TEXT] had a length above 48. *)
Lemma create_go_text dicts cols excl heap columns heap' columns' res i c r c' :
  no_arrays dicts ->
  Schema._create_go dicts cols excl heap columns = (res, (heap', columns')) ->
  columns !! i = Some c -> string_ref c = Some r ->
  columns' !! i = Some c' -> type c' = TEXT ->
  48 < heap' !!! r.
Proof.
  intros Hno. revert excl heap columns.
  induction cols as [|[nm0 i0] rest IH]; intros excl heap columns; simpl.
  { intros [= <- <- <-] Hc Hr Hc' Ht. rewrite Hc in Hc'. injection Hc' as <-.
    unfold string_ref in Hr. by rewrite Ht in Hr. }
  destruct (decide (nm0 ∈ excl)); [apply IH|].
  destruct (columns !! i0 ≫= string_ref) as [r0|] eqn:Hr0.
  2: { intros [= <- <- <-] Hc Hr Hc' Ht. rewrite Hc in Hc'. injection Hc' as <-.
       unfold string_ref in Hr. by rewrite Ht in Hr. }
  destruct (Schema.scan_col nm0 r0 dicts heap) as [[[|]|e] heap1] eqn:Hscan.
  - intros Hgo Hc Hr Hc' Ht.
    destruct (decide (i = i0)) as [->|Hne].
    + rewrite Hc in Hr0. simpl in Hr0. rewrite Hr in Hr0. injection Hr0 as <-.
      destruct (scan_col_spec nm0 r dicts heap true heap1) as (_ & Hpassed & _);
        [by apply no_arrays_plain_at | done |].
      destruct (create_go_mono _ _ _ _ _ _ _ _ Hno Hgo) as [Hle _].
      specialize (Hle r). specialize (Hpassed eq_refl). lia.
    + eapply (IH _ _ _ Hgo); [|done..].
      rewrite list_lookup_alter, decide_False by done. done.
  - intros Hgo. by apply (IH _ _ _ Hgo).
  - intros [= <- <- <-] Hc Hr Hc' Ht. rewrite Hc in Hc'. injection Hc' as <-.
    unfold string_ref in Hr. by rewrite Ht in Hr.
Qed.

(** What [_create] does to one column of its dictionary. *)
Lemma create_go_column dicts cols excl heap columns heap' columns' nm i :
  no_arrays dicts -> NoDup cols.*1 -> (nm, i) ∈ cols -> nm ∉ excl ->
  Schema._create_go dicts cols excl heap columns = (Ok tt, (heap', columns')) ->
  exists c c' r,
    columns !! i = Some c /\ string_ref c = Some r
    /\ columns' !! i = Some c' /\ name c' = name c
    /\ ((type c' = type c
         /\ Forall (fun d => shown_length nm d <= heap' !!! r) dicts
         /\ (dicts <> [] ->
             (forall nm0 i0, (nm0, i0) ∈ cols -> nm0 <> nm ->
                columns !! i0 ≫= string_ref <> Some r) ->
             heap' !!! r <= 48))
        \/ (type c' = TEXT /\ 48 < heap' !!! r)).
Proof.
  intros Hno. revert excl heap columns.
  induction cols as [|[nm0 i0] rest IH]; intros excl heap columns Hnd Hin Hex; simpl.
  { by apply elem_of_nil in Hin. }
  rewrite fmap_cons in Hnd. apply NoDup_cons in Hnd as [Hfresh Hnd]. simpl in Hfresh.
  apply elem_of_cons in Hin as [[= <- <-]|Hin].
  - (* the column that is scanned now *)
    rewrite decide_False by done.
    destruct (columns !! i ≫= string_ref) as [r|] eqn:Hr; [|done].
    apply bind_Some in Hr as (c & Hc & Hcr).
    assert (Hothers : forall nm0 i0, (nm0, i0) ∈ rest -> nm0 <> nm).
    { intros nm0 i0 Hin0 ->. apply Hfresh. apply list_elem_of_fmap. by exists (nm, i0). }
    destruct (Schema.scan_col nm r dicts heap) as [[[|]|e] heap1] eqn:Hscan; [| |done].
    + intros Hgo.
      destruct (create_go_mono _ _ _ _ _ _ _ _ Hno Hgo) as [Hle Hev].
      destruct (scan_col_spec nm r dicts heap true heap1) as (_ & Hpassed & _);
        [by apply no_arrays_plain_at | done |].
      assert (Halt : alter (fun c => mkColumn (name c) TEXT) i columns !! i
                     = Some (mkColumn (name c) TEXT)).
      { by rewrite list_lookup_alter, Hc, decide_True. }
      destruct (Forall2_lookup_l _ _ _ _ _ Hev Halt) as (c' & Hc' & Hn & Ht).
      exists c, c', r. split_and!; try done. right. simpl in Ht.
      split; [by destruct Ht|]. specialize (Hle r). specialize (Hpassed eq_refl). lia.
    + intros Hgo.
      destruct (create_go_mono _ _ _ _ _ _ _ _ Hno Hgo) as [Hle Hev].
      destruct (scan_col_spec nm r dicts heap false heap1) as (_ & _ & Hfits);
        [by apply no_arrays_plain_at | done |].
      destruct (Hfits eq_refl) as [Hall Hcap].
      destruct (Forall2_lookup_l _ _ _ _ _ Hev Hc) as (c' & Hc' & Hn & Ht).
      exists c, c', r. split_and!; try done.
      destruct Ht as [Ht|Ht].
      * left. split; [done|]. split.
        { eapply Forall_impl; [exact Hall|]. intros d Hd. specialize (Hle r).
          simpl in *. lia. }
        intros Hne Hfree.
        rewrite (create_go_frame _ _ _ _ _ _ _ _ r Hno) with (2 := Hgo); [by apply Hcap|].
        intros nm0 i0 Hin0. apply (Hfree nm0 i0); [by apply list_elem_of_further|].
        by eapply Hothers.
      * right. split; [done|]. by eapply create_go_text.
  - assert (Hne : nm <> nm0).
    { intros ->. apply Hfresh. apply list_elem_of_fmap. by exists (nm0, i). }
    assert (Hweaken : forall excl1 heap1 columns1,
      nm ∉ excl1 ->
      (forall j r, columns1 !! j ≫= string_ref = Some r ->
                   columns !! j = columns1 !! j) ->
      (forall j r, columns1 !! j ≫= string_ref = Some r ->
                   columns !! j ≫= string_ref = Some r) ->
      (forall j, columns !! j ≫= string_ref = None -> columns1 !! j ≫= string_ref = None) ->
      Schema._create_go dicts rest excl1 heap1 columns1 = (Ok tt, (heap', columns')) ->
      exists c c' r,
        columns !! i = Some c /\ string_ref c = Some r
        /\ columns' !! i = Some c' /\ name c' = name c
        /\ ((type c' = type c
             /\ Forall (fun d => shown_length nm d <= heap' !!! r) dicts
             /\ (dicts <> [] ->
                 (forall nm1 i1, (nm1, i1) ∈ (nm0, i0) :: rest -> nm1 <> nm ->
                    columns !! i1 ≫= string_ref <> Some r) ->
                 heap' !!! r <= 48))
            \/ (type c' = TEXT /\ 48 < heap' !!! r))).
    { intros excl1 heap1 columns1 Hex1 Hsame Hsub Hnone Hgo.
      destruct (IH _ _ _ Hnd Hin Hex1 Hgo) as (c & c' & r & Hc & Hr & Hc' & Hn & Hcases).
      assert (Hc0 : columns !! i = Some c).
      { rewrite (Hsame i r); [done|]. by rewrite Hc. }
      exists c, c', r. split_and!; try done.
      destruct Hcases as [(Ht & Hall & Hcap)|?]; [left|by right].
      split_and!; try done. intros Hd Hfree. apply Hcap; [done|].
      intros nm1 i1 Hin1 Hne1 Hr1. apply (Hfree nm1 i1); [by apply list_elem_of_further|done|].
      by apply Hsub. }
    destruct (decide (nm0 ∈ excl)).
    { by apply Hweaken. }
    destruct (columns !! i0 ≫= string_ref) as [r0|] eqn:Hr0; [|done].
    destruct (Schema.scan_col nm0 r0 dicts heap) as [[[|]|e] heap1]; [| |done].
    + apply Hweaken.
      * intros [Hx%elem_of_singleton|Hx]%elem_of_union; done.
      * intros j r Hj. apply alter_string_ref in Hj as [Hne0 _].
        by rewrite list_lookup_alter, decide_False.
      * intros j r Hj. by apply alter_string_ref in Hj as [_ Hj].
      * intros j Hj. rewrite list_lookup_alter. destruct (decide (i0 = j)) as [->|]; [|done].
        destruct (columns !! j); simpl; done.
    + by apply Hweaken.
Qed.

End InferenceFacts.

(** [int(1.2 * n + 0.5)] in double precision is [(12 n + 5) / 10] for
    every length below 65536. *)
Fixpoint agree_upto (k : nat) (n : Z) : bool :=
  match k with
  | O => true
  | S k' => (Schema.grow_float n =? Schema.grow n) && agree_upto k' (n + 1)
  end.

Lemma agree_upto_spec k : forall n j,
  agree_upto k n = true -> n <= j < n + Z.of_nat k ->
  Schema.grow_float j = Schema.grow j.
Proof.
  induction k as [|k IH]; intros n j; simpl agree_upto; [lia|].
  intros [Hn Hrest]%andb_prop Hj.
  destruct (decide (j = n)) as [->|Hne]; [by apply Z.eqb_eq|].
  apply (IH (n + 1)); [done | lia].
Qed.

Lemma grow_float_agrees n : 0 <= n < 65536 -> Schema.grow_float n = Schema.grow n.
Proof.
  intros Hn. apply (agree_upto_spec (Z.to_nat 65536) 0); [vm_compute; reflexivity | lia].
Qed.

Section Inference.
Context `{Printers} `{Engine}.

(** C5 (amended).  During schema inference a length never shrinks, and it
    ends as the length the column was declared with or as
    [int(1.2 * len + 0.5)] of one value of the prefix, not necessarily the
    longest, held under a column that shares the length.  A column of the
    scan keeps its name; either it stays a [String], then every value of
    the prefix fits its length, which is at most 48 when the prefix is not
    empty and no other scanned column shares the length; or it becomes
    [TEXT], and then the length had passed 48.  After the prefix,
    [set_column_length] changes no column into [TEXT]: it leaves the column
    lists and makes the length the larger of the old length and the one
    asked for. *)
Theorem lengths_after_schema_inference dicts cols h columns h' columns' :
  no_arrays dicts -> NoDup cols.*1 ->
  Schema._create dicts cols h columns = (Ok tt, (h', columns')) ->
  (forall r,
     h !!! r <= h' !!! r
     /\ (h' !!! r = h !!! r
         \/ exists nm i d s,
              (nm, i) ∈ cols /\ columns !! i ≫= string_ref = Some r
              /\ d ∈ dicts /\ d !! nm = Some (VStr s)
              /\ h' !!! r = Schema.grow (PyStr.len s)))
  /\ (forall nm i, (nm, i) ∈ cols ->
        exists c c' r,
          columns !! i = Some c /\ string_ref c = Some r
          /\ columns' !! i = Some c' /\ name c' = name c
          /\ ((type c' = type c
               /\ Forall (fun d => shown_length nm d <= h' !!! r) dicts
               /\ (dicts <> [] ->
                   (forall nm0 i0, (nm0, i0) ∈ cols -> nm0 <> nm ->
                      columns !! i0 ≫= string_ref <> Some r) ->
                   h' !!! r <= 48))
              \/ (type c' = TEXT /\ 48 < h' !!! r)))
  /\ (forall table col length w,
        let w' := (Loader.set_column_length table col length w).2 in
        variants_columns w' = variants_columns w
        /\ variant_impacts_columns w' = variant_impacts_columns w
        /\ forall r, string_ref col = Some r ->
             heap w' !!! r = Z.max (heap w !!! r) length).
Proof.
  intros Hno Hnd Hrun. unfold Schema._create in Hrun. split_and!.
  - intros r. split.
    + by destruct (create_go_mono _ _ _ _ _ _ _ _ Hno Hrun) as [Hle _].
    + by apply (create_go_origin _ _ _ _ _ _ _ _ r Hno Hrun).
  - intros nm i Hin.
    apply (create_go_column dicts cols ∅ h columns h' columns' nm i); done.
  - intros table col length w. cbv zeta.
    destruct (set_column_length_spec table col length w) as [(Hvc & Hvic & _) _].
    split; [done|]. split; [done|]. intros r Hr.
    unfold Loader.set_column_length. unfold string_ref in Hr.
    destruct (type col) as [| | | | | |r0]; try done. injection Hr as ->.
    destruct (length <=? heap w !!! r) eqn:Hle.
    + apply Z.leb_le in Hle. simpl. lia.
    + apply Z.leb_gt in Hle. unfold bind, set_heap.
      destruct (alter_column_spec table col length
                  (mkWorld (impacts_headers w) (<[r := length]> (heap w)) (unsized w)
                     (variants_columns w) (variant_impacts_columns w) (log w)))
        as (evs & -> & _).
      simpl. rewrite lookup_total_insert_eq. lia.
Qed.

End Inference.

(** The scan of the [String] columns of the primary table, as declared,
    over the one-record prefix on the contig [chrom]. *)
Definition prefix_scan (chrom : string) : result unit * (gmap nat Z * list Column) :=
  @Schema._create plain_printers [built chrom 1]
    (map_to_list (Schema.string_cols (variants_columns declared_world)))
    (heap declared_world) (variants_columns declared_world).

Lemma lengths_after_schema_inference_witness :
  exists heap' columns',
    prefix_scan "chr1_KI270706v1_random" = (Ok tt, (heap', columns'))
    /\ (forall r, heap declared_world !!! r <= heap' !!! r)
    /\ (forall nm i,
          (nm, i) ∈ map_to_list (Schema.string_cols (variants_columns declared_world)) ->
          exists c c' r,
            variants_columns declared_world !! i = Some c /\ string_ref c = Some r
            /\ columns' !! i = Some c' /\ name c' = name c
            /\ ((type c' = type c
                 /\ Forall (fun d => @shown_length plain_printers nm d <= heap' !!! r)
                      [built "chr1_KI270706v1_random" 1])
                \/ (type c' = TEXT /\ 48 < heap' !!! r))).
Proof.
  assert (Hok : is_ok (prefix_scan "chr1_KI270706v1_random").1 = true)
    by (vm_compute; reflexivity).
  destruct (prefix_scan "chr1_KI270706v1_random") as [[[]|e] [heap' columns']] eqn:Hrun;
    [|discriminate Hok].
  exists heap', columns'. split; [reflexivity|].
  assert (Hno : no_arrays [built "chr1_KI270706v1_random" 1]).
  { apply no_arraysb_spec. vm_compute. reflexivity. }
  destruct (@lengths_after_schema_inference plain_printers (accept_all "postgresql")
              _ _ _ _ _ _ Hno (NoDup_fst_map_to_list _) Hrun) as (Hlen & Hcols & _).
  split.
  - intros r. exact (proj1 (Hlen r)).
  - intros nm i Hin.
    destruct (Hcols nm i Hin) as (c & c' & r & Hc & Hr & Hc' & Hn & Hcases).
    exists c, c', r.
    refine (conj Hc (conj Hr (conj Hc' (conj Hn _)))).
    destruct Hcases as [(Ht & Hall & _)|Htext].
    + left. exact (conj Ht Hall).
    + right. exact Htext.
Defined.

(** Modelled from the spec: the width [ceil(1.2 * max_observed_length)]
    that the specification gives a column for the lengths observed. *)
Definition spec_width (observed : list Z) : Z :=
  (12 * foldr Z.max 0 observed + 9) / 10.

(** The [ALTER TABLE] statements among the events. *)
Definition alters (evs : list event) : list (string * string * Z) :=
  omap (fun ev => match ev with EAlter t c n => Some (t, c, n) | _ => None end) evs.

Definition sixty : string :=
  "chr1_0123456789_0123456789_0123456789_0123456789_0123456789_".

(** C5, as stated, fails.  For a prefix whose one [chrom] has 22
    characters the column ends with the length 26, not
    [ceil(1.2 * 22) = 27].  After a prefix whose [chrom] has 10 characters,
    a batch with a [chrom] of 60 characters leaves the column a [String]:
    on postgresql it is altered to the length 60, on sqlite it keeps the
    length 10. *)
Lemma later_long_value_keeps_string :
  let E := accept_all "postgresql" in
  let w1 := (flush_prefix E "chr1_alt_1" declared_world).2 in
  let w2 := (flush_batch E sixty w1).2 in
  let s1 := (flush_prefix (accept_all "sqlite") "chr1_alt_1" declared_world).2 in
  let s2 := (flush_batch (accept_all "sqlite") sixty s1).2 in
  (PyStr.len "chr1_KI270706v1_random" = 22
   /\ widths_of "variants"
        (flush_prefix E "chr1_KI270706v1_random" declared_world).2 !! "chrom" = Some 26
   /\ spec_width [22] = 27)
  /\ (PyStr.len "chr1_alt_1" = 10 /\ PyStr.len sixty = 60
      /\ (flush_batch E sixty w1).1 = Ok tt
      /\ widths_of "variants" w1 !! "chrom" = Some 10
      /\ type <$> table_column (variants_columns w2) "chrom" = Some (String_ 2)
      /\ widths_of "variants" w2 !! "chrom" = Some 60
      /\ alters (drop (length (log w1)) (log w2)) = [("variants", "chrom", 60)])
  /\ ((flush_batch (accept_all "sqlite") sixty s1).1 = Ok tt
      /\ type <$> table_column (variants_columns s2) "chrom" = Some (String_ 2)
      /\ widths_of "variants" s2 !! "chrom" = Some 10).
Proof.
  cbv zeta. split_and!; vm_compute; reflexivity.
Qed.


(** ** The [variant_id] of a record *)

Lemma decode_all_lookup `{Annotations} effs reg : forall (d : dict) impacts d1 impacts1 k,
  Transform.decode_all effs reg d impacts = Ok (d1, impacts1) ->
  k ∉ effs -> d1 !! k = d !! k.
Proof.
  induction effs as [|e rest IH]; intros d impacts d1 impacts1 k; simpl.
  { by intros [= <- _]. }
  intros Hdec [Hne Hk]%not_elem_of_cons.
  destruct (d !! e) as [v|] eqn:He; [|by eapply IH].
  destruct (match v with VStr s => Ok (PyStr.split "," s) | _ => Raise AttributeError end)
    as [entries|]; simpl in Hdec; [|done].
  destruct (getitem reg e) as [hdr|]; simpl in Hdec; [|done].
  rewrite (IH _ _ _ _ _ Hdec Hk). by rewrite lookup_delete_ne.
Qed.

Lemma project_other top (d : dict) k :
  k ∉ summary_keys -> Transform.project top d !! k = d !! k.
Proof.
  unfold summary_keys. intros Hk. apply not_elem_of_app in Hk as [Hkeys Hk].
  apply not_elem_of_cons in Hk as [H1 Hk]. apply not_elem_of_cons in Hk as [H2 Hk].
  apply not_elem_of_cons in Hk as [H3 _].
  unfold Transform.project. rewrite !lookup_insert_ne by done.
  rewrite foldl_insert_lookup. by rewrite decide_False.
Qed.

Section Position.
Context `{Annotations}.
Variable self : Loader.settings.

Lemma build_d_variant_id v i d :
  Loader.build_d self v i = Ok d -> d !! "variant_id" = Some (VInt i).
Proof.
  unfold Loader.build_d.
  destruct (Loader.set_gt_cols self v Schema.gt_cols (Loader.INFO v)) as [d0|]; simpl; [|done].
  intros [= <-]. unfold Loader._set_variant_properties.
  rewrite !lookup_insert_ne by done. by rewrite lookup_insert_eq.
Qed.

End Position.

(** The [variant_id]s of the rows that a run commits to a table. *)
Definition ids_of (table : string) (w : world) : list (option pyval) :=
  omap (fun '(t, row) => if String.eqb t table then Some (row !! "variant_id") else None)
       (committed (log w)).

(** The columns and the registry for a header with a [CSQ] line. *)
Definition annotated_world : world :=
  match Loader.create_columns []
          [Registry.hdr "CSQ" "Consequence annotations. Format: severity|gene"] with
  | Ok w => w
  | Raise _ => empty_world
  end.

Definition load_records (stream : list Loader.RawRecord) : result unit * world :=
  @Loader.load plain_printers plain_primitives plain_annotations (accept_all "sqlite")
    plain_settings stream annotated_world.

(** C4, as stated, fails for a stream whose first record has an INFO
    attribute named [VARIANT_ID]: the rows of the two records are committed
    with the [variant_id]s ["7"] and [None] instead of 1 and 2, and their
    impact rows carry the same values.  Without that attribute the same
    records get 1 and 2. *)
Lemma variant_id_overwritten_by_info_key :
  let shadowed :=
    load_records [record_with {[ "VARIANT_ID" := VStr "7"; "CSQ" := VStr "HIGH|g1,LOW|g2" ]};
                  record_with {[ "CSQ" := VStr "LOW|g3" ]}] in
  let plain :=
    load_records [record_with {[ "CSQ" := VStr "HIGH|g1,LOW|g2" ]};
                  record_with {[ "CSQ" := VStr "LOW|g3" ]}] in
  (shadowed.1 = Ok tt
   /\ ids_of "variants" shadowed.2 = [Some (VStr "7"); Some VNone]
   /\ ids_of "variant_impacts" shadowed.2 = [Some (VStr "7"); Some (VStr "7"); Some VNone])
  /\ (plain.1 = Ok tt
      /\ ids_of "variants" plain.2 = [Some (VInt 1); Some (VInt 2)]
      /\ ids_of "variant_impacts" plain.2 = [Some (VInt 1); Some (VInt 1); Some (VInt 2)]).
Proof.
  cbv zeta. split_and!; vm_compute; reflexivity.
Qed.


(** * Further properties of the loader *)

(** ** [grouper] *)

Lemma grouper_go_pieces {A} (n : nat) (l : list A) : forall k piece,
  (0 < k <= n)%nat -> length piece = (n - k)%nat ->
  Forall (fun p => (0 < length p <= n)%nat) (Loader.grouper_go n k piece l)
  /\ forall i p, Loader.grouper_go n k piece l !! i = Some p ->
       (S i < length (Loader.grouper_go n k piece l))%nat -> length p = n.
Proof.
  induction l as [|x rest IH]; intros k piece Hk Hlen; simpl.
  { destruct piece as [|y piece]; simpl.
    - split; [constructor|]. intros i p Hi. by rewrite lookup_nil in Hi.
    - split.
      + constructor; [|constructor]. rewrite length_reverse. simpl in *. lia.
      + intros i p Hi Hlt. simpl in Hlt. lia. }
  destruct k as [|[|k']]; [lia| |].
  - destruct (IH n []) as [Hall Hfull]; [lia | simpl; lia |].
    assert (Hhead : length (reverse (x :: piece)) = n).
    { rewrite length_reverse. simpl. lia. }
    split.
    + constructor; [lia | done].
    + intros [|i] p Hi Hlt; simpl in *.
      * by injection Hi as <-.
      * apply (Hfull i p Hi). lia.
  - apply IH; [lia | simpl; lia].
Qed.

(** X1.  [grouper(n, iterable)] for a positive [n] cuts the list into
    consecutive pieces: put end to end they give the list back, no piece is
    empty or longer than [n], and every piece but the last has exactly [n]
    elements.  For [n = 0] nothing is yielded, whatever the list holds. *)
Theorem grouper_pieces {A} (n : nat) (l : list A) :
  ((0 < n)%nat ->
     concat (Loader.grouper n l) = l
     /\ Forall (fun p => (0 < length p <= n)%nat) (Loader.grouper n l)
     /\ forall i p, Loader.grouper n l !! i = Some p ->
          (S i < length (Loader.grouper n l))%nat -> length p = n)
  /\ Loader.grouper 0 l = [].
Proof.
  split.
  - intros Hn. split; [by apply grouper_concat|].
    apply grouper_go_pieces; [lia | simpl; lia].
  - by destruct l.
Qed.

(** ** [__insert] when the engine accepts every statement *)

Section Accepted.
Context `{Engine}.
Hypothesis accepts_all : forall sent table rows, accepts sent table rows = true.

Lemma accepted_bulk rollback_first table (g : list dict) w :
  Loader.bulk_or_rows rollback_first table g w
  = (Ok tt, add_log w [EExecute table (widths_of table w) g true]).
Proof.
  destruct (bulk_or_rows_eq rollback_first table g w) as (r & evs & -> & Hcase).
  rewrite accepts_all in Hcase. by destruct Hcase as [-> ->].
Qed.

Lemma accepted_groups table (gs : list (list dict)) w :
  for_each gs (Loader.bulk_or_rows true table) w
  = (Ok tt, add_log w (map (fun g => EExecute table (widths_of table w) g true) gs)).
Proof.
  revert w. induction gs as [|g gs IH]; intros w.
  { simpl. by rewrite add_log_nil. }
  rewrite for_each_cons, accepted_bulk. cbv beta iota.
  rewrite IH, widths_of_add_log, add_log_app. done.
Qed.

(** X2.  When the engine accepts every statement, [__insert] sends the rows in
    one statement if there are at most 6000 of them (one statement also
    for no row at all), and otherwise in consecutive statements of 5000
    rows, the last one shorter; it sends nothing else and returns
    normally. *)
Theorem insert_statements (objs : list dict) table w :
  let pieces := if 6000 <? Z.of_nat (length objs)
                then Loader.grouper (Z.to_nat 5000) objs else [objs] in
  Loader.__insert objs table w
  = (Ok tt, add_log w (map (fun g => EExecute table (widths_of table w) g true) pieces))
  /\ concat pieces = objs
  /\ (6000 < Z.of_nat (length objs) ->
        Forall (fun g : list dict => 0 < Z.of_nat (length g) <= 5000) pieces).
Proof.
  cbv zeta. unfold Loader.__insert.
  destruct (6000 <? Z.of_nat (length objs)) eqn:Hbig.
  - split; [apply accepted_groups|].
    destruct (grouper_pieces (Z.to_nat 5000) objs) as [Hpos _].
    destruct Hpos as (Hcat & Hall & _); [lia|]. split; [done|]. intros _.
    eapply Forall_impl; [exact Hall|]. intros g Hg. simpl in Hg. lia.
  - split; [apply accepted_bulk|]. split; [simpl; by rewrite app_nil_r|].
    apply Z.ltb_ge in Hbig. lia.
Qed.

End Accepted.

Lemma insert_statements_witness :
  exists w',
    @Loader.__insert (accept_all "sqlite") [row_at 1 (VInt 10); row_at 2 (VInt 20)]
      "variants" empty_world = (Ok tt, w')
    /\ log w' = [EExecute "variants" ∅ [row_at 1 (VInt 10); row_at 2 (VInt 20)] true].
Proof.
  destruct (@insert_statements (accept_all "sqlite") (fun _ _ _ => eq_refl)
              [row_at 1 (VInt 10); row_at 2 (VInt 20)] "variants" empty_world)
    as (Hrun & _ & _).
  eexists. split; [exact Hrun|]. reflexivity.
Defined.

(** ** [check_column_lengths] *)

Lemma NoDup_fst_agree {A B} (l : list (A * B)) a b b' :
  NoDup l.*1 -> (a, b) ∈ l -> (a, b') ∈ l -> b = b'.
Proof.
  induction l as [|[a0 b0] rest IH]; intros Hnd Hin Hin'; [by apply elem_of_nil in Hin|].
  rewrite fmap_cons in Hnd. apply NoDup_cons in Hnd as [Hfresh Hnd]. simpl in Hfresh.
  apply elem_of_cons in Hin as [Heq|Hin]; apply elem_of_cons in Hin' as [Heq'|Hin'].
  - congruence.
  - exfalso. apply Hfresh. apply list_elem_of_fmap. exists (a, b').
    split; [|done]. simpl. congruence.
  - exfalso. apply Hfresh. apply list_elem_of_fmap. exists (a, b).
    split; [|done]. simpl. congruence.
  - by apply IH.
Qed.

Section CheckExact.

Lemma longest_over_origin nm l (dicts : list dict) : forall acc o,
  plain_at nm dicts ->
  Schema.longest_over nm l dicts acc = Ok o ->
  forall m, o = Some m ->
    acc = Some m
    \/ (l < m /\ exists d s, d ∈ dicts /\ d !! nm = Some (VStr s) /\ PyStr.len s = m).
Proof.
  induction dicts as [|d rest IH]; intros acc o Hplain; simpl.
  { intros [= <-] m Hm. by left. }
  apply Forall_cons in Hplain as [Hd Hrest].
  destruct (truthy (default VNone (d !! nm))) as [t|] eqn:Ht; simpl; [|done].
  destruct (py_len (if t then default VNone (d !! nm) else VStr EmptyString))
    as [n|] eqn:Hn; simpl; [|done].
  assert (Hlater : forall acc1,
    (forall m, acc1 = Some m ->
       acc = Some m
       \/ (l < m /\ exists s, d !! nm = Some (VStr s) /\ PyStr.len s = m)) ->
    Schema.longest_over nm l rest acc1 = Ok o ->
    forall m, o = Some m ->
      acc = Some m
      \/ (l < m /\ exists d0 s, d0 ∈ d :: rest /\ d0 !! nm = Some (VStr s)
                                /\ PyStr.len s = m)).
  { intros acc1 Hacc1 Hgo m Hm.
    destruct (IH _ _ Hrest Hgo m Hm) as [Hfrom|(Hlt & d0 & s & Hin & Hs & Hlen)].
    - destruct (Hacc1 m Hfrom) as [?|(Hlt & s & Hs & Hlen)]; [by left|].
      right. split; [done|]. exists d, s. split; [apply list_elem_of_here | done].
    - right. split; [done|]. exists d0, s. split; [by apply list_elem_of_further | done]. }
  destruct (l <? n) eqn:Hln; [|apply Hlater; intros m Hm; by left].
  destruct (py_len (default VNone (d !! nm))) as [m0|] eqn:Hm0; simpl; [|done].
  apply Hlater. intros m [= <-]. apply Z.ltb_lt in Hln.
  destruct (d !! nm) as [v|] eqn:Hv; simpl in *; [|done].
  specialize (Hd v eq_refl).
  destruct v as [| | | |s|]; simpl in *; try done.
  injection Hm0 as <-.
  assert (Hns : n = PyStr.len s).
  { injection Ht as <-. destruct (String.eqb_spec s EmptyString) as [->|]; simpl in Hn;
      by injection Hn as <-. }
  subst n.
  destruct (Z.max_spec (default 0 acc) (PyStr.len s)) as [[Hlt ->]|[Hge ->]].
  - right. split; [done|]. by exists s.
  - destruct acc as [a|]; simpl in *; [by left|].
    right. pose proof (len_nonneg s). split; [lia|]. exists s. split; [done | lia].
Qed.

Lemma check_go_origin (dicts : list dict) cols heap columns : forall ch0 ch,
  no_arrays dicts ->
  Schema.check_column_lengths_go dicts cols heap columns ch0 = Ok ch ->
  forall nm m, ch !! nm = Some m ->
    ch0 !! nm = Some m
    \/ exists i r, (nm, i) ∈ cols /\ columns !! i ≫= string_ref = Some r
                   /\ heap !!! r < m
                   /\ exists d s, d ∈ dicts /\ d !! nm = Some (VStr s) /\ PyStr.len s = m.
Proof.
  induction cols as [|[nm0 i0] rest IH]; intros ch0 ch Hno; simpl.
  { intros [= <-] nm m Hm. by left. }
  destruct (columns !! i0 ≫= string_ref) as [r0|] eqn:Hr0; [|done].
  destruct (Schema.longest_over nm0 (heap !!! r0) dicts (ch0 !! nm0)) as [o|] eqn:Hlo;
    simpl; [|done].
  intros Hgo nm m Hm.
  destruct (IH _ _ Hno Hgo nm m Hm) as [Hmid|(i & r & Hin & Hr & Hrest)].
  2: { right. exists i, r. split; [by apply list_elem_of_further | done]. }
  destruct o as [n|]; simpl in Hmid; [|by left].
  destruct (decide (nm0 = nm)) as [->|Hne].
  - rewrite lookup_insert_eq in Hmid. injection Hmid as ->.
    destruct (longest_over_origin _ _ _ _ _ (no_arrays_plain_at nm _ Hno) Hlo m eq_refl)
      as [?|[Hlt Hat]]; [by left|].
    right. exists i0, r0. split; [apply list_elem_of_here | done].
  - rewrite lookup_insert_ne in Hmid by done. by left.
Qed.

(** X3.  [check_column_lengths] asks for a new length exactly for the columns
    that hold a string longer than their current length: the length it
    gives for a column is the length of one of the strings of the rows under
    that column, it is larger than the current length of the column, and no
    string of the rows under the column is longer; a column for which it
    gives nothing holds no string longer than its current length. *)
Theorem check_column_lengths_exact (dicts : list dict) cols heap columns ch :
  no_arrays dicts -> NoDup cols.*1 ->
  Schema.check_column_lengths dicts cols heap columns = Ok ch ->
  (forall nm m, ch !! nm = Some m ->
     exists i r, (nm, i) ∈ cols /\ columns !! i ≫= string_ref = Some r
                 /\ heap !!! r < m
                 /\ exists d s, d ∈ dicts /\ d !! nm = Some (VStr s) /\ PyStr.len s = m)
  /\ (forall nm i r, (nm, i) ∈ cols -> columns !! i ≫= string_ref = Some r ->
        Forall (fun d : dict => forall s, d !! nm = Some (VStr s) ->
                  PyStr.len s <= match ch !! nm with
                                 | Some m => m
                                 | None => heap !!! r
                                 end) dicts).
Proof.
  intros Hno Hnd Hrun. unfold Schema.check_column_lengths in Hrun. split.
  - intros nm m Hm.
    destruct (check_go_origin _ _ _ _ _ _ Hno Hrun nm m Hm) as [Hfrom|?]; [|done].
    by rewrite lookup_empty in Hfrom.
  - intros nm i r Hin Hr.
    destruct (check_go_spec _ _ _ _ _ _ Hrun) as [_ Hfit].
    specialize (Hfit nm i r Hin Hr).
    eapply Forall_impl; [exact Hfit|]. intros d Hd s Hs.
    destruct (Hd s Hs) as [Hle|(m & Hm & Hle)]; [|by rewrite Hm].
    destruct (ch !! nm) as [m|] eqn:Hm; [|done].
    destruct (check_go_origin _ _ _ _ _ _ Hno Hrun nm m Hm)
      as [Hfrom|(i' & r' & Hin' & Hr' & Hlt & _)].
    { by rewrite lookup_empty in Hfrom. }
    rewrite (NoDup_fst_agree _ _ _ _ Hnd Hin' Hin) in Hr'.
    rewrite Hr in Hr'. injection Hr' as <-. lia.
Qed.

End CheckExact.

(** Two rows for the primary table as declared, the second with a
    [chrom] of 22 characters. *)
Definition two_contigs : list dict := [built "chr1" 1; built "chr1_KI270706v1_random" 2].

Lemma check_column_lengths_exact_witness :
  Schema.check_column_lengths two_contigs
    (map_to_list (Schema.string_cols (variants_columns declared_world)))
    (heap declared_world) (variants_columns declared_world)
  = Ok {[ "chrom" := 22 ]}
  /\ forall nm m, ({[ "chrom" := 22 ]} : gmap string Z) !! nm = Some m ->
       exists i r,
         (nm, i) ∈ map_to_list (Schema.string_cols (variants_columns declared_world))
         /\ variants_columns declared_world !! i ≫= string_ref = Some r
         /\ heap declared_world !!! r < m
         /\ exists d s, d ∈ two_contigs /\ d !! nm = Some (VStr s) /\ PyStr.len s = m.
Proof.
  assert (Hrun : Schema.check_column_lengths two_contigs
            (map_to_list (Schema.string_cols (variants_columns declared_world)))
            (heap declared_world) (variants_columns declared_world)
            = Ok {[ "chrom" := 22 ]}) by (vm_compute; reflexivity).
  assert (Hno : no_arrays two_contigs).
  { apply no_arraysb_spec. vm_compute. reflexivity. }
  exact (conj Hrun (proj1 (check_column_lengths_exact _ _ _ _ _ Hno
                             (NoDup_fst_map_to_list _) Hrun))).
Defined.

(** ** The annotation text of a record *)

(** The number of entries of the annotation [k] of a record. *)
Definition entries_of (d : dict) (k : string) : nat :=
  match d !! k with
  | Some (VStr s) => length (PyStr.split "," s)
  | _ => 0%nat
  end.

Section Consumed.
Context `{Annotations}.

Lemma decode_all_consumes effs reg : forall (d : dict) impacts d1 impacts1,
  NoDup effs ->
  Transform.decode_all effs reg d impacts = Ok (d1, impacts1) ->
  (forall k, d1 !! k = if decide (k ∈ effs) then None else d !! k)
  /\ length impacts1 = (length impacts + sum_list (entries_of d <$> effs))%nat.
Proof.
  induction effs as [|e rest IH]; intros d impacts d1 impacts1 Hnd; simpl.
  { intros [= <- <-]. split; [done | lia]. }
  apply NoDup_cons in Hnd as [Hfresh Hnd].
  unfold entries_of at 1.
  destruct (d !! e) as [v|] eqn:He.
  - destruct v as [| | | |s|]; simpl; try done.
    destruct (getitem reg e) as [hdr|]; simpl; [|done].
    intros Hdec. destruct (IH _ _ _ _ Hnd Hdec) as [Hkeys Hlen]. split.
    + intros k. rewrite Hkeys.
      destruct (decide (k ∈ rest)) as [Hin|Hnin];
        destruct (decide (k ∈ e :: rest)) as [Hin'|Hnin']; try done.
      * exfalso. apply Hnin'. by apply list_elem_of_further.
      * apply elem_of_cons in Hin' as [->|?]; [|done]. by rewrite lookup_delete_eq.
      * rewrite lookup_delete_ne; [done|]. intros ->. apply Hnin', list_elem_of_here.
    + rewrite Hlen, length_app, length_map.
      assert (Hsame : entries_of (delete e d) <$> rest = entries_of d <$> rest).
      { apply list_fmap_ext. intros i k Hk. unfold entries_of.
        rewrite lookup_delete_ne; [done|]. intros ->.
        apply Hfresh. by eapply list_elem_of_lookup_2. }
      rewrite Hsame. symmetry. apply Nat.add_assoc.
  - intros Hdec. destruct (IH _ _ _ _ Hnd Hdec) as [Hkeys Hlen]. split.
    + intros k. rewrite Hkeys.
      destruct (decide (k ∈ rest)) as [Hin|Hnin];
        destruct (decide (k ∈ e :: rest)) as [Hin'|Hnin']; try done.
      * exfalso. apply Hnin'. by apply list_elem_of_further.
      * by apply elem_of_cons in Hin' as [->|?].
    + rewrite Hlen. reflexivity.
Qed.

Lemma effect_keys_distinct : NoDup ["CSQ"; "ANN"; "EFF"].
Proof.
  apply NoDup_cons. split; [not_in_list|].
  apply NoDup_cons. split; [not_in_list|].
  apply NoDup_cons. split; [not_in_list|]. apply NoDup_nil_2.
Qed.

Lemma upper_key_unshadowed (req_cols : gset string) k :
  existsb PyStr.is_upper (PyStr.chars k) = true -> unshadowed req_cols k.
Proof.
  intros Hup K _ _ Heq. rewrite <- Heq, lower_no_upper in Hup. done.
Qed.

(** X4.  The raw annotation text never reaches the database: in the row that
    [gene_info] returns, each of the keys CSQ, ANN and EFF is absent, or
    holds [None] when it is a required key.  The record gets one impact row
    for every comma-separated entry of its CSQ, ANN and EFF texts. *)
Theorem annotation_text_is_consumed d reg blobber req_cols row gimpacts :
  Transform.gene_info d reg blobber Schema.gt_cols req_cols = Ok (row, gimpacts) ->
  (forall k, k ∈ Registry.effect_list ->
     row !! k = if decide (k ∈ req_cols) then Some VNone else None)
  /\ length gimpacts
     = (entries_of d "CSQ" + entries_of d "ANN" + entries_of d "EFF")%nat.
Proof.
  intros Hg.
  destruct (gene_info_inv _ _ _ _ _ _ _ Hg)
    as (d1 & impacts & top & d2 & Hdec & _ & Hb & Hrow & Himp).
  destruct (decode_all_consumes _ _ _ _ _ _ effect_keys_distinct Hdec) as [Hkeys Hlen].
  split.
  - intros k Hk.
    assert (Hup : existsb PyStr.is_upper (PyStr.chars k) = true).
    { unfold Registry.effect_list in Hk. rewrite !elem_of_cons in Hk.
      destruct Hk as [->|[->|[->|Hk]]]; [done..|by apply elem_of_nil in Hk]. }
    assert (Hd2 : d2 !! k = None).
    { assert (Hk1 : (k ∉ Schema.gt_cols) /\ (k ∉ summary_keys)).
      { unfold Registry.effect_list in Hk. rewrite !elem_of_cons in Hk.
        destruct Hk as [->|[->|[->|Hk]]]; [| | |by apply elem_of_nil in Hk];
          split; not_in_list. }
      destruct Hk1 as [Hgt Hsum].
      rewrite (blob_all_lookup _ _ _ _ _ Hb) by done.
      rewrite project_other by done.
      rewrite Hkeys. by rewrite decide_True. }
    rewrite Hrow, add_required_lookup by (by apply upper_key_unshadowed).
    rewrite lookup_union_r by done.
    destruct (decide (k ∈ req_cols)) as [Hin|Hnin].
    + by apply lookup_gset_to_gmap_Some.
    + apply lookup_gset_to_gmap_None. done.
  - assert (Hcount : length gimpacts = length impacts).
    { destruct Himp as [[-> ->]|(vid & _ & ->)]; [done | by rewrite length_map]. }
    rewrite Hcount, Hlen. simpl. lia.
Qed.

(** X5.  An annotation that is present in the record and cannot be decoded
    stops [gene_info]: for the first of the keys CSQ, ANN, EFF that the
    record holds, a value that is not a string raises [AttributeError], and
    a string whose header line was never registered raises [KeyError]. *)
Theorem undeclared_annotation_raises d reg blobber gt_cols req_cols pre k post v :
  ["CSQ"; "ANN"; "EFF"] = pre ++ k :: post ->
  (forall k', k' ∈ pre -> d !! k' = None) ->
  d !! k = Some v ->
  Transform.gene_info d reg blobber gt_cols req_cols
  = match v with
    | VStr s => match reg !! k with
                | None => Raise (KeyError k)
                | Some _ => Transform.gene_info d reg blobber gt_cols req_cols
                end
    | _ => Raise AttributeError
    end.
Proof.
  intros Heffs Hpre Hk. unfold Transform.gene_info. rewrite Heffs.
  assert (Hskip : forall impacts,
    Transform.decode_all (pre ++ k :: post) reg d impacts
    = Transform.decode_all (k :: post) reg d impacts).
  { clear Heffs. induction pre as [|e pre IH]; intros impacts; [done|]. simpl.
    rewrite (Hpre e) by apply list_elem_of_here. apply IH.
    intros k' Hk'. apply Hpre. by apply list_elem_of_further. }
  destruct v as [| | | |s|]; try (rewrite Hskip; simpl; rewrite Hk; done).
  destruct (reg !! k) as [hdr|] eqn:Hreg; [done|].
  rewrite Hskip. simpl. rewrite Hk. simpl. unfold getitem. by rewrite Hreg.
Qed.

End Consumed.

Lemma annotation_text_is_consumed_witness :
  exists row gimpacts,
    @Transform.gene_info plain_annotations three_candidates
       {[ "CSQ" := ["severity"; "gene"] ]} no_blob Schema.gt_cols
       {[ "chrom"; "variant_id"; "CSQ" ]} = Ok (row, gimpacts)
    /\ row !! "CSQ" = Some VNone /\ row !! "ANN" = None
    /\ length gimpacts = 3%nat.
Proof.
  assert (Hok : is_ok (@Transform.gene_info plain_annotations three_candidates
              {[ "CSQ" := ["severity"; "gene"] ]} no_blob Schema.gt_cols
              {[ "chrom"; "variant_id"; "CSQ" ]}) = true) by (vm_compute; reflexivity).
  destruct (@Transform.gene_info plain_annotations three_candidates
              {[ "CSQ" := ["severity"; "gene"] ]} no_blob Schema.gt_cols
              {[ "chrom"; "variant_id"; "CSQ" ]}) as [[row gimpacts]|e] eqn:Heq;
    [|discriminate Hok].
  destruct (@annotation_text_is_consumed plain_annotations _ _ _ _ _ _ Heq) as [Hkeys Hlen].
  exists row, gimpacts. split; [reflexivity|].
  split.
  { rewrite (Hkeys "CSQ") by by_decide. apply decide_True. by_decide. }
  split.
  { rewrite (Hkeys "ANN") by by_decide. apply decide_False. not_in_list. }
  rewrite Hlen. vm_compute. reflexivity.
Defined.

Lemma undeclared_annotation_raises_witness :
  @Transform.gene_info plain_annotations three_candidates ∅ no_blob Schema.gt_cols ∅
  = Raise (KeyError "CSQ").
Proof.
  assert (Hv : is_Some (three_candidates !! "CSQ")) by (vm_compute; by eexists).
  destruct (three_candidates !! "CSQ") as [v|] eqn:Hk; [|by destruct Hv].
  assert (Hs : match three_candidates !! "CSQ" with Some (VStr _) => true | _ => false end
               = true) by (vm_compute; reflexivity).
  rewrite Hk in Hs.
  rewrite (@undeclared_annotation_raises plain_annotations three_candidates ∅ no_blob
             Schema.gt_cols ∅ [] "CSQ" ["ANN"; "EFF"] v eq_refl
             ltac:(intros k' Hk'; by apply elem_of_nil in Hk') Hk).
  destruct v as [| | | |s|]; try discriminate Hs. reflexivity.
Defined.

(** ** The passes of [load] *)

Section Passes.
Context `{Printers} `{Primitives} `{Annotations} `{Engine}.
Variable self : Loader.settings.

Lemma _load_go_last records : forall create_ i last variants expanded keys w r w',
  Loader._load_go self records create_ i last variants expanded keys w = (Ok r, w') ->
  r = match records with
      | [] => last
      | _ => Some (i + Z.of_nat (length records) - 1)
      end.
Proof.
  induction records as [|v rest IH];
    intros create_ i last variants expanded keys w r w'.
  - simpl. destruct variants as [|d0 variants]; [by intros [= <- _]|].
    destruct last as [j|]; [|by intros [= <- _]].
    rewrite bind_unfold.
    destruct (Loader.insert self (d0 :: variants) expanded keys j create_ w)
      as [[[]|e] w1]; [|done].
    by intros [= <- _].
  - cbn [Loader._load_go]. rewrite bind_unfold. unfold lift at 1.
    destruct (Loader.build_d self v i) as [d|]; [|done].
    rewrite bind_unfold. unfold lift at 1.
    destruct (Loader.expand_all self (Loader.expand self) d expanded) as [expanded1|]; [|done].
    assert (Hrest : forall variants1 expanded2 w1,
      Loader._load_go self rest create_ (i + 1) (Some i) variants1 expanded2
        (keys ∪ dom d) w1 = (Ok r, w') ->
      r = Some (i + Z.of_nat (length (v :: rest)) - 1)).
    { intros variants1 expanded2 w1 Hgo. apply IH in Hgo. rewrite Hgo.
      destruct rest; simpl length; f_equal; lia. }
    destruct (negb create_ && (i mod 10000 =? 0)); [|apply Hrest].
    rewrite bind_unfold.
    destruct (Loader.insert self (variants ++ [d]) expanded1 (keys ∪ dom d) i create_ w)
      as [[[]|e] w1]; [|done].
    apply Hrest.
Qed.

(** X6.  [_load] returns the position of the last record it has read, counted
    from [start], or [None] when there was no record.  So [load] raises
    [TypeError] on an empty stream, before anything is sent to the engine;
    on any other stream the records after the first 10000 are numbered
    from the number of records of the prefix plus one. *)
Theorem load_numbers_the_passes :
  (forall iterable create_ start w r w',
     Loader._load self iterable create_ start w = (Ok r, w') ->
     r = match iterable with
         | [] => None
         | _ => Some (start + Z.of_nat (length iterable) - 1)
         end)
  /\ (forall w, Loader.load self [] w = (Raise TypeError, w))
  /\ (forall stream w,
        stream <> [] ->
        Loader.load self stream w
        = (Loader._load self (take (Z.to_nat 10000) stream) true 1 ;;
           Loader._load self (drop (Z.to_nat 10000) stream) false
             (Z.of_nat (length (take (Z.to_nat 10000) stream)) + 1) ;;
           ret tt) w).
Proof.
  split_and!.
  - intros iterable create_ start w r w'. unfold Loader._load. apply _load_go_last.
  - intros w. reflexivity.
  - intros stream w Hne. unfold Loader.load. rewrite !bind_unfold.
    destruct (Loader._load self (take (Z.to_nat 10000) stream) true 1 w)
      as [[r|e] w1] eqn:Hpre; [|done].
    pose proof Hpre as Hr. unfold Loader._load in Hr. apply _load_go_last in Hr.
    destruct stream as [|v stream]; [done|].
    replace (Z.to_nat 10000) with (S (Z.to_nat 9999)) in * by lia.
    simpl take in *. rewrite Hr.
    replace (1 + Z.of_nat (length (v :: take (Z.to_nat 9999) stream)) - 1 + 1)
      with (Z.of_nat (length (v :: take (Z.to_nat 9999) stream)) + 1) by lia.
    done.
Qed.

End Passes.

(** ** The types of the INFO columns *)

Lemma type_lookups_string ty r :
  Schema.type_lookups ty = Ok (String_ r) ->
  (r = 0%nat /\ ty = "Character") \/ (r = 1%nat /\ ty = "String").
Proof.
  unfold Schema.type_lookups.
  destruct (String.eqb_spec ty "Integer"); [done|].
  destruct (String.eqb_spec ty "Float"); [done|].
  destruct (String.eqb_spec ty "Flag"); [done|].
  destruct (String.eqb_spec ty "Character"); [intros [= <-]; by left|].
  destruct (String.eqb_spec ty "String"); [intros [= <-]; by right|]. done.
Qed.

Lemma info_column_type black_list d reg c reg' :
  Schema.info_column black_list d reg = (Ok (Some c), reg') ->
  reg' = reg
  /\ (Schema.is_af_name (name c) = true /\ type c = Float
      \/ Schema.is_af_name (name c) = false
         /\ exists ty, d !! "Type" = Some ty /\ Schema.type_lookups ty = Ok (type c)).
Proof.
  unfold Schema.info_column, getitem.
  destruct (d !! "ID") as [raw_id|]; [|done].
  destruct (Schema.in_list raw_id Registry.effect_list).
  { destruct (Registry.update_impacts_headers d reg) as [[|] ?]; done. }
  destruct (Schema.in_list raw_id black_list || Schema.in_list (Schema.clean raw_id) black_list);
    [done|].
  destruct (Schema.is_af_name _) eqn:Haf.
  - intros [= <- <-]. split; [done|]. left. by split.
  - destruct (d !! "Type") as [ty|]; simpl; [|done].
    destruct (Schema.type_lookups ty) as [t|] eqn:Hty; simpl; [|done].
    intros [= <- <-]. split; [done|]. right. split; [done|]. by exists ty.
Qed.

Lemma info_columns_types black_list infos : forall reg cols reg',
  Schema.variants_info_columns black_list infos reg = (Ok cols, reg') ->
  Forall (fun c =>
    exists d, d ∈ infos
      /\ (Schema.is_af_name (name c) = true /\ type c = Float
          \/ Schema.is_af_name (name c) = false
             /\ exists ty, d !! "Type" = Some ty
                           /\ Schema.type_lookups ty = Ok (type c))) cols.
Proof.
  induction infos as [|d rest IH]; intros reg cols reg'; simpl.
  { intros [= <- _]. constructor. }
  destruct (Schema.info_column black_list d reg) as [[oc|e] reg1] eqn:Hcol; [|done].
  destruct (Schema.variants_info_columns black_list rest reg1) as [[cs|e] reg2] eqn:Hrest;
    [|done].
  intros [= <- _]. specialize (IH _ _ _ Hrest).
  assert (Hcs : Forall (fun c =>
    exists d0, d0 ∈ d :: rest
      /\ (Schema.is_af_name (name c) = true /\ type c = Float
          \/ Schema.is_af_name (name c) = false
             /\ exists ty, d0 !! "Type" = Some ty
                           /\ Schema.type_lookups ty = Ok (type c))) cs).
  { eapply Forall_impl; [exact IH|]. intros c (d0 & Hin & Hc). exists d0.
    split; [by apply list_elem_of_further | done]. }
  destruct oc as [c|]; simpl; [|done].
  constructor; [|done]. exists d. split; [apply list_elem_of_here|].
  by destruct (info_column_type _ _ _ _ _ Hcol) as [_ ?].
Qed.

(** The [String] lengths of the declared columns, as references, and
    whether they are all different and none of them is one of the two
    lengths of [type_lookups]. *)
Definition own_lengths (w : world) : list nat :=
  omap string_ref (variants_columns w ++ variant_impacts_columns w).

Fixpoint distinctb (l : list nat) : bool :=
  match l with
  | [] => true
  | x :: rest => negb (existsb (Nat.eqb x) rest) && distinctb rest
  end.

Lemma declared_parts :
  (let '(c1, h1) := Schema.declare Schema.variants_default_columns Schema.initial_heap in
   let '(c2, h2) := Schema.declare Schema.variants_calculated_columns h1 in
   let '(c3, h3) := Schema.declare Schema.variants_gene_columns h2 in
   let '(c4, h4) := Schema.declare Schema.variants_sv_columns h3 in
   let '(c6, h6) := Schema.declare Schema.variants_genotype_columns h4 in
   let '(g, h7) := Schema.declare Schema.variants_gene_columns h6 in
   (c1 ++ c2 ++ c3 ++ c4, c6, mkColumn "variant_id" Integer :: g, h7))
  = (take 37 (variants_columns declared_world), drop 37 (variants_columns declared_world),
     variant_impacts_columns declared_world, heap declared_world).
Proof. vm_compute. reflexivity. Qed.

(** X7.  The columns that [create_columns] declares for a header are those it
    declares for a header without INFO lines, with the INFO columns put in
    after the first 37 of the primary table; the lengths are as declared.
    An INFO column gets type [Float] when its name looks like an allele
    frequency, whatever its declared Type, and otherwise the type that
    [type_lookups] holds for its Type.  So all INFO columns of Type
    [String] share one length (5 at the start), and all those of Type
    [Character] another (1 at the start), while every [String] column that
    the program declares itself has a length of its own. *)
Theorem info_columns_share_lengths black_list infos w :
  Loader.create_columns black_list infos = Ok w ->
  exists info,
    Schema.variants_info_columns (Registry.effect_list ++ black_list) infos ∅
      = (Ok info, impacts_headers w)
    /\ variants_columns w
       = take 37 (variants_columns declared_world) ++ info
         ++ drop 37 (variants_columns declared_world)
    /\ variant_impacts_columns w = variant_impacts_columns declared_world
    /\ heap w = heap declared_world
    /\ Forall (fun c =>
         exists d, d ∈ infos
           /\ (Schema.is_af_name (name c) = true /\ type c = Float
               \/ Schema.is_af_name (name c) = false
                  /\ exists ty, d !! "Type" = Some ty
                       /\ Schema.type_lookups ty = Ok (type c)
                       /\ forall r, string_ref c = Some r ->
                            (r = 0%nat /\ ty = "Character")
                            \/ (r = 1%nat /\ ty = "String"))) info
    /\ heap declared_world !!! 0%nat = 1 /\ heap declared_world !!! 1%nat = 5
    /\ distinctb (own_lengths declared_world) = true
    /\ forallb (fun r => (2 <=? r)%nat) (own_lengths declared_world) = true.
Proof.
  pose proof declared_parts as Hclosed.
  unfold Loader.create_columns.
  destruct (Schema.variants_info_columns (Registry.effect_list ++ black_list) infos ∅)
    as [[info|e] reg] eqn:Hinfo.
  2: { clear Hclosed.
       destruct (Schema.declare Schema.variants_default_columns Schema.initial_heap) as [c1 h1].
       destruct (Schema.declare Schema.variants_calculated_columns h1) as [c2 h2].
       destruct (Schema.declare Schema.variants_gene_columns h2) as [c3 h3].
       destruct (Schema.declare Schema.variants_sv_columns h3) as [c4 h4].
       discriminate. }
  revert Hclosed.
  destruct (Schema.declare Schema.variants_default_columns Schema.initial_heap) as [c1 h1].
  destruct (Schema.declare Schema.variants_calculated_columns h1) as [c2 h2].
  destruct (Schema.declare Schema.variants_gene_columns h2) as [c3 h3].
  destruct (Schema.declare Schema.variants_sv_columns h3) as [c4 h4].
  destruct (Schema.declare Schema.variants_genotype_columns h4) as [c6 h6].
  destruct (Schema.declare Schema.variants_gene_columns h6) as [g h7].
  intros Hclosed [= <-]. exists info.
  apply pair_equal_spec in Hclosed as [Hclosed Hheap].
  apply pair_equal_spec in Hclosed as [Hclosed Himpacts].
  apply pair_equal_spec in Hclosed as [Hpre Hpost].
  cbn [impacts_headers variants_columns variant_impacts_columns heap].
  split; [reflexivity|]. split.
  { rewrite <- Hpre, <- Hpost. rewrite <- !app_assoc. reflexivity. }
  split; [exact Himpacts|]. split; [exact Hheap|]. split.
  - eapply Forall_impl; [exact (info_columns_types _ _ _ _ _ Hinfo)|].
    intros c (d & Hin & Hc). exists d. split; [exact Hin|].
    destruct Hc as [Haf|(Hnaf & ty & Hty & Hlook)]; [left; exact Haf|].
    right. split; [exact Hnaf|]. exists ty. split; [exact Hty|]. split; [exact Hlook|].
    intros r Hr. apply type_lookups_string. rewrite Hlook. f_equal.
    unfold string_ref in Hr. destruct (type c); try discriminate Hr. by injection Hr as ->.
  - split_and!; vm_compute; reflexivity.
Qed.

(** A header with two INFO lines of Type [String]. *)
Definition two_strings : list (gmap string string) :=
  [ <["Type" := "String"]> (Registry.hdr "SOURCE" "where the call comes from");
    <["Type" := "String"]> (Registry.hdr "CALLER" "the program that made the call") ].

Lemma info_columns_share_lengths_witness :
  exists w c1 c2,
    Loader.create_columns [] two_strings = Ok w
    /\ table_column (variants_columns w) "source" = Some c1
    /\ table_column (variants_columns w) "caller" = Some c2
    /\ string_ref c1 = Some 1%nat /\ string_ref c2 = Some 1%nat
    /\ exists info,
         variants_columns w
         = take 37 (variants_columns declared_world) ++ info
           ++ drop 37 (variants_columns declared_world).
Proof.
  assert (Hok : match Loader.create_columns [] two_strings with
                | Ok w =>
                    match table_column (variants_columns w) "source",
                          table_column (variants_columns w) "caller" with
                    | Some c1, Some c2 =>
                        match string_ref c1, string_ref c2 with
                        | Some 1%nat, Some 1%nat => true
                        | _, _ => false
                        end
                    | _, _ => false
                    end
                | Raise _ => false
                end = true) by (vm_compute; reflexivity).
  destruct (Loader.create_columns [] two_strings) as [w|] eqn:Hw; [|discriminate Hok].
  pose proof (info_columns_share_lengths [] two_strings w Hw) as (info & _ & Hcols & _).
  destruct (table_column (variants_columns w) "source") as [c1|] eqn:H1; [|discriminate Hok].
  destruct (table_column (variants_columns w) "caller") as [c2|] eqn:H2; [|discriminate Hok].
  exists w, c1, c2.
  destruct (string_ref c1) as [[|[|r1]]|] eqn:Hr1; try discriminate Hok.
  destruct (string_ref c2) as [[|[|r2]]|] eqn:Hr2; try discriminate Hok.
  refine (conj eq_refl (conj H1 (conj H2 (conj eq_refl (conj eq_refl _))))).
  exists info. exact Hcols.
Defined.

(** ** A value without a length in a short column *)

Section ShortColumn.
Context `{Printers}.

Lemma scan_col_fitting nm r (pre rest : list dict) heap :
  Forall (fun d => shown_length nm d <= heap !!! r) pre ->
  heap !!! r <= 48 ->
  Schema.scan_col nm r (pre ++ rest) heap = Schema.scan_col nm r rest heap.
Proof.
  intros Hpre Hcap. induction Hpre as [|d pre Hd Hpre IH]; [done|]. simpl.
  unfold Schema.scan_row. fold (shown_length nm d).
  replace (heap !!! r <? shown_length nm d) with false by (symmetry; apply Z.ltb_ge; lia).
  replace (48 <? heap !!! r) with false by (symmetry; apply Z.ltb_ge; lia).
  exact IH.
Qed.

(** X8.  [_create] raises [TypeError] when a row holds, under the first
    [String] column of the scan, a value that has no length ([None], a
    number, a truth value) and whose printed form is longer than the column,
    the rows before it fitting the column: so a column of length 1, as the
    INFO columns of Type [Character] are, fails on the first record for
    which the attribute is [None].  No length has been changed and no
    column converted by then. *)
Theorem short_column_with_null_raises nm i r rest (pre : list dict) d post v
    heap columns :
  columns !! i ≫= string_ref = Some r ->
  Forall (fun d0 => shown_length nm d0 <= heap !!! r) pre ->
  heap !!! r <= 48 ->
  d !! nm = Some v ->
  py_len v = Raise TypeError ->
  heap !!! r < PyStr.len (py_str v) ->
  Schema._create (pre ++ d :: post) ((nm, i) :: rest) heap columns
  = (Raise TypeError, (heap, columns)).
Proof.
  intros Hr Hpre Hcap Hv Hlen Hlong.
  unfold Schema._create. simpl. rewrite decide_False by apply not_elem_of_empty.
  rewrite Hr, scan_col_fitting by done. simpl.
  unfold Schema.scan_row, getitem. rewrite Hv. simpl.
  replace (heap !!! r <? PyStr.len (py_str v)) with true by (symmetry; by apply Z.ltb_lt).
  rewrite Hlen. done.
Qed.

End ShortColumn.

Lemma short_column_with_null_raises_witness :
  @Schema._create plain_printers
    [ {[ "ancestral" := VStr "A" ]}; {[ "ancestral" := VNone ]} ]
    [("ancestral", 0%nat)] {[ 0%nat := 1 ]} [mkColumn "ancestral" (String_ 0)]
  = (Raise TypeError, ({[ 0%nat := 1 ]}, [mkColumn "ancestral" (String_ 0)])).
Proof.
  apply (@short_column_with_null_raises plain_printers "ancestral" 0%nat 0%nat []
           [ {[ "ancestral" := VStr "A" ]} ] {[ "ancestral" := VNone ]} [] VNone).
  - reflexivity.
  - repeat constructor. vm_compute. discriminate.
  - vm_compute. discriminate.
  - reflexivity.
  - reflexivity.
  - vm_compute. reflexivity.
Defined.

(** ** The rounding in double precision *)

Lemma grow_float_agrees_witness :
  0 <= 22 < 65536 /\ Schema.grow_float 22 = Schema.grow 22 /\ Schema.grow 22 = 26.
Proof.
  split; [lia|]. split; [apply grow_float_agrees; lia | reflexivity].
Defined.

(** ** The positions of the records of a stream *)

(** [enumerate(iterable, start)] *)
Fixpoint enumerate {A} (start_ : Z) (l : list A) : list (Z * A) :=
  match l with
  | [] => []
  | x :: rest => (start_, x) :: enumerate (start_ + 1) rest
  end.

(** The [variant_id]s of the rows of [table] among committed rows. *)
Definition ids_in (table : string) (rows : list (string * dict)) : list (option pyval) :=
  omap (fun '(t, row) => if String.eqb t table then Some (row !! "variant_id") else None)
       rows.

Lemma enumerate_app {A} (l1 l2 : list A) i :
  enumerate i (l1 ++ l2) = enumerate i l1 ++ enumerate (i + Z.of_nat (length l1)) l2.
Proof.
  revert i. induction l1 as [|x l1 IH]; intros i; simpl.
  { by rewrite Z.add_0_r. }
  rewrite IH. do 3 f_equal. lia.
Qed.

Lemma ids_in_app table a b : ids_in table (a ++ b) = ids_in table a ++ ids_in table b.
Proof. unfold ids_in. by rewrite omap_app. Qed.

Lemma ids_in_other table (rows : list (string * dict)) :
  (forall t row, (t, row) ∈ rows -> t <> table) -> ids_in table rows = [].
Proof.
  induction rows as [|[t row] rows IH]; intros Hall; [done|].
  unfold ids_in. simpl.
  destruct (String.eqb_spec t table) as [->|Hne].
  { exfalso. apply (Hall table row); [apply list_elem_of_here | done]. }
  apply IH. intros t' row' Hin. apply (Hall t' row'). by apply list_elem_of_further.
Qed.

Lemma ids_in_rows table (rows : list dict) :
  ids_in table (map (pair table) rows) = map (fun row : dict => row !! "variant_id") rows.
Proof.
  unfold ids_in. induction rows as [|row rows IH]; [done|].
  cbn [map omap list_omap]. rewrite String.eqb_refl. cbn [map]. f_equal. exact IH.
Qed.

Lemma ids_in_stage lo hi table evs :
  Forall (within lo hi) evs -> ~ (lo <= stage table <= hi)%nat ->
  ids_in table (committed evs) = [].
Proof.
  intros Hall Hout. apply ids_in_other. intros t row Hin ->.
  apply Hout. by eapply committed_within.
Qed.

Lemma committed_alters evs : Forall is_alter evs -> block evs /\ committed evs = [].
Proof.
  intros Hl. split.
  - apply block_plain. eapply Forall_impl; [exact Hl|]. intros ev. by destruct ev.
  - destruct (committed evs) as [|[t0 row0] rest] eqn:Hc; [done|].
    assert (Hin : (t0, row0) ∈ committed evs) by (rewrite Hc; apply list_elem_of_here).
    apply committed_elem in Hin as (ev & Hev & Ht & _).
    rewrite Forall_forall in Hl. specialize (Hl ev Hev). by destruct ev.
Qed.

Section Positions.
Context `{Printers} `{Primitives} `{Annotations} `{Engine}.
Variable self : Loader.settings.

(** The number of candidates decoded from the record [v] at position [n]. *)
Definition candidates (reg : gmap string (list string)) (v : Loader.RawRecord) (n : Z)
  : nat :=
  match Loader.build_d self v n with
  | Ok d =>
      match Transform.decode_all ["CSQ"; "ANN"; "EFF"] reg d [] with
      | Ok (_, impacts) => length impacts
      | Raise _ => 0%nat
      end
  | Raise _ => 0%nat
  end.

(** The [variant_id]s that the rows of the records [l] are to carry. *)
Definition primary_ids (l : list (Z * Loader.RawRecord)) : list (option pyval) :=
  map (fun p => Some (VInt p.1)) l.

Definition impact_ids (reg : gmap string (list string))
    (l : list (Z * Loader.RawRecord)) : list (option pyval) :=
  flat_map (fun p => replicate (candidates reg p.2 p.1) (Some (VInt p.1))) l.

(** One record through [gene_info]. *)
Lemma gene_info_ids d n reg blobber req_cols row gimpacts :
  d !! "variant_id" = Some (VInt n) ->
  unshadowed req_cols "variant_id" ->
  Transform.gene_info d reg blobber Schema.gt_cols req_cols = Ok (row, gimpacts) ->
  row !! "variant_id" = Some (VInt n)
  /\ exists d1 impacts,
       Transform.decode_all ["CSQ"; "ANN"; "EFF"] reg d [] = Ok (d1, impacts)
       /\ gimpacts = map (Transform.impact_row (VInt n)) impacts.
Proof.
  intros Hid Hun Hg.
  destruct (gene_info_inv _ _ _ _ _ _ _ Hg)
    as (d1 & impacts & top & d2 & Hdec & _ & Hb & Hrow & Himp).
  assert (Hrowid : row !! "variant_id" = Some (VInt n)).
  { rewrite Hrow, add_required_lookup by done.
    assert (Hd2 : d2 !! "variant_id" = Some (VInt n)).
    { rewrite (blob_all_lookup _ _ _ _ _ Hb) by not_in_list.
      rewrite project_other by not_in_list.
      rewrite (decode_all_lookup _ _ _ _ _ _ _ Hdec) by not_in_list. done. }
    by rewrite (lookup_union_Some_l _ _ _ _ Hd2). }
  split; [done|]. exists d1, impacts. split; [done|].
  destruct Himp as [[-> ->]|(vid & Hvid & ->)]; [done|].
  rewrite Hrowid in Hvid. by injection Hvid as <-.
Qed.

(** The pending records through the transform of [insert]. *)
Lemma transform_ids reg keys variants : forall pend results,
  Forall2 (fun (d : dict) p => Loader.build_d self p.2 p.1 = Ok d) variants pend ->
  unshadowed keys "variant_id" ->
  Loader.map_result (fun d => Transform.gene_info d reg (Loader.run_blobber self)
                                Schema.gt_cols keys) variants = Ok results ->
  map (fun row : dict => row !! "variant_id") (map fst results) = primary_ids pend
  /\ map (fun row : dict => row !! "variant_id") (concat (map snd results))
     = impact_ids reg pend.
Proof.
  induction variants as [|d variants IH]; intros pend results Hpend Hun; simpl.
  { intros [= <-]. by inversion Hpend. }
  inversion Hpend as [|d' p variants' pend' Hd Hrest]; subst.
  destruct (Transform.gene_info d reg _ Schema.gt_cols keys) as [[row gimpacts]|] eqn:Hg;
    simpl; [|done].
  destruct (Loader.map_result _ variants) as [rs|] eqn:Hrs; simpl; [|done].
  intros [= <-]. destruct (IH _ _ Hrest Hun eq_refl) as [IH1 IH2].
  destruct (gene_info_ids _ _ _ _ _ _ _ (build_d_variant_id _ _ _ _ Hd) Hun Hg)
    as (Hrow & d1 & impacts & Hdec & ->).
  split.
  - simpl. by rewrite Hrow, IH1.
  - simpl. rewrite map_app, IH2. f_equal.
    unfold candidates. rewrite Hd, Hdec.
    clear. induction impacts as [|e l IHl]; [done|].
    simpl. by rewrite impact_row_variant_id, IHl.
Qed.


(** [_insert] and the inserts into the expansion tables, when they return
    normally. *)
Lemma flush_commits vlengths (v : list dict) vilengths (vi : list dict)
    (l : list (string * list dict)) w w' :
  (Loader._insert vlengths v vilengths vi ;;
   for_each l (fun '(k, rows) => Loader.__insert rows ("sample_" +:+ k))) w = (Ok tt, w') ->
  exists evs,
    log w' = log w ++ evs /\ block evs
    /\ impacts_headers w' = impacts_headers w
    /\ ids_in "variants" (committed evs) = map (fun row : dict => row !! "variant_id") v
    /\ ids_in "variant_impacts" (committed evs)
       = map (fun row : dict => row !! "variant_id") vi.
Proof.
  rewrite bind_unfold.
  destruct (_insert_trace vlengths v vilengths vi w)
    as (r & w1 & av & iv & avi & ivi & -> & _ & _ & Hih & _ & _ & Hlog & Hav & Havi
        & Hbv & Hbvi & Hwv & Hwvi & _ & _ & _ & Hok).
  destruct r as [[]|e]; [|done].
  destruct (expansions_trace l w1) as (r2 & ix & -> & Hbx & Hx).
  intros [= -> <-]. destruct (Hok eq_refl) as [Hciv Hcivi].
  destruct (committed_alters av Hav) as [Hbav Hcav].
  destruct (committed_alters avi Havi) as [Hbavi Hcavi].
  assert (Hsx : Forall (within 3 3) ix).
  { eapply Forall_impl; [exact Hx|]. apply expansion_within. }
  exists (av ++ iv ++ avi ++ ivi ++ ix). split_and!.
  - simpl. rewrite Hlog. by rewrite <- !app_assoc.
  - repeat (apply block_app; [done|]). done.
  - done.
  - rewrite (committed_app av), (committed_app iv), (committed_app avi),
      (committed_app ivi) by done.
    rewrite Hcav, Hcavi, Hciv, Hcivi. simpl. rewrite !ids_in_app, ids_in_rows.
    rewrite (ids_in_other "variants" (map (pair "variant_impacts") vi)).
    2: { intros t row Hin. by apply list_elem_of_fmap in Hin as (? & [= -> _] & _). }
    rewrite (ids_in_stage 3 3 "variants" ix Hsx) by (vm_compute; lia).
    by rewrite !app_nil_r.
  - rewrite (committed_app av), (committed_app iv), (committed_app avi),
      (committed_app ivi) by done.
    rewrite Hcav, Hcavi, Hciv, Hcivi. simpl. rewrite !ids_in_app, ids_in_rows.
    rewrite (ids_in_other "variant_impacts" (map (pair "variants") v)).
    2: { intros t row Hin. by apply list_elem_of_fmap in Hin as (? & [= -> _] & _). }
    rewrite (ids_in_stage 3 3 "variant_impacts" ix Hsx) by (vm_compute; lia).
    by rewrite !app_nil_r.
Qed.

(** One call of [insert] that returns normally. *)
Lemma insert_commits variants expanded keys i create_ w w' :
  Loader.insert self variants expanded keys i create_ w = (Ok tt, w') ->
  exists results evs,
    Loader.map_result (fun d => Transform.gene_info d (impacts_headers w)
                                  (Loader.run_blobber self) Schema.gt_cols keys) variants
    = Ok results
    /\ log w' = log w ++ evs /\ block evs
    /\ impacts_headers w' = impacts_headers w
    /\ ids_in "variants" (committed evs)
       = map (fun row : dict => row !! "variant_id") (map fst results)
    /\ ids_in "variant_impacts" (committed evs)
       = map (fun row : dict => row !! "variant_id") (concat (map snd results)).
Proof.
  unfold Loader.insert. rewrite bind_unfold.
  destruct (Loader.map_result _ variants) as [results|e]; [|done].
  set (v := map fst results). set (vi := concat (map snd results)).
  rewrite bind_unfold. intros Hrun. exists results.
  destruct create_.
  - rewrite bind_unfold in Hrun.
    destruct (create_trace self v vi w) as (r1 & w1 & setup & Hc & Hlog1 & Hsetup & Hih1 & _).
    rewrite Hc in Hrun. destruct r1 as [[]|e1]; [|done].
    unfold ret at 1 in Hrun. cbv beta iota in Hrun. unfold fst at 1, snd at 1 in Hrun.
    destruct (flush_commits _ _ _ _ _ _ _ Hrun) as (evs & Hlog & Hb & Hih & Hv & Hvi).
    assert (Hs0 : Forall (within 0 0) setup).
    { eapply Forall_impl; [exact Hsetup|]. apply setup_within. }
    exists (setup ++ evs). split_and!; try done.
    + rewrite Hlog, Hlog1. by rewrite <- app_assoc.
    + apply block_app; [by apply setup_block | done].
    + congruence.
    + rewrite committed_app by by apply setup_block.
      rewrite ids_in_app, (ids_in_stage 0 0 "variants" setup Hs0) by (vm_compute; lia).
      done.
    + rewrite committed_app by by apply setup_block.
      rewrite ids_in_app, (ids_in_stage 0 0 "variant_impacts" setup Hs0) by (vm_compute; lia).
      done.
  - destruct (String.eqb dialect_name "sqlite"); cbn [negb] in Hrun; cbv iota in Hrun.
    + unfold ret at 1 in Hrun. cbv beta iota in Hrun. unfold fst at 1, snd at 1 in Hrun.
      destruct (flush_commits _ _ _ _ _ _ _ Hrun) as (evs & Hlog & Hb & Hih & Hv & Hvi).
      by exists evs.
    + rewrite bind_unfold in Hrun.
      destruct (Loader.check_for "variants" v w) as [[vl|e1] w1] eqn:Hck1; [|done].
      destruct (check_for_covered _ _ _ _ _ Hck1) as [-> _].
      rewrite bind_unfold in Hrun.
      destruct (Loader.check_for "variant_impacts" vi w) as [[vil|e2] w2] eqn:Hck2; [|done].
      destruct (check_for_covered _ _ _ _ _ Hck2) as [-> _].
      unfold ret at 1 in Hrun. cbv beta iota in Hrun. unfold fst at 1, snd at 1 in Hrun.
      destruct (flush_commits _ _ _ _ _ _ _ Hrun) as (evs & Hlog & Hb & Hih & Hv & Hvi).
      by exists evs.
Qed.


(** The keys that [_load] itself sets in the dictionary of a record. *)
Definition own_keys : list string :=
  Schema.gt_cols
  ++ ["chrom"; "start"; "end"; "ref"; "alt"; "qual"; "filter"; "vcf_id"; "variant_id";
      "type"; "sub_type"; "call_rate"; "num_hom_ref"; "num_het"; "num_hom_alt"; "aaf"].

Lemma own_keys_lower : Forall (fun K => PyStr.islower K = true) own_keys.
Proof. unfold own_keys, Schema.gt_cols. simpl. repeat constructor. Qed.

Lemma set_gt_cols_dom v cols : forall (d0 d : dict) K,
  Loader.set_gt_cols self v cols d0 = Ok d -> K ∈ dom d -> K ∈ dom d0 \/ K ∈ cols.
Proof.
  induction cols as [|c cols IH]; intros d0 d K; simpl.
  { intros [= <-] HK. by left. }
  destruct (match default VNone _ with VNone => Ok VNone | _ => _ end) as [arr|];
    simpl; [|done].
  intros Hd HK. destruct (IH _ _ _ Hd HK) as [Hin|Hin].
  - rewrite dom_insert in Hin. apply elem_of_union in Hin as [Hin|Hin].
    + apply elem_of_singleton in Hin as ->. right. apply list_elem_of_here.
    + by left.
  - right. by apply list_elem_of_further.
Qed.

Lemma build_d_dom v i d K :
  Loader.build_d self v i = Ok d -> K ∈ dom d -> K ∈ dom (Loader.INFO v) \/ K ∈ own_keys.
Proof.
  unfold Loader.build_d.
  destruct (Loader.set_gt_cols self v Schema.gt_cols (Loader.INFO v)) as [d0|] eqn:Hgt;
    simpl; [|done].
  intros [= <-] HK. unfold Loader._set_variant_properties in HK.
  rewrite !dom_insert in HK. rewrite !elem_of_union, !elem_of_singleton in HK.
  unfold own_keys.
  assert (Hown : forall k, k ∈ ["chrom"; "start"; "end"; "ref"; "alt"; "qual"; "filter";
                                "vcf_id"; "variant_id"; "type"; "sub_type"; "call_rate";
                                "num_hom_ref"; "num_het"; "num_hom_alt"; "aaf"] ->
            K = k -> K ∈ dom (Loader.INFO v) \/ K ∈ Schema.gt_cols ++ [
                                "chrom"; "start"; "end"; "ref"; "alt"; "qual"; "filter";
                                "vcf_id"; "variant_id"; "type"; "sub_type"; "call_rate";
                                "num_hom_ref"; "num_het"; "num_hom_alt"; "aaf"]).
  { intros k Hk ->. right. apply elem_of_app. by right. }
  repeat (destruct HK as [HK|HK]; [eapply Hown; [|exact HK]; in_list|]).
  destruct (set_gt_cols_dom _ _ _ _ _ Hgt HK) as [Hin|Hin]; [by left|].
  right. apply elem_of_app. by left.
Qed.

Lemma unshadowed_union keys v i d :
  Loader.build_d self v i = Ok d ->
  unshadowed keys "variant_id" ->
  (forall K, K ∈ dom (Loader.INFO v) -> PyStr.islower K = false ->
             PyStr.lower K <> "variant_id") ->
  unshadowed (keys ∪ dom d) "variant_id".
Proof.
  intros Hd Hun Hinfo K HK Hlow. apply elem_of_union in HK as [HK|HK]; [by apply Hun|].
  destruct (build_d_dom _ _ _ _ Hd HK) as [Hin|Hin]; [by apply Hinfo|].
  pose proof own_keys_lower as Hall. rewrite Forall_forall in Hall.
  rewrite (Hall K Hin) in Hlow. done.
Qed.

(** The rows that [_load] commits when it returns normally: those of the
    pending records, then those of the records still to be read, each with
    the position that [enumerate] gives it. *)
Lemma _load_go_ids records : forall create_ i last variants expanded keys w r w' pend,
  Loader._load_go self records create_ i last variants expanded keys w = (Ok r, w') ->
  Forall2 (fun (d : dict) p => Loader.build_d self p.2 p.1 = Ok d) variants pend ->
  (variants <> [] -> is_Some last) ->
  unshadowed keys "variant_id" ->
  (forall v K, v ∈ records -> K ∈ dom (Loader.INFO v) -> PyStr.islower K = false ->
               PyStr.lower K <> "variant_id") ->
  exists evs,
    log w' = log w ++ evs /\ block evs
    /\ impacts_headers w' = impacts_headers w
    /\ ids_in "variants" (committed evs) = primary_ids (pend ++ enumerate i records)
    /\ ids_in "variant_impacts" (committed evs)
       = impact_ids (impacts_headers w) (pend ++ enumerate i records).
Proof.
  induction records as [|v rest IH];
    intros create_ i last variants expanded keys w r w' pend Hrun Hpend Hlast Hun Hinfo.
  - simpl in Hrun. rewrite app_nil_r.
    destruct variants as [|d0 variants].
    { injection Hrun as _ <-. inversion Hpend; subst. exists [].
      rewrite app_nil_r. split_and!; done. }
    destruct (Hlast ltac:(done)) as [j ->].
    rewrite bind_unfold in Hrun.
    destruct (Loader.insert self (d0 :: variants) expanded keys j create_ w)
      as [[[]|e] w1] eqn:Hins; [|done].
    injection Hrun as _ <-.
    destruct (insert_commits _ _ _ _ _ _ _ Hins)
      as (results & evs & Hres & Hlog & Hb & Hih & Hv & Hvi).
    destruct (transform_ids _ _ _ _ _ Hpend Hun Hres) as [Hp1 Hp2].
    exists evs. split_and!; try done; congruence.
  - cbn [Loader._load_go] in Hrun. rewrite bind_unfold in Hrun. unfold lift at 1 in Hrun.
    destruct (Loader.build_d self v i) as [d|] eqn:Hd; [|done].
    rewrite bind_unfold in Hrun. unfold lift at 1 in Hrun.
    destruct (Loader.expand_all self (Loader.expand self) d expanded) as [expanded1|]; [|done].
    assert (Hpend1 : Forall2 (fun (d : dict) p => Loader.build_d self p.2 p.1 = Ok d)
                       (variants ++ [d]) (pend ++ [(i, v)])).
    { apply Forall2_app; [done|]. by constructor. }
    assert (Hun1 : unshadowed (keys ∪ dom d) "variant_id").
    { eapply unshadowed_union; [exact Hd | exact Hun|].
      intros K. apply Hinfo, list_elem_of_here. }
    assert (Hinfo1 : forall v0 K, v0 ∈ rest -> K ∈ dom (Loader.INFO v0) ->
              PyStr.islower K = false -> PyStr.lower K <> "variant_id").
    { intros v0 K Hv0. apply Hinfo. by apply list_elem_of_further. }
    assert (Heq : pend ++ enumerate i (v :: rest)
                  = (pend ++ [(i, v)]) ++ enumerate (i + 1) rest).
    { simpl. by rewrite <- app_assoc. }
    rewrite Heq.
    destruct (negb create_ && (i mod 10000 =? 0)).
    + rewrite bind_unfold in Hrun.
      destruct (Loader.insert self (variants ++ [d]) expanded1 (keys ∪ dom d) i create_ w)
        as [[[]|e] w1] eqn:Hins; [|done].
      destruct (insert_commits _ _ _ _ _ _ _ Hins)
        as (results & evs1 & Hres & Hlog1 & Hb1 & Hih1 & Hv1 & Hvi1).
      destruct (transform_ids _ _ _ _ _ Hpend1 Hun1 Hres) as [Hp1 Hp2].
      destruct (IH _ _ _ _ _ _ _ _ _ [] Hrun ltac:(constructor) ltac:(done) Hun1 Hinfo1)
        as (evs2 & Hlog2 & Hb2 & Hih2 & Hv2 & Hvi2).
      exists (evs1 ++ evs2). split_and!.
      * rewrite Hlog2, Hlog1. by rewrite <- app_assoc.
      * by apply block_app.
      * congruence.
      * rewrite committed_app, ids_in_app by done. rewrite Hv1, Hv2, Hp1.
        unfold primary_ids. simpl. by rewrite !map_app.
      * rewrite committed_app, ids_in_app by done. rewrite Hvi1, Hvi2, Hp2, Hih1.
        unfold impact_ids. simpl. by rewrite !flat_map_app.
    + by apply (IH _ _ _ _ _ _ _ _ _ _ Hrun Hpend1).
Qed.

(** X14.  When [load] returns normally for a stream none of whose INFO keys
    turns into [variant_id] by lower-casing, the rows committed to the
    primary table are, in order, one for each record of the stream, and the
    row of the n-th record (counted from 1 over the replayed prefix and the
    rest) holds [n] under [variant_id]; the rows committed to the impact
    table are, in the same order, one for each candidate of each record,
    and each holds the [variant_id] of its record. *)
Theorem rows_carry_the_position stream w w' :
  (forall v K, v ∈ stream -> K ∈ dom (Loader.INFO v) -> PyStr.islower K = false ->
               PyStr.lower K <> "variant_id") ->
  Loader.load self stream w = (Ok tt, w') ->
  exists evs,
    log w' = log w ++ evs
    /\ ids_in "variants" (committed evs)
       = map (fun p : Z * Loader.RawRecord => Some (VInt p.1)) (enumerate 1 stream)
    /\ ids_in "variant_impacts" (committed evs)
       = flat_map (fun p : Z * Loader.RawRecord =>
                     replicate (candidates (impacts_headers w) p.2 p.1) (Some (VInt p.1)))
                  (enumerate 1 stream).
Proof.
  intros Hinfo Hrun. unfold Loader.load in Hrun. rewrite bind_unfold in Hrun.
  set (n := Z.to_nat 10000) in *.
  destruct (Loader._load self (take n stream) true 1 w) as [[r|e] w1] eqn:Hpre; [|done].
  destruct r as [i|]; [|done].
  rewrite bind_unfold in Hrun.
  destruct (Loader._load self (drop n stream) false (i + 1) w1) as [[r2|e] w2] eqn:Hpost;
    [|done].
  injection Hrun as <-.
  assert (Hi : i + 1 = 1 + Z.of_nat (length (take n stream))).
  { pose proof Hpre as Hp. unfold Loader._load in Hp. apply _load_go_last in Hp.
    destruct (take n stream) as [|v0 l0]; [done|]. injection Hp as Hp.
    cbn [length]. lia. }
  unfold Loader._load in Hpre, Hpost.
  assert (Hempty : unshadowed ∅ "variant_id").
  { intros K HK. by apply not_elem_of_empty in HK. }
  assert (Hnil : Forall2 (fun (d : dict) (p : Z * Loader.RawRecord) =>
                             Loader.build_d self p.2 p.1 = Ok d) [] []) by constructor.
  assert (Hlast : ([] : list dict) <> [] -> is_Some (None : option Z)) by done.
  destruct (_load_go_ids _ _ _ _ _ _ _ _ _ _ _ Hpre Hnil Hlast Hempty)
    as (evs1 & Hlog1 & Hb1 & Hih1 & Hv1 & Hvi1).
  { intros v K Hv. apply Hinfo. rewrite <- (take_drop n stream).
    apply elem_of_app. by left. }
  destruct (_load_go_ids _ _ _ _ _ _ _ _ _ _ _ Hpost Hnil Hlast Hempty)
    as (evs2 & Hlog2 & Hb2 & Hih2 & Hv2 & Hvi2).
  { intros v K Hv. apply Hinfo. rewrite <- (take_drop n stream).
    apply elem_of_app. by right. }
  simpl in Hv1, Hvi1, Hv2, Hvi2.
  assert (Hall : enumerate 1 stream
                 = enumerate 1 (take n stream) ++ enumerate (i + 1) (drop n stream)).
  { rewrite <- (take_drop n stream) at 1. by rewrite enumerate_app, Hi. }
  exists (evs1 ++ evs2). split_and!.
  - rewrite Hlog2, Hlog1. by rewrite <- app_assoc.
  - rewrite committed_app, ids_in_app by done. rewrite Hv1, Hv2, Hall.
    unfold primary_ids. by rewrite !map_app.
  - rewrite committed_app, ids_in_app by done. rewrite Hvi1, Hvi2, Hih1, Hall.
    unfold impact_ids. by rewrite !flat_map_app.
Qed.

End Positions.
Definition two_records : list Loader.RawRecord :=
  [record_with {[ "CSQ" := VStr "HIGH|g1,LOW|g2" ]}; record_with {[ "CSQ" := VStr "LOW|g3" ]}].

Lemma two_records_candidates :
  flat_map (fun p : Z * Loader.RawRecord =>
              replicate (@candidates plain_annotations plain_settings
                           (impacts_headers annotated_world) p.2 p.1) (Some (VInt p.1)))
           (enumerate 1 two_records)
  = [Some (VInt 1); Some (VInt 1); Some (VInt 2)].
Proof. vm_compute. reflexivity. Qed.

Lemma two_records_run : (load_records two_records).1 = Ok tt.
Proof. vm_compute. reflexivity. Qed.

Lemma two_records_keys v K :
  v ∈ two_records -> K ∈ dom (Loader.INFO v) ->
  PyStr.islower K = false -> PyStr.lower K <> "variant_id".
Proof.
  intros Hv HK _. unfold two_records in Hv.
  assert (HCSQ : K = "CSQ").
  { apply elem_of_cons in Hv as [->|Hv]; [|apply elem_of_cons in Hv as [->|Hv]].
    - unfold record_with in HK; cbn [Loader.INFO] in HK.
      rewrite dom_singleton in HK. by apply elem_of_singleton in HK.
    - unfold record_with in HK; cbn [Loader.INFO] in HK.
      rewrite dom_singleton in HK. by apply elem_of_singleton in HK.
    - by apply elem_of_nil in Hv. }
  rewrite HCSQ. discriminate.
Qed.

Lemma rows_carry_the_position_witness :
  exists evs,
    (load_records two_records).1 = Ok tt
    /\ log (load_records two_records).2 = log annotated_world ++ evs
    /\ ids_in "variants" (committed evs) = [Some (VInt 1); Some (VInt 2)]
    /\ ids_in "variant_impacts" (committed evs)
       = [Some (VInt 1); Some (VInt 1); Some (VInt 2)].
Proof.
  pose proof two_records_run as Hfst.
  assert (Hrun : load_records two_records = (Ok tt, (load_records two_records).2)).
  { exact (eq_trans (surjective_pairing _)
                  (f_equal (fun r => (r, (load_records two_records).2)) Hfst)). }
  unfold load_records in Hrun at 1.
  destruct (@rows_carry_the_position plain_printers plain_primitives plain_annotations
              (accept_all "sqlite") plain_settings two_records annotated_world
              (load_records two_records).2 two_records_keys Hrun) as (evs & Hlog & Hv & Hvi).
  exists evs. rewrite two_records_candidates in Hvi.
  exact (conj Hfst (conj Hlog (conj Hv Hvi))).
Defined.

(** ** A length object shared by two columns *)

(** Some insert into [table] carries a string longer than the length the
    database holds for its column. *)
Fixpoint overflows (table : string) (ws : gmap string Z) (evs : list event) : bool :=
  match evs with
  | [] => false
  | ev :: rest =>
      match ev with
      | EExecute t _ rows _ => String.eqb t table && existsb (row_exceeds ws) rows
      | ERow t _ row _ => String.eqb t table && row_exceeds ws row
      | _ => false
      end
      || overflows table (told_step table ws ev) rest
  end.

Lemma overflows_spec table ws evs : overflows table ws evs = true -> ~ fits_told table ws evs.
Proof.
  revert ws. induction evs as [|ev evs IH]; intros ws; simpl; [done|].
  intros [Hev|Hrest]%orb_prop [Hfit Hfits]; [|by apply (IH _ Hrest)].
  destruct ev; try done.
  - apply andb_prop in Hev as [Ht Hex]. apply String.eqb_eq in Ht.
    apply existsb_exists in Hex as (row & Hin & Hex).
    specialize (Hfit Ht). rewrite Forall_forall in Hfit.
    apply (row_exceeds_spec _ _ Hex). by apply Hfit, list_elem_of_In.
  - apply andb_prop in Hev as [Ht Hex]. apply String.eqb_eq in Ht.
    by apply (row_exceeds_spec _ _ Hex), Hfit.
Qed.

(** The columns for a header that declares the INFO attributes [SOURCE]
    and [CALLER], both of type [String]: the two columns share one length
    object. *)
Definition shared_world : world :=
  match Loader.create_columns [] two_strings with
  | Ok w => w
  | Raise _ => empty_world
  end.

Definition called (source caller : string) (i : Z) : dict :=
  match @Loader.build_d plain_settings
          (record_with {[ "SOURCE" := VStr source; "CALLER" := VStr caller ]}) i with
  | Ok d => d
  | Raise _ => ∅
  end.

Definition shared_flush (create_ : bool) (source caller : string) (i : Z) : M unit :=
  @Loader.insert plain_printers plain_primitives plain_annotations (accept_all "postgresql")
    plain_settings [called source caller i] ∅ (dom (called source caller i)) i create_.

Definition shared_run : result unit * world :=
  (shared_flush true "a" "b" 1 ;;
   shared_flush false "twenty characters..." "b" 2 ;;
   shared_flush false "a" "fifteen chars.." 3) shared_world.

(** When two columns share one length object, the lengths that the
    database has been told no longer cover the rows.  The tables are created with the length 5 for both columns; the
    second flush widens [source] to 20, in the program and in the database;
    the third flush finds that the 15 characters of [caller] fit the length
    of its type, which is the object that [source] has widened, and sends
    no statement: the insert carries 15 characters into a column that the
    database holds at 5. *)
Lemma shared_length_overflows :
  shared_run.1 = Ok tt
  /\ omap (fun ev => match ev with
                     | ECreate "variants" ws => Some (ws !! "source", ws !! "caller")
                     | _ => None
                     end) (log shared_run.2) = [(Some 5, Some 5)]
  /\ alters (log shared_run.2) = [("variants", "source", 20)]
  /\ ~ fits_told "variants" ∅ (log shared_run.2)
  /\ ~ NoDup (omap string_ref (variants_columns shared_world
                               ++ variant_impacts_columns shared_world)).
Proof.
  split; [vm_compute; reflexivity|].
  split; [vm_compute; reflexivity|].
  split; [vm_compute; reflexivity|].
  split; [apply overflows_spec; vm_compute; reflexivity|].
  by_decide.
Qed.
